(** * parallel_proc_runner: the restartable job runner and the command-line
    orchestrator of [parallel_proc_runner_base.py]

    The development embeds [BaseJobRunner] (its [start] and the statements of
    its [run] body, one program point per statement) and [Cli] (callbacks,
    report, exit status, and the main thread of [Cli.run]) and proves the
    properties of the specification about them.  Threads are interleaved by
    an explicit schedule; a [threading.Event] is a cell of a shared store. *)

From Stdlib Require Import ZArith Ascii String.
From stdpp Require Import gmap strings list pretty.

Local Open Scope string_scope.
Local Open Scope list_scope.
Local Open Scope nat_scope.

(** ** Python values the program manipulates *)

(** A raised Python exception: [type(e).__name__], [str(e)], and whether the
    object is an instance of [Exception] (the class the handler of
    [BaseJobRunner.run] names); [SystemExit], [KeyboardInterrupt] and
    [GeneratorExit] are not. *)
Record PyExc := {
  exc_type_name : string;
  exc_message : string;
  exc_is_Exception : bool
}.

(** Values of the keyword arguments given to [set_args]. *)
Inductive PyVal :=
| PyNone
| PyInt (z : Z)
| PyStr (s : string)
| PyEvent (e : nat).

(** ** [threading.Event]

    Event objects live in a store indexed by their identity; two references
    to one event (a runner's [stop_event] used as another runner's
    [start_gating_event]) are the same index. *)

Definition Event_is_set (h : gmap nat bool) (e : nat) : bool :=
  default false (h !! e).

Definition Event_set (h : gmap nat bool) (e : nat) : gmap nat bool :=
  <[e := true]> h.

Definition Event_clear (h : gmap nat bool) (e : nat) : gmap nat bool :=
  <[e := false]> h.

(** [threading.Event()]: a new object, flag initially false. *)
Definition Event_new (h : gmap nat bool) : nat * gmap nat bool :=
  let e := fresh (dom h) in (e, <[e := false]> h).

(** ** Strings *)

(** [str(n)] for a Python [int]. *)
Definition str (n : Z) : string := pretty n.

(** [needle in hay] on Python strings. *)
Fixpoint str_contains (needle hay : string) : bool :=
  String.prefix needle hay ||
  match hay with
  | EmptyString => false
  | String _ hay' => str_contains needle hay'
  end.

(** [s.split("\n")], accumulating the current piece in [cur]. *)
Fixpoint split_lines_from (cur s : string) : list string :=
  match s with
  | EmptyString => [cur]
  | String c s' =>
      if Ascii.eqb c "010"%char
      then cur :: split_lines_from "" s'
      else split_lines_from (cur +:+ String c "") s'
  end.

Definition split_lines (s : string) : list string := split_lines_from "" s.

(** [len(s)].  A string is kept as the bytes of its UTF-8 encoding; a
    character is one byte that is not of the form [10xxxxxx], followed by
    the bytes of that form that continue it, so the number of characters
    is the number of bytes that do not continue one. *)
Definition is_continuation_byte (c : ascii) : bool :=
  match c with
  | Ascii _ _ _ _ _ _ false true => true
  | _ => false
  end.

Fixpoint len (s : string) : nat :=
  match s with
  | EmptyString => 0
  | String c s' => (if is_continuation_byte c then 0 else 1) + len s'
  end.

(** ** [BaseJobRunner] *)

(** What a callback or a job body reads of the runner it belongs to, at the
    moment it is called. *)
Record View := {
  view_name : string;
  view_running : bool;
  view_result : Z;
  view_output : string;
  view_result_message : string;
  view_stop_event_is_set : bool
}.

(** How a call of a callback ends.  The state [E] is whatever the owner of
    the callbacks keeps (for [Cli]: its result list, semaphores and the
    console).  [Blocked] is a callback that cannot proceed yet. *)
Inductive CallResult (E : Type) :=
| Returned (env : E)
| Raised (e : PyExc) (env : E)
| Blocked.
Arguments Returned {E} env.
Arguments Raised {E} e env.
Arguments Blocked {E}.

Definition StartCallback (E : Type) := string → View → E → CallResult E.
Definition StopCallback (E : Type) :=
  string → string → string → View → E → CallResult E.

(** How a call of [job()] ends: [return result, output], or an exception. *)
Inductive JobOutcome :=
| JobReturn (result : Z) (output : string)
| JobRaise (e : PyExc).

(** The attributes set by [__init__], and the [job] method of the class of
    the object ([job] is what subclasses override). *)
Record BaseJobRunner (E : Type) := {
  name : string;
  thread : option nat;
  start_gating_event : option nat;
  start_callback : option (StartCallback E);
  stop_callback : option (StopCallback E);
  stop_event : nat;
  running : bool;
  result : Z;
  output : string;
  result_message : string;
  setup_kwargs : gmap string PyVal;
  job : View → gmap string PyVal → JobOutcome
}.
Arguments name {E} _.
Arguments thread {E} _.
Arguments start_gating_event {E} _.
Arguments start_callback {E} _.
Arguments stop_callback {E} _.
Arguments stop_event {E} _.
Arguments running {E} _.
Arguments result {E} _.
Arguments output {E} _.
Arguments result_message {E} _.
Arguments setup_kwargs {E} _.
Arguments job {E} _ _ _.

Section Runner.
Context {E : Type}.
Implicit Types (self : BaseJobRunner E) (h : gmap nat bool) (env : E).

(** Attribute stores, one per attribute the methods assign. *)
Definition with_thread (t : option nat) self : BaseJobRunner E :=
  {| name := name self; thread := t;
     start_gating_event := start_gating_event self;
     start_callback := start_callback self;
     stop_callback := stop_callback self; stop_event := stop_event self;
     running := running self; result := result self;
     output := output self; result_message := result_message self;
     setup_kwargs := setup_kwargs self; job := job self |}.

Definition with_start_gating_event (g : option nat) self : BaseJobRunner E :=
  {| name := name self; thread := thread self;
     start_gating_event := g;
     start_callback := start_callback self;
     stop_callback := stop_callback self; stop_event := stop_event self;
     running := running self; result := result self;
     output := output self; result_message := result_message self;
     setup_kwargs := setup_kwargs self; job := job self |}.

Definition with_start_callback (c : option (StartCallback E)) self
  : BaseJobRunner E :=
  {| name := name self; thread := thread self;
     start_gating_event := start_gating_event self;
     start_callback := c;
     stop_callback := stop_callback self; stop_event := stop_event self;
     running := running self; result := result self;
     output := output self; result_message := result_message self;
     setup_kwargs := setup_kwargs self; job := job self |}.

Definition with_stop_callback (c : option (StopCallback E)) self
  : BaseJobRunner E :=
  {| name := name self; thread := thread self;
     start_gating_event := start_gating_event self;
     start_callback := start_callback self;
     stop_callback := c; stop_event := stop_event self;
     running := running self; result := result self;
     output := output self; result_message := result_message self;
     setup_kwargs := setup_kwargs self; job := job self |}.

Definition with_running (b : bool) self : BaseJobRunner E :=
  {| name := name self; thread := thread self;
     start_gating_event := start_gating_event self;
     start_callback := start_callback self;
     stop_callback := stop_callback self; stop_event := stop_event self;
     running := b; result := result self;
     output := output self; result_message := result_message self;
     setup_kwargs := setup_kwargs self; job := job self |}.

Definition with_result (r : Z) self : BaseJobRunner E :=
  {| name := name self; thread := thread self;
     start_gating_event := start_gating_event self;
     start_callback := start_callback self;
     stop_callback := stop_callback self; stop_event := stop_event self;
     running := running self; result := r;
     output := output self; result_message := result_message self;
     setup_kwargs := setup_kwargs self; job := job self |}.

Definition with_output (o : string) self : BaseJobRunner E :=
  {| name := name self; thread := thread self;
     start_gating_event := start_gating_event self;
     start_callback := start_callback self;
     stop_callback := stop_callback self; stop_event := stop_event self;
     running := running self; result := result self;
     output := o; result_message := result_message self;
     setup_kwargs := setup_kwargs self; job := job self |}.

Definition with_result_message (m : string) self : BaseJobRunner E :=
  {| name := name self; thread := thread self;
     start_gating_event := start_gating_event self;
     start_callback := start_callback self;
     stop_callback := stop_callback self; stop_event := stop_event self;
     running := running self; result := result self;
     output := output self; result_message := m;
     setup_kwargs := setup_kwargs self; job := job self |}.

Definition with_setup_kwargs (kw : gmap string PyVal) self
  : BaseJobRunner E :=
  {| name := name self; thread := thread self;
     start_gating_event := start_gating_event self;
     start_callback := start_callback self;
     stop_callback := stop_callback self; stop_event := stop_event self;
     running := running self; result := result self;
     output := output self; result_message := result_message self;
     setup_kwargs := kw; job := job self |}.

Definition view_of self h : View :=
  {| view_name := name self; view_running := running self;
     view_result := result self; view_output := output self;
     view_result_message := result_message self;
     view_stop_event_is_set := Event_is_set h (stop_event self) |}.

(** [dummy_method(self, *args, **kwargs): pass], at both callback types. *)
Definition dummy_start_method : StartCallback E :=
  λ _ _ env, Returned env.
Definition dummy_stop_method : StopCallback E :=
  λ _ _ _ _ env, Returned env.

(** [BaseJobRunner.job]: the body subclasses are meant to override. *)
Definition BaseJobRunner_job (v : View) (kw : gmap string PyVal)
  : JobOutcome :=
  let result := 1%Z in
  let output := "Override this method" in
  JobReturn result output.

(** [__init__(self, name)] for a class whose [job] method is [j]. *)
Definition BaseJobRunner_init (j : View → gmap string PyVal → JobOutcome)
    (nm : string) h : BaseJobRunner E * gmap nat bool :=
  let '(ev, h') := Event_new h in
  ({| name := nm; thread := None; start_gating_event := None;
      start_callback := Some dummy_start_method;
      stop_callback := Some dummy_stop_method;
      stop_event := ev;
      running := false; result := (-1)%Z; output := "";
      result_message := ""; setup_kwargs := ∅; job := j |}, h').

Definition set_start_gating_event (g : option nat) self :=
  with_start_gating_event g self.
Definition set_start_callback (c : option (StartCallback E)) self :=
  with_start_callback c self.
Definition set_stop_callback (c : option (StopCallback E)) self :=
  with_stop_callback c self.
Definition set_args (kw : gmap string PyVal) self :=
  with_setup_kwargs kw self.

(** [terminate]: only prints; the text is appended to the console. *)
Definition terminate self (stdout : list string) : list string :=
  stdout ++ ["terminate() not implemented for " +:+ name self].
End Runner.

(** ** The body of [BaseJobRunner.run], statement by statement *)

(** Program points of [run]; the source lines are those of
    [parallel_proc_runner_base.py].  [pending] is the exception that will
    leave [run] once the [finally] block is over. *)
Inductive Pc :=
| PcEntry                                   (* 87: self.running = False *)
| PcGate                                    (* 89-90: gate test and wait *)
| PcSetRunning                              (* 92: self.running = True *)
| PcStartCallback                           (* 93-94 *)
| PcJob                                     (* 97: the call self.job() *)
| PcUnpack (r : Z) (out : string)           (* 97: self.result, self.output = *)
| PcMessage                                 (* 98 *)
| PcExcMessage (e : PyExc)                  (* 103 *)
| PcExcOutput (e : PyExc)                   (* 105 *)
| PcFinally (pending : option PyExc)        (* 108: self.running = False *)
| PcStopCallback (pending : option PyExc)   (* 109-110 *)
| PcSetStopEvent (pending : option PyExc)   (* 111: self.stop_event.set() *)
| PcDone (raised : option PyExc).           (* run has returned or raised *)

(** What a step of [run] does, as seen from outside. *)
Inductive Label :=
| LRunning (b : bool)
| LGatePassed (g : option nat)
| LOnStart (called : bool) (nm : string)
| LJob (o : JobOutcome)
| LAssignResult (r : Z) (out : string)
| LAssignMessage (m : string)
| LAssignOutput (out : string)
| LOnStop (called : bool) (nm m out : string) (v : View)
| LStopEventSet (e : nat).

Record Frame (E : Type) := {
  f_pc : Pc;
  f_self : BaseJobRunner E;
  f_events : gmap nat bool;
  f_env : E
}.
Arguments Build_Frame {E} _ _ _ _.
Arguments f_pc {E} _.
Arguments f_self {E} _.
Arguments f_events {E} _.
Arguments f_env {E} _.

Section RunBody.
Context {E : Type}.
Implicit Types (self : BaseJobRunner E) (h : gmap nat bool) (env : E).

(** Line 98. *)
Definition result_message_of (r : Z) : string :=
  if bool_decide (r = 0%Z) then "Success" else "FAIL (" +:+ str r +:+ ")".

(** Line 105: the text appended to [self.output]. *)
Definition exc_text (e : PyExc) : string :=
  String "010"%char "" +:+ exc_type_name e +:+ ": " +:+ exc_message e.

(** One statement of [run].  [None]: the thread cannot move (it waits on
    an unset event, its callback is blocked, or [run] is over). *)
Definition run_step (f : Frame E) : option (Label * Frame E) :=
  let self := f_self f in
  let h := f_events f in
  let env := f_env f in
  match f_pc f with
  | PcEntry =>
      Some (LRunning false, Build_Frame PcGate (with_running false self) h env)
  | PcGate =>
      match start_gating_event self with
      | None => Some (LGatePassed None, Build_Frame PcSetRunning self h env)
      | Some g =>
          if Event_is_set h g
          then Some (LGatePassed (Some g), Build_Frame PcSetRunning self h env)
          else None
      end
  | PcSetRunning =>
      Some (LRunning true,
            Build_Frame PcStartCallback (with_running true self) h env)
  | PcStartCallback =>
      match start_callback self with
      | None => Some (LOnStart false (name self), Build_Frame PcJob self h env)
      | Some cb =>
          match cb (name self) (view_of self h) env with
          | Returned env' =>
              Some (LOnStart true (name self), Build_Frame PcJob self h env')
          | Raised e env' =>
              Some (LOnStart true (name self),
                    Build_Frame (PcDone (Some e)) self h env')
          | Blocked => None
          end
      end
  | PcJob =>
      let o := job self (view_of self h) (setup_kwargs self) in
      match o with
      | JobReturn r out => Some (LJob o, Build_Frame (PcUnpack r out) self h env)
      | JobRaise e =>
          if exc_is_Exception e
          then Some (LJob o, Build_Frame (PcExcMessage e) self h env)
          else Some (LJob o, Build_Frame (PcFinally (Some e)) self h env)
      end
  | PcUnpack r out =>
      Some (LAssignResult r out,
            Build_Frame PcMessage (with_output out (with_result r self)) h env)
  | PcMessage =>
      let m := result_message_of (result self) in
      Some (LAssignMessage m,
            Build_Frame (PcFinally None) (with_result_message m self) h env)
  | PcExcMessage e =>
      Some (LAssignMessage "FAIL (Exception)",
            Build_Frame (PcExcOutput e)
              (with_result_message "FAIL (Exception)" self) h env)
  | PcExcOutput e =>
      let out := output self +:+ exc_text e in
      Some (LAssignOutput out,
            Build_Frame (PcFinally None) (with_output out self) h env)
  | PcFinally pending =>
      Some (LRunning false,
            Build_Frame (PcStopCallback pending) (with_running false self) h env)
  | PcStopCallback pending =>
      let v := view_of self h in
      match stop_callback self with
      | None =>
          Some (LOnStop false (name self) (result_message self) (output self) v,
                Build_Frame (PcSetStopEvent pending) self h env)
      | Some cb =>
          match cb (name self) (result_message self) (output self) v env with
          | Returned env' =>
              Some (LOnStop true (name self) (result_message self)
                      (output self) v,
                    Build_Frame (PcSetStopEvent pending) self h env')
          | Raised e env' =>
              Some (LOnStop true (name self) (result_message self)
                      (output self) v,
                    Build_Frame (PcDone (Some e)) self h env')
          | Blocked => None
          end
      end
  | PcSetStopEvent pending =>
      Some (LStopEventSet (stop_event self),
            Build_Frame (PcDone pending) self
              (Event_set h (stop_event self)) env)
  | PcDone _ => None
  end.

(** [run] called directly (as the repository's exception test does): the
    statements one after the other, nothing interleaved, for at most
    [fuel] statements; the labels are collected in order. *)
Fixpoint run_from (fuel : nat) (f : Frame E) : list Label * Frame E :=
  match fuel with
  | O => ([], f)
  | S fuel' =>
      match run_step f with
      | None => ([], f)
      | Some (l, f') =>
          let '(ls, f'') := run_from fuel' f' in (l :: ls, f'')
      end
  end.

(** No path through [run] has more than ten statements. *)
Definition run_fuel : nat := 10.

Definition run self h env : list Label * Frame E :=
  run_from run_fuel (Build_Frame PcEntry self h env).

(** A thread of [run] among other threads.  Between two of its statements
    the rest of the program may set or clear events and change the state
    the callbacks work on; it has no reference to the attributes of
    [self]. *)
Inductive Move :=
| Own                       (* the thread executes its next statement *)
| EnvSet (e : nat)          (* somebody calls [e.set()] *)
| EnvClear (e : nat)        (* somebody calls [e.clear()] *)
| EnvUpdate (env' : E).     (* the callbacks' state changes *)

Definition move (m : Move) (f : Frame E) : list Label * Frame E :=
  match m with
  | Own =>
      match run_step f with
      | Some (l, f') => ([l], f')
      | None => ([], f)
      end
  | EnvSet e =>
      ([], Build_Frame (f_pc f) (f_self f) (Event_set (f_events f) e) (f_env f))
  | EnvClear e =>
      ([], Build_Frame (f_pc f) (f_self f) (Event_clear (f_events f) e) (f_env f))
  | EnvUpdate env' =>
      ([], Build_Frame (f_pc f) (f_self f) (f_events f) env')
  end.

Fixpoint interleave (ms : list Move) (f : Frame E) : list Label * Frame E :=
  match ms with
  | [] => ([], f)
  | m :: ms' =>
      let '(l1, f1) := move m f in
      let '(l2, f2) := interleave ms' f1 in
      (l1 ++ l2, f2)
  end.

(** The other threads leave event [e] alone. *)
Definition leaves_event (e : nat) (m : Move) : Prop :=
  match m with
  | EnvSet e' | EnvClear e' => e' ≠ e
  | _ => True
  end.

(** Nobody signals event [e]. *)
Definition never_signals (e : nat) (m : Move) : Prop :=
  match m with
  | EnvSet e' => e' ≠ e
  | _ => True
  end.

(** [start]: lines 76-78. *)
Definition start_reset self : BaseJobRunner E :=
  with_result_message "" (with_output "" (with_result (-1)%Z self)).

(** [start]: lines 79-80. *)
Definition start_clear self h : gmap nat bool :=
  if Event_is_set h (stop_event self)
  then Event_clear h (stop_event self)
  else h.

(** The frame in which the thread made by [start] begins [run]. *)
Definition start_frame self h env : Frame E :=
  let self' := start_reset self in
  Build_Frame PcEntry self' (start_clear self' h) env.
End RunBody.
Arguments Move E : clear implicits.

(** ** Runner objects and their threads *)

(** A [threading.Thread(target=self.run)] that has been started: the runner
    it runs and where it is in [run]. *)
Record Thread := {
  t_runner : nat;
  t_pc : Pc
}.

(** The runner objects (a reference to a runner is its index), the event
    objects, every thread made by [start], and the callbacks' state. *)
Record World (E : Type) := {
  w_events : gmap nat bool;
  w_runners : list (BaseJobRunner E);
  w_threads : list Thread;
  w_env : E
}.
Arguments Build_World {E} _ _ _ _.
Arguments w_events {E} _.
Arguments w_runners {E} _.
Arguments w_threads {E} _.
Arguments w_env {E} _.

Section Threads.
Context {E : Type}.
Implicit Types (w : World E).

(** [start], lines 76-80: the attributes and the stop event. *)
Definition start_attrs (i : nat) w : World E :=
  match w_runners w !! i with
  | None => w
  | Some self =>
      let self' := start_reset self in
      Build_World (start_clear self' (w_events w))
        (<[i := self']> (w_runners w)) (w_threads w) (w_env w)
  end.

(** [start], lines 81-82: a new thread object, started at once. *)
Definition start_thread (i : nat) w : World E :=
  match w_runners w !! i with
  | None => w
  | Some self =>
      let t := length (w_threads w) in
      Build_World (w_events w)
        (<[i := with_thread (Some t) self]> (w_runners w))
        (w_threads w ++ [Build_Thread i PcEntry]) (w_env w)
  end.

(** [runners[i].start()]. *)
Definition start (i : nat) w : World E :=
  start_thread i (start_attrs i w).

(** Thread [t] executes one statement of [run]. *)
Definition tick (t : nat) w : option (Label * World E) :=
  th ← w_threads w !! t;
  self ← w_runners w !! t_runner th;
  '(l, f) ← run_step (Build_Frame (t_pc th) self (w_events w) (w_env w));
  Some (l, Build_World (f_events f)
             (<[t_runner th := f_self f]> (w_runners w))
             (<[t := Build_Thread (t_runner th) (f_pc f)]> (w_threads w))
             (f_env f)).
(** The attribute stores of a setter, on runner [i] of the world. *)
Definition update_runner (i : nat) (g : BaseJobRunner E → BaseJobRunner E) w
  : World E :=
  match w_runners w !! i with
  | None => w
  | Some self =>
      Build_World (w_events w) (<[i := g self]> (w_runners w)) (w_threads w)
        (w_env w)
  end.

(** What can be done with a runner: its public methods, and a statement of
    [run] by one of its threads. *)
Inductive Op :=
| OpSetStartGatingEvent (g : option nat)
| OpSetStartCallback (c : option (StartCallback E))
| OpSetStopCallback (c : option (StopCallback E))
| OpSetArgs (kw : gmap string PyVal)
| OpStart
| OpRunStep (t : nat)
| OpTerminate.

(** The operation [op] on runner [i]; the second component is what the
    operation itself prints. *)
Definition call (i : nat) (op : Op) w : World E * list string :=
  match op with
  | OpSetStartGatingEvent g => (update_runner i (set_start_gating_event g) w, [])
  | OpSetStartCallback c => (update_runner i (set_start_callback c) w, [])
  | OpSetStopCallback c => (update_runner i (set_stop_callback c) w, [])
  | OpSetArgs kw => (update_runner i (set_args kw) w, [])
  | OpStart => (start i w, [])
  | OpRunStep t =>
      match w_threads w !! t with
      | Some th =>
          if decide (t_runner th = i)
          then match tick t w with
               | Some (_, w') => (w', [])
               | None => (w, [])
               end
          else (w, [])
      | None => (w, [])
      end
  | OpTerminate =>
      match w_runners w !! i with
      | Some self => (w, terminate self [])
      | None => (w, [])
      end
  end.
End Threads.
Arguments Op E : clear implicits.

(** ** [Cli] *)

(** The attributes of a [Cli] object other than [runners] (the runner
    objects are those of the world), and the console: one entry per [print]
    call. *)
Record Cli := {
  result_info_list : list (string * string * string);
  start_callback_sema : nat;
  stop_callback_sema : nat;
  stdout : list string
}.

Definition print (line : string) (c : Cli) : Cli :=
  {| result_info_list := result_info_list c;
     start_callback_sema := start_callback_sema c;
     stop_callback_sema := stop_callback_sema c;
     stdout := stdout c ++ [line] |}.

Definition with_result_info_list (l : list (string * string * string))
    (c : Cli) : Cli :=
  {| result_info_list := l;
     start_callback_sema := start_callback_sema c;
     stop_callback_sema := stop_callback_sema c;
     stdout := stdout c |}.

Definition with_start_callback_sema (n : nat) (c : Cli) : Cli :=
  {| result_info_list := result_info_list c;
     start_callback_sema := n;
     stop_callback_sema := stop_callback_sema c;
     stdout := stdout c |}.

Definition with_stop_callback_sema (n : nat) (c : Cli) : Cli :=
  {| result_info_list := result_info_list c;
     start_callback_sema := start_callback_sema c;
     stop_callback_sema := n;
     stdout := stdout c |}.

(** [threading.BoundedSemaphore()], initial value 1: [acquire] needs a
    positive counter; [release] above the initial value is a [ValueError]. *)
Definition sema_acquire (n : nat) : option nat :=
  match n with
  | O => None
  | S n' => Some n'
  end.

Definition sema_release (n : nat) : PyExc + nat :=
  if decide (1 ≤ n)
  then inl {| exc_type_name := "ValueError";
              exc_message := "Semaphore released too many times";
              exc_is_Exception := true |}
  else inr (S n).

Definition call_when_runner_starts : StartCallback Cli :=
  λ nm _ c,
    match sema_acquire (start_callback_sema c) with
    | None => Blocked
    | Some n =>
        let c := with_start_callback_sema n c in
        let c := print (nm +:+ " starting...") c in
        match sema_release (start_callback_sema c) with
        | inl e => Raised e c
        | inr n' => Returned (with_start_callback_sema n' c)
        end
    end.

Definition call_when_runner_stops : StopCallback Cli :=
  λ nm rm out _ c,
    match sema_acquire (stop_callback_sema c) with
    | None => Blocked
    | Some n =>
        let c := with_stop_callback_sema n c in
        let c := print (nm +:+ " finished.") c in
        let c := with_result_info_list (result_info_list c ++ [(nm, rm, out)]) c in
        match sema_release (stop_callback_sema c) with
        | inl e => Raised e c
        | inr n' => Returned (with_stop_callback_sema n' c)
        end
    end.

Definition newline2 : string := String "010"%char (String "010"%char "").

Definition display_result_info (c : Cli) : Cli :=
  let max_len :=
    foldl (λ m '(nm, rm, out),
             foldl (λ m line, m `max` len line)
               ((m `max` len nm) `max` len rm)
               (split_lines out))
      0 (result_info_list c) in
  let max_len := max_len `min` 200 in
  let separator := foldl (λ s _, s +:+ "#") "" (seq 0 (max_len + 2)) in
  foldl (λ c '(nm, rm, out),
           let c := print newline2 c in
           let c := print separator c in
           let c := print ("# " +:+ nm) c in
           let c := print separator c in
           let c := print ("# Result: " +:+ rm) c in
           let c := print separator c in
           foldl (λ c line, print ("# " +:+ line) c) c (split_lines out))
    c (result_info_list c).

(** [get_exit_return_code]: [Some n] is [sys.exit(n)] raised inside the
    method, [None] is the method returning (the value [None]). *)
Definition get_exit_return_code (c : Cli) : Cli * option Z :=
  let failing_jobs :=
    foldl (λ acc '(nm, rm, out),
             if negb (str_contains "Success" rm) then acc ++ [nm] else acc)
      [] (result_info_list c) in
  let c := print newline2 c in
  let failures_detected := bool_decide (0 < length failing_jobs) in
  let c :=
    if failures_detected
    then
      let c := print "Failing jobs:" c in
      let c := foldl (λ c j, print ("     " +:+ j) c) c failing_jobs in
      print (String "010"%char "" +:+ " " +:+ str (Z.of_nat (length failing_jobs))
               +:+ " job(s) failed.") c
    else print "All tests passed" c in
  if failures_detected then (c, Some 1%Z) else (c, None).

(** The exit status of the process for [sys.exit(code)]. *)
Definition exit_status (code : option Z) : Z :=
  match code with
  | None => 0%Z
  | Some n => n
  end.

(** Lines 206-207 of [Cli.run]: the report, then
    [sys.exit(self.get_exit_return_code())]. *)
Definition report_and_exit (c : Cli) : Cli * Z :=
  let c := display_result_info c in
  match get_exit_return_code c with
  | (c, Some n) => (c, exit_status (Some n))
  | (c, None) => (c, exit_status None)
  end.

(** Where the main thread is in [Cli.run]. *)
Inductive MainPc :=
| MStart (k : nat)      (* 199-201: first loop, about to start runner [k] *)
| MWait (k : nat)       (* 203-204: second loop, about to wait for runner [k] *)
| MReport               (* 206-207 *)
| MExit (status : Z).   (* the process exit status is decided *)

Record Proc := {
  p_world : World Cli;
  p_main : MainPc
}.

Definition with_env {E : Type} (env : E) (w : World E) : World E :=
  Build_World (w_events w) (w_runners w) (w_threads w) env.

(** [Cli.__init__] on runners already made, followed by the call of
    [Cli.run]. *)
Definition Cli_init (rs : list (BaseJobRunner Cli)) (h : gmap nat bool) : Proc :=
  {| p_world :=
       Build_World h
         ((λ r, set_stop_callback (Some call_when_runner_stops)
                  (set_start_callback (Some call_when_runner_starts) r)) <$> rs)
         []
         {| result_info_list := []; start_callback_sema := 1;
            stop_callback_sema := 1; stdout := [] |};
     p_main := MStart 0 |}.

(** One step of the main thread in [Cli.run]; [None] while it waits. *)
Definition main_step (p : Proc) : option Proc :=
  let w := p_world p in
  match p_main p with
  | MStart k =>
      match w_runners w !! k with
      | Some r =>
          let w := with_env (print (name r +:+ " is waiting to start...") (w_env w)) w in
          Some {| p_world := start k w; p_main := MStart (S k) |}
      | None => Some {| p_world := w; p_main := MWait 0 |}
      end
  | MWait k =>
      match w_runners w !! k with
      | Some r =>
          if Event_is_set (w_events w) (stop_event r)
          then Some {| p_world := w; p_main := MWait (S k) |}
          else None
      | None => Some {| p_world := w; p_main := MReport |}
      end
  | MReport =>
      let '(c, status) := report_and_exit (w_env w) in
      Some {| p_world := with_env c w; p_main := MExit status |}
  | MExit _ => None
  end.

(** The threads of the process, and a schedule: who moves next.  A thread
    that cannot move leaves the state as it is. *)
Inductive Tid :=
| Main
| Worker (t : nat).

Definition proc_step (tid : Tid) (p : Proc) : Proc :=
  match tid with
  | Main => default p (main_step p)
  | Worker t =>
      match tick t (p_world p) with
      | Some (_, w) => {| p_world := w; p_main := p_main p |}
      | None => p
      end
  end.

Definition proc_exec (sch : list Tid) (p : Proc) : Proc :=
  foldl (λ p tid, proc_step tid p) p sch.

(** Runner objects made one after the other by [__init__], for the given
    names and [job] methods. *)
Fixpoint make_runners (specs : list (string * (View → gmap string PyVal → JobOutcome)))
    (h : gmap nat bool) : list (BaseJobRunner Cli) * gmap nat bool :=
  match specs with
  | [] => ([], h)
  | (nm, j) :: specs' =>
      let '(r, h1) := BaseJobRunner_init j nm h in
      let '(rs, h2) := make_runners specs' h1 in
      (r :: rs, h2)
  end.

(** [Cli(runners).run()] for runners freshly made. *)
Definition Cli_main (specs : list (string * (View → gmap string PyVal → JobOutcome)))
    : Proc :=
  let '(rs, h) := make_runners specs ∅ in Cli_init rs h.

(** ** What a run has done when it is at a given statement *)

Section History.
Context {E : Type}.
Variable self0 : BaseJobRunner E.

(** The labels of lines 87-94, with [c] telling whether a start callback
    was there to call. *)
Definition prelude (c : bool) : list Label :=
  [LRunning false; LGatePassed (start_gating_event self0); LRunning true;
   LOnStart c (name self0)].

Definition has_start_callback : bool :=
  bool_decide (is_Some (start_callback self0)).
Definition has_stop_callback : bool :=
  bool_decide (is_Some (stop_callback self0)).

(** [o] is what [self.job()] gave, called while [running] was true. *)
Definition job_gave (o : JobOutcome) : Prop :=
  ∃ h, job self0 (view_of (with_running true self0) h) (setup_kwargs self0) = o.

(** The three ways through the [try] statement: its labels, the runner
    attributes it leaves, and the exception still to be raised. *)
Inductive body_done : list Label → BaseJobRunner E → option PyExc → Prop :=
| body_returned r out :
    job_gave (JobReturn r out) →
    body_done
      [LJob (JobReturn r out); LAssignResult r out;
       LAssignMessage (result_message_of r)]
      (with_result_message (result_message_of r)
         (with_output out (with_result r (with_running true self0))))
      None
| body_caught e :
    job_gave (JobRaise e) →
    exc_is_Exception e = true →
    body_done
      [LJob (JobRaise e); LAssignMessage "FAIL (Exception)";
       LAssignOutput (output self0 +:+ exc_text e)]
      (with_output (output self0 +:+ exc_text e)
         (with_result_message "FAIL (Exception)" (with_running true self0)))
      None
| body_uncaught e :
    job_gave (JobRaise e) →
    exc_is_Exception e = false →
    body_done [LJob (JobRaise e)] (with_running true self0) (Some e).

(** The view handed to the stop callback after a body that left [s]. *)
Definition stop_view (s : BaseJobRunner E) (v : View) : Prop :=
  ∃ h, v = view_of (with_running false s) h.

(** The start callback, called at line 94, raised [e]. *)
Definition start_raises (e : PyExc) : Prop :=
  ∃ cb v env env',
    start_callback self0 = Some cb ∧ cb (name self0) v env = Raised e env'.

(** The stop callback, called at line 110 after a body that left [s],
    raised [e]. *)
Definition stop_raises (s : BaseJobRunner E) (v : View) (e : PyExc) : Prop :=
  ∃ cb env env',
    stop_callback self0 = Some cb ∧
    cb (name self0) (result_message s) (output s) v env = Raised e env'.

(** [history tr pc s]: a run of [self0] that stands at [pc] has produced
    exactly the labels [tr] and the attributes [s]. *)
Inductive history : list Label → Pc → BaseJobRunner E → Prop :=
| h_entry : history [] PcEntry self0
| h_gate : history [LRunning false] PcGate (with_running false self0)
| h_set_running :
    history [LRunning false; LGatePassed (start_gating_event self0)]
      PcSetRunning (with_running false self0)
| h_start_callback :
    history
      [LRunning false; LGatePassed (start_gating_event self0); LRunning true]
      PcStartCallback (with_running true self0)
| h_start_raised e :
    start_raises e →
    history (prelude true) (PcDone (Some e)) (with_running true self0)
| h_job :
    history (prelude has_start_callback) PcJob (with_running true self0)
| h_unpack r out :
    job_gave (JobReturn r out) →
    history (prelude has_start_callback ++ [LJob (JobReturn r out)])
      (PcUnpack r out) (with_running true self0)
| h_message r out :
    job_gave (JobReturn r out) →
    history
      (prelude has_start_callback ++
         [LJob (JobReturn r out); LAssignResult r out])
      PcMessage (with_output out (with_result r (with_running true self0)))
| h_exc_message e :
    job_gave (JobRaise e) →
    exc_is_Exception e = true →
    history (prelude has_start_callback ++ [LJob (JobRaise e)])
      (PcExcMessage e) (with_running true self0)
| h_exc_output e :
    job_gave (JobRaise e) →
    exc_is_Exception e = true →
    history
      (prelude has_start_callback ++
         [LJob (JobRaise e); LAssignMessage "FAIL (Exception)"])
      (PcExcOutput e)
      (with_result_message "FAIL (Exception)" (with_running true self0))
| h_finally b s p :
    body_done b s p →
    history (prelude has_start_callback ++ b) (PcFinally p) s
| h_stop_callback b s p :
    body_done b s p →
    history (prelude has_start_callback ++ b ++ [LRunning false])
      (PcStopCallback p) (with_running false s)
| h_stop_raised b s p v e :
    body_done b s p →
    stop_view s v →
    stop_raises s v e →
    history
      (prelude has_start_callback ++ b ++
         [LRunning false;
          LOnStop true (name self0) (result_message s) (output s) v])
      (PcDone (Some e)) (with_running false s)
| h_set_stop_event b s p v :
    body_done b s p →
    stop_view s v →
    history
      (prelude has_start_callback ++ b ++
         [LRunning false;
          LOnStop has_stop_callback (name self0) (result_message s)
            (output s) v])
      (PcSetStopEvent p) (with_running false s)
| h_done b s p v :
    body_done b s p →
    stop_view s v →
    history
      (prelude has_start_callback ++ b ++
         [LRunning false;
          LOnStop has_stop_callback (name self0) (result_message s)
            (output s) v;
          LStopEventSet (stop_event self0)])
      (PcDone p) (with_running false s).
(** The state of the runner's stop event along a run in which the other
    threads leave that event alone, when it was unset at line 87. *)
Definition stop_event_inv (ev : nat) (tr : list Label) (f : Frame E) : Prop :=
  stop_event (f_self f) = ev ∧
  (∀ c n m o v, LOnStop c n m o v ∈ tr → view_stop_event_is_set v = false) ∧
  (((LStopEventSet ev ∈ tr) ∧ Event_is_set (f_events f) ev = true ∧
    ∃ p, f_pc f = PcDone p) ∨
   ((LStopEventSet ev ∉ tr) ∧ Event_is_set (f_events f) ev = false)).

End History.

(** ** Jobs used as examples *)

(** A [job] method that returns [(r, out)]. *)
Definition job_returning (r : Z) (out : string) : View → gmap string PyVal → JobOutcome :=
  λ _ _, JobReturn r out.

(** A [job] method that raises [e]. *)
Definition job_raising (e : PyExc) : View → gmap string PyVal → JobOutcome :=
  λ _ _, JobRaise e.

Definition TypeError (msg : string) : PyExc :=
  {| exc_type_name := "TypeError"; exc_message := msg;
     exc_is_Exception := true |}.

(** The start callback of [self], when there is one, returns. *)
Definition start_callback_returns {E : Type} (self : BaseJobRunner E) : Prop :=
  ∀ cb nm v env,
    start_callback self = Some cb → ∃ env', cb nm v env = Returned env'.

(** The stop callback of [self], when there is one, returns. *)
Definition stop_callback_returns {E : Type} (self : BaseJobRunner E) : Prop :=
  ∀ cb nm m o v env,
    stop_callback self = Some cb → ∃ env', cb nm m o v env = Returned env'.

Definition newline : string := String "010"%char "".

(** ** Counting what a run did *)

Definition is_on_start (l : Label) : bool :=
  match l with LOnStart _ _ => true | _ => false end.
Definition is_job (l : Label) : bool :=
  match l with LJob _ => true | _ => false end.
Definition is_on_stop (l : Label) : bool :=
  match l with LOnStop _ _ _ _ _ => true | _ => false end.
Definition is_stop_event_set (l : Label) : bool :=
  match l with LStopEventSet _ => true | _ => false end.

Definition count_labels (p : Label → bool) (tr : list Label) : nat :=
  length (List.filter p tr).

(** [needle] occurs in [hay]. *)
Definition is_substring (needle hay : string) : Prop :=
  ∃ pre post, hay = pre +:+ needle +:+ post.

(** A record of the result list whose outcome text lacks ["Success"]. *)
Definition is_failure (rec : string * string * string) : Prop :=
  ¬ is_substring "Success" rec.1.2.

(** ** Invariant of [Cli.run] for runners whose jobs return *)

(** What is fixed about a runner driven by [Cli]: its name, the result code
    and output its [job] returns, and its stop event. *)
Record RunnerSpec := {
  sp_name : string;
  sp_code : Z;
  sp_output : string;
  sp_event : nat
}.

(** The record the stop callback appends for such a runner. *)
Definition expected_record (s : RunnerSpec) : string * string * string :=
  (sp_name s, result_message_of (sp_code s), sp_output s).

(** The attributes that no statement of [start] or [run] assigns, for a
    runner without gate, registered with [Cli]. *)
Definition static_ok (s : RunnerSpec) (r : BaseJobRunner Cli) : Prop :=
  name r = sp_name s ∧ stop_event r = sp_event s ∧
  start_gating_event r = None ∧
  start_callback r = Some call_when_runner_starts ∧
  stop_callback r = Some call_when_runner_stops ∧
  ∀ v kw, job r v kw = JobReturn (sp_code s) (sp_output s).

(** The stop callback of the thread has returned. *)
Definition reported (pc : Pc) : bool :=
  match pc with
  | PcSetStopEvent _ | PcDone _ => true
  | _ => false
  end.

(** What holds of a runner and of its stop event while its thread is at
    [pc]. *)
Definition thread_ok (s : RunnerSpec) (pc : Pc) (r : BaseJobRunner Cli)
    (is_set : bool) : Prop :=
  match pc with
  | PcEntry | PcGate | PcSetRunning | PcStartCallback | PcJob => is_set = false
  | PcUnpack c out => c = sp_code s ∧ out = sp_output s ∧ is_set = false
  | PcMessage => result r = sp_code s ∧ output r = sp_output s ∧ is_set = false
  | PcExcMessage _ | PcExcOutput _ => False
  | PcFinally p | PcStopCallback p | PcSetStopEvent p =>
      p = None ∧ result_message r = result_message_of (sp_code s) ∧
      output r = sp_output s ∧ is_set = false
  | PcDone p => p = None ∧ is_set = true
  end.

(** The records of the threads whose stop callback has returned, in the
    order of the runners. *)
Fixpoint reported_records (sp : list RunnerSpec) (ts : list Thread)
    : list (string * string * string) :=
  match sp, ts with
  | s :: sp', th :: ts' =>
      (if reported (t_pc th) then [expected_record s] else [])
      ++ reported_records sp' ts'
  | _, _ => []
  end.

Definition world_ok (sp : list RunnerSpec) (w : World Cli) : Prop :=
  Forall2 static_ok sp (w_runners w) ∧
  length (w_threads w) ≤ length sp ∧
  (∀ t th, w_threads w !! t = Some th →
     t_runner th = t ∧
     ∃ s r, sp !! t = Some s ∧ w_runners w !! t = Some r ∧
            thread_ok s (t_pc th) r (Event_is_set (w_events w) (sp_event s))) ∧
  result_info_list (w_env w) ≡ₚ reported_records sp (w_threads w) ∧
  start_callback_sema (w_env w) = 1 ∧ stop_callback_sema (w_env w) = 1.

Definition all_set (sp : list RunnerSpec) (h : gmap nat bool) : Prop :=
  ∀ s, s ∈ sp → Event_is_set h (sp_event s) = true.

Definition main_ok (sp : list RunnerSpec) (p : Proc) : Prop :=
  let w := p_world p in
  match p_main p with
  | MStart k => length (w_threads w) = k
  | MWait k =>
      length (w_threads w) = length sp ∧
      ∀ j s, j < k → sp !! j = Some s →
             Event_is_set (w_events w) (sp_event s) = true
  | MReport => length (w_threads w) = length sp ∧ all_set sp (w_events w)
  | MExit status =>
      length (w_threads w) = length sp ∧ all_set sp (w_events w) ∧
      (status = 1%Z ↔ Exists is_failure (expected_record <$> sp)) ∧
      (status = 0%Z ↔ Forall (λ rec, ¬ is_failure rec) (expected_record <$> sp))
  end.

Definition proc_ok (sp : list RunnerSpec) (p : Proc) : Prop :=
  NoDup (sp_event <$> sp) ∧ world_ok sp (p_world p) ∧ main_ok sp p.

(** The job of the runner described by [spec] always returns [ret]. *)
Definition job_returns (spec : string * (View → gmap string PyVal → JobOutcome))
    (ret : Z * string) : Prop :=
  ∀ v kw, spec.2 v kw = JobReturn ret.1 ret.2.

(** The records [Cli] is to collect for runners with the given names whose
    jobs return the given codes and outputs, in construction order. *)
Definition records_of
    (specs : list (string * (View → gmap string PyVal → JobOutcome)))
    (rets : list (Z * string)) : list (string * string * string) :=
  zip_with (λ spec ret, (spec.1, result_message_of ret.1, ret.2)) specs rets.

(** [Cli.__init__] registers its two methods with a runner. *)
Definition register_callbacks (r : BaseJobRunner Cli) : BaseJobRunner Cli :=
  set_stop_callback (Some call_when_runner_stops)
    (set_start_callback (Some call_when_runner_starts) r).

(** ** Three runners returning 0, 1 and 0 *)

Definition three_runners : list (string * (View → gmap string PyVal → JobOutcome)) :=
  [("a", job_returning 0 "out a"); ("b", job_returning 1 "out b");
   ("c", job_returning 0 "out c")].

(** The main thread starts the three runners; each thread then runs to its
    end, the first runner first; the main thread waits, reports, exits. *)
Definition schedule_in_order : list Tid :=
  replicate 4 Main ++ replicate 10 (Worker 0) ++ replicate 10 (Worker 1)
  ++ replicate 10 (Worker 2) ++ replicate 5 Main.

(** The same, but the thread of the second runner runs to its end before
    the thread of the first runner moves. *)
Definition schedule_second_first : list Tid :=
  replicate 4 Main ++ replicate 10 (Worker 1) ++ replicate 10 (Worker 0)
  ++ replicate 10 (Worker 2) ++ replicate 5 Main.

(** The run does not have to wait at line 90. *)
Definition gate_open {E : Type} (self : BaseJobRunner E) (h : gmap nat bool)
    : Prop :=
  match start_gating_event self with
  | None => True
  | Some g => Event_is_set h g = true
  end.

(** What thread [t] of the world works on: its program point, its runner,
    and the events and callback state it shares with the other threads. *)
Definition frame_of {E : Type} (w : World E) (t : nat) : option (Frame E) :=
  th ← w_threads w !! t;
  r ← w_runners w !! t_runner th;
  Some (Build_Frame (t_pc th) r (w_events w) (w_env w)).

(** Character [c] occurs in [s]. *)
Fixpoint has_char (c : ascii) (s : string) : bool :=
  match s with
  | EmptyString => false
  | String a s' => Ascii.eqb a c || has_char c s'
  end.

(** ** Progress of [Cli.run] *)

(** Thread [tid] can move in [p]. *)
Definition enabled (tid : Tid) (p : Proc) : Prop :=
  match tid with
  | Main => is_Some (main_step p)
  | Worker t => is_Some (tick t (p_world p))
  end.

(** Every thread the schedule names can move when its turn comes. *)
Fixpoint all_enabled (sch : list Tid) (p : Proc) : Prop :=
  match sch with
  | [] => True
  | tid :: sch' => enabled tid p ∧ all_enabled sch' (proc_step tid p)
  end.

(** An upper bound on the statements of [run] a thread at [pc] still has
    to execute. *)
Definition thread_remaining (pc : Pc) : nat :=
  match pc with
  | PcEntry => 10
  | PcGate => 9
  | PcSetRunning => 8
  | PcStartCallback => 7
  | PcJob => 6
  | PcUnpack _ _ => 5
  | PcMessage => 4
  | PcExcMessage _ => 5
  | PcExcOutput _ => 4
  | PcFinally _ => 3
  | PcStopCallback _ => 2
  | PcSetStopEvent _ => 1
  | PcDone _ => 0
  end.

(** The steps the main thread still has to make in [Cli.run] for [n]
    runners. *)
Definition main_remaining (n : nat) (m : MainPc) : nat :=
  match m with
  | MStart k => (n - k) + (n + 3)
  | MWait k => (n - k) + 2
  | MReport => 1
  | MExit _ => 0
  end.

(** A bound on the steps all the threads of [Cli.run] can still make:
    those of the main thread, those of the threads there are, and ten for
    each thread still to be started. *)
Definition remaining (p : Proc) : nat :=
  let n := length (w_runners (p_world p)) in
  main_remaining n (p_main p)
  + sum_list (thread_remaining ∘ t_pc <$> w_threads (p_world p))
  + 10 * (n - length (w_threads (p_world p))).

(** ** Programs over the runners of a world *)

(** What a program does with its runners: one of the threads executes a
    statement of [run], or [start()] is called on a runner. *)
Inductive WorldOp :=
| WTick (t : nat)
| WStart (j : nat).

(** One operation; a statement a thread executes is recorded with the
    thread's number. *)
Definition world_step {E : Type} (op : WorldOp) (w : World E)
    : list (nat * Label) * World E :=
  match op with
  | WTick t =>
      match tick t w with
      | Some (l, w') => ([(t, l)], w')
      | None => ([], w)
      end
  | WStart j => ([], start j w)
  end.

Fixpoint world_exec {E : Type} (ops : list WorldOp) (w : World E)
    : list (nat * Label) * World E :=
  match ops with
  | [] => ([], w)
  | op :: ops' =>
      let '(l1, w1) := world_step op w in
      let '(l2, w2) := world_exec ops' w1 in
      (l1 ++ l2, w2)
  end.

(** What thread [t] did in a trace of the world. *)
Definition labels_of (t : nat) (tr : list (nat * Label)) : list Label :=
  (filter (λ x, x.1 = t) tr).*2.

(** Thread [t] is the only thread of its runner, and no other runner
    shares the stop event of that runner. *)
Definition sole_thread {E : Type} (t : nat) (w : World E) : Prop :=
  ∃ th r,
    w_threads w !! t = Some th ∧ w_runners w !! t_runner th = Some r ∧
    (∀ t' th', t' ≠ t → w_threads w !! t' = Some th' →
               t_runner th' ≠ t_runner th) ∧
    (∀ j r', j ≠ t_runner th → w_runners w !! j = Some r' →
             stop_event r' ≠ stop_event r).

(** ** The report of [Cli] *)

(** [max_len] at line 160: the longest of the names, outcome texts and
    output lines of the records. *)
Definition longest (l : list (string * string * string)) : nat :=
  max_list
    (flat_map (λ '(nm, rm, out),
                 len nm :: len rm ::
                 (len <$> split_lines out)) l).

(** A string of [n] characters [#]. *)
Fixpoint hashes (n : nat) : string :=
  match n with
  | O => ""
  | S n' => String "#"%char (hashes n')
  end.

(** The lines of the report for one record, with separator [sep]. *)
Definition report_block (sep : string) (rec : string * string * string)
    : list string :=
  let '(nm, rm, out) := rec in
  [newline2; sep; "# " +:+ nm; sep; "# Result: " +:+ rm; sep]
  ++ ((λ line, "# " +:+ line) <$> split_lines out).

(** The number of characters [c] in [s]. *)
Fixpoint count_char (c : ascii) (s : string) : nat :=
  match s with
  | EmptyString => 0
  | String a s' => (if Ascii.eqb a c then 1 else 0) + count_char c s'
  end.

(** The names of the records whose outcome text has no ["Success"] in it,
    in the order of the list. *)
Definition failing_names (l : list (string * string * string)) : list string :=
  (λ rec, rec.1.1) <$> filter (λ rec, str_contains "Success" rec.1.2 = false) l.

(** ** [DummyRunner] *)

(** [KeyError(key)] raised by a subscript; [str] of it is the [repr] of
    the key. *)
Definition KeyError (key : string) : PyExc :=
  {| exc_type_name := "KeyError";
     exc_message := "'" +:+ key +:+ "'";
     exc_is_Exception := true |}.

Definition type_name (v : PyVal) : string :=
  match v with
  | PyNone => "NoneType"
  | PyInt _ => "int"
  | PyStr _ => "str"
  | PyEvent _ => "Event"
  end.

(** [AttributeError] raised by [v.attr] when [v] has no such attribute. *)
Definition AttributeError (v : PyVal) (attr : string) : PyExc :=
  {| exc_type_name := "AttributeError";
     exc_message :=
       "'" +:+ type_name v +:+ "' object has no attribute '" +:+ attr +:+ "'";
     exc_is_Exception := true |}.

(** A [DummyRunner] object: the attributes of [BaseJobRunner] and the three
    its own [__init__] adds.  The [job] method of the class is the body at
    lines 710-717, executed statement by statement below; the [job] field
    of [base] is not consulted. *)
Record DummyRunner (E : Type) := {
  base : BaseJobRunner E;
  job_ran : bool;
  terminated : bool;
  job_result : Z
}.
Arguments Build_DummyRunner {E} _ _ _ _.
Arguments base {E} _.
Arguments job_ran {E} _.
Arguments terminated {E} _.
Arguments job_result {E} _.

(** Program points of [run] on a [DummyRunner]: those of
    [BaseJobRunner.run], and inside the call at line 97 those of
    [DummyRunner.job]. *)
Inductive DPc :=
| DRun (pc : Pc)
| DJobEntry               (* 710: self.terminated = False *)
| DJobResetRan            (* 711: self.job_ran = False *)
| DJobWait                (* 712: self.setup_kwargs['job_mocking_event'].wait() *)
| DJobSetRan              (* 713: self.job_ran = True *)
| DJobCheck               (* 714: if self.terminated *)
| DJobClear               (* 715: self.terminated = False *)
| DJobReturnTerminated    (* 716: return 255, ... *)
| DJobReturn.             (* 717: return self.job_result, ... *)

Record DFrame (E : Type) := {
  d_pc : DPc;
  d_self : DummyRunner E;
  d_events : gmap nat bool;
  d_env : E
}.
Arguments Build_DFrame {E} _ _ _ _.
Arguments d_pc {E} _.
Arguments d_self {E} _.
Arguments d_events {E} _.
Arguments d_env {E} _.

Section Dummy.
Context {E : Type}.
Implicit Types (d : DummyRunner E) (h : gmap nat bool) (env : E).

Definition with_base (b : BaseJobRunner E) d : DummyRunner E :=
  {| base := b; job_ran := job_ran d; terminated := terminated d;
     job_result := job_result d |}.

Definition with_job_ran (b : bool) d : DummyRunner E :=
  {| base := base d; job_ran := b; terminated := terminated d;
     job_result := job_result d |}.

Definition with_terminated (b : bool) d : DummyRunner E :=
  {| base := base d; job_ran := job_ran d; terminated := b;
     job_result := job_result d |}.

Definition with_job_result (r : Z) d : DummyRunner E :=
  {| base := base d; job_ran := job_ran d; terminated := terminated d;
     job_result := r |}.

(** [DummyRunner.__init__]. *)
Definition DummyRunner_init (nm : string) h : DummyRunner E * gmap nat bool :=
  let '(b, h') := BaseJobRunner_init BaseJobRunner_job nm h in
  ({| base := b; job_ran := false; terminated := false;
      job_result := (-1)%Z |}, h').

Definition set_result (r : Z) d : DummyRunner E := with_job_result r d.

(** Where line 97 goes on when the call of [job()] ends. *)
Definition after_job (o : JobOutcome) : Pc :=
  match o with
  | JobReturn r out => PcUnpack r out
  | JobRaise e =>
      if exc_is_Exception e then PcExcMessage e else PcFinally (Some e)
  end.

(** The call of [job()] ends with [o]. *)
Definition job_ends (o : JobOutcome) d h env
    : option (list Label * DFrame E) :=
  Some ([LJob o], Build_DFrame (DRun (after_job o)) d h env).

(** One statement of [run] on a [DummyRunner]. *)
Definition DummyRunner_run_step (f : DFrame E)
    : option (list Label * DFrame E) :=
  let d := d_self f in
  let h := d_events f in
  let env := d_env f in
  match d_pc f with
  | DRun PcJob => Some ([], Build_DFrame DJobEntry d h env)
  | DRun pc =>
      match run_step (Build_Frame pc (base d) h env) with
      | Some (l, f') =>
          Some ([l], Build_DFrame (DRun (f_pc f')) (with_base (f_self f') d)
                       (f_events f') (f_env f'))
      | None => None
      end
  | DJobEntry =>
      Some ([], Build_DFrame DJobResetRan (with_terminated false d) h env)
  | DJobResetRan =>
      Some ([], Build_DFrame DJobWait (with_job_ran false d) h env)
  | DJobWait =>
      match setup_kwargs (base d) !! "job_mocking_event" with
      | None => job_ends (JobRaise (KeyError "job_mocking_event")) d h env
      | Some (PyEvent e) =>
          if Event_is_set h e
          then Some ([], Build_DFrame DJobSetRan d h env)
          else None
      | Some v => job_ends (JobRaise (AttributeError v "wait")) d h env
      end
  | DJobSetRan =>
      Some ([], Build_DFrame DJobCheck (with_job_ran true d) h env)
  | DJobCheck =>
      if terminated d
      then Some ([], Build_DFrame DJobClear d h env)
      else Some ([], Build_DFrame DJobReturn d h env)
  | DJobClear =>
      Some ([], Build_DFrame DJobReturnTerminated (with_terminated false d) h env)
  | DJobReturnTerminated =>
      job_ends (JobReturn 255 "Job was terminated by user") d h env
  | DJobReturn =>
      job_ends (JobReturn (job_result d) ("Output from " +:+ name (base d)))
        d h env
  end.

(** [DummyRunner.terminate], line 723; [None] when the statement raises. *)
Definition terminate_set d h : option (gmap nat bool) :=
  match setup_kwargs (base d) !! "job_mocking_event" with
  | Some (PyEvent e) => Some (Event_set h e)
  | _ => None
  end.

(** [DummyRunner.terminate], line 724. *)
Definition terminate_flag d : DummyRunner E := with_terminated true d.

(** The thread of [run] among the callers of the other methods of the
    object and the rest of the program.  [terminate()] is two statements of
    its caller; the thread of [run] may move between them. *)
Inductive DMove :=
| DOwn                      (* the thread executes its next statement *)
| DTerminateSet             (* line 723 of a call of [terminate()] *)
| DTerminateFlag            (* line 724 of a call of [terminate()] *)
| DSetResult (r : Z)        (* [set_result(r)] *)
| DEnvSet (e : nat)         (* somebody calls [e.set()] *)
| DEnvClear (e : nat)       (* somebody calls [e.clear()] *)
| DEnvUpdate (env' : E).    (* the callbacks' state changes *)

Definition dummy_move (m : DMove) (f : DFrame E) : list Label * DFrame E :=
  match m with
  | DOwn =>
      match DummyRunner_run_step f with
      | Some (l, f') => (l, f')
      | None => ([], f)
      end
  | DTerminateSet =>
      match terminate_set (d_self f) (d_events f) with
      | Some h' => ([], Build_DFrame (d_pc f) (d_self f) h' (d_env f))
      | None => ([], f)
      end
  | DTerminateFlag =>
      ([], Build_DFrame (d_pc f) (terminate_flag (d_self f)) (d_events f) (d_env f))
  | DSetResult r =>
      ([], Build_DFrame (d_pc f) (set_result r (d_self f)) (d_events f) (d_env f))
  | DEnvSet e =>
      ([], Build_DFrame (d_pc f) (d_self f) (Event_set (d_events f) e) (d_env f))
  | DEnvClear e =>
      ([], Build_DFrame (d_pc f) (d_self f) (Event_clear (d_events f) e) (d_env f))
  | DEnvUpdate env' =>
      ([], Build_DFrame (d_pc f) (d_self f) (d_events f) env')
  end.

Fixpoint dummy_interleave (ms : list DMove) (f : DFrame E)
    : list Label * DFrame E :=
  match ms with
  | [] => ([], f)
  | m :: ms' =>
      let '(l1, f1) := dummy_move m f in
      let '(l2, f2) := dummy_interleave ms' f1 in
      (l1 ++ l2, f2)
  end.

(** The thread has not yet executed line 710 of this call of [job()]. *)
Definition before_job (pc : DPc) : Prop :=
  match pc with
  | DRun (PcEntry | PcGate | PcSetRunning | PcStartCallback | PcJob)
  | DJobEntry => True
  | _ => False
  end.

(** The thread is in [job()], after line 710 and before the test of line
    714 has been made. *)
Definition in_job_before_check (pc : DPc) : Prop :=
  match pc with
  | DJobResetRan | DJobWait | DJobSetRan | DJobCheck => True
  | _ => False
  end.
End Dummy.
Arguments DMove E : clear implicits.

(** *** What holds along a run of a [DummyRunner] *)

Section DummyInvariants.
Context {E : Type}.
Implicit Types (f : DFrame E).

(** A call of [job()] during which line 724 of [terminate()] is not
    executed: [okr] holds of the values [job_result] has had. *)
Definition unterminated_inv (nm : string) (e : nat) (okr : Z → Prop) f : Prop :=
  let d := d_self f in
  let b := base d in
  name b = nm ∧
  setup_kwargs b !! "job_mocking_event" = Some (PyEvent e) ∧
  okr (job_result d) ∧
  match d_pc f with
  | DRun (PcEntry | PcGate | PcSetRunning | PcStartCallback | PcJob)
  | DJobEntry => True
  | DJobResetRan | DJobWait | DJobSetRan => terminated d = false
  | DJobCheck | DJobReturn => terminated d = false ∧ job_ran d = true
  | DJobClear | DJobReturnTerminated => False
  | DRun (PcUnpack r out) =>
      okr r ∧ out = "Output from " +:+ nm ∧ job_ran d = true
  | DRun PcMessage =>
      okr (result b) ∧ output b = "Output from " +:+ nm ∧ job_ran d = true
  | DRun (PcExcMessage _ | PcExcOutput _) => False
  | DRun (PcFinally None | PcStopCallback None | PcSetStopEvent None
          | PcDone None) =>
      okr (result b) ∧ output b = "Output from " +:+ nm ∧
      result_message b = result_message_of (result b) ∧ job_ran d = true
  | DRun (PcFinally (Some _) | PcStopCallback (Some _)
          | PcSetStopEvent (Some _)) => False
  | DRun (PcDone (Some _)) => True
  end.

(** A call of [job()] in which [terminated] is set when line 714 tests
    it. *)
Definition terminated_inv (e : nat) f : Prop :=
  let d := d_self f in
  let b := base d in
  setup_kwargs b !! "job_mocking_event" = Some (PyEvent e) ∧
  match d_pc f with
  | DJobResetRan | DJobWait | DJobSetRan | DJobCheck => terminated d = true
  | DJobClear | DJobReturnTerminated => True
  | DRun (PcUnpack r out) =>
      r = 255%Z ∧ out = "Job was terminated by user"
  | DRun PcMessage =>
      result b = 255%Z ∧ output b = "Job was terminated by user"
  | DRun (PcFinally None | PcStopCallback None | PcSetStopEvent None
          | PcDone None) =>
      result b = 255%Z ∧ output b = "Job was terminated by user" ∧
      result_message b = "FAIL (255)"
  | DRun (PcDone (Some _)) => True
  | _ => False
  end.

(** A run of an object whose [setup_kwargs] has no ['job_mocking_event'],
    begun with result [r0] and output [o0]. *)
Definition missing_event_inv (r0 : Z) (o0 : string) f : Prop :=
  let d := d_self f in
  let b := base d in
  setup_kwargs b !! "job_mocking_event" = None ∧
  match d_pc f with
  | DRun (PcEntry | PcGate | PcSetRunning | PcStartCallback | PcJob)
  | DJobEntry | DJobResetRan => result b = r0 ∧ output b = o0
  | DJobWait => result b = r0 ∧ output b = o0 ∧ job_ran d = false
  | DRun (PcExcMessage x) =>
      x = KeyError "job_mocking_event" ∧
      result b = r0 ∧ output b = o0 ∧ job_ran d = false
  | DRun (PcExcOutput x) =>
      x = KeyError "job_mocking_event" ∧
      result b = r0 ∧ output b = o0 ∧ job_ran d = false ∧
      result_message b = "FAIL (Exception)"
  | DRun (PcFinally None | PcStopCallback None | PcSetStopEvent None
          | PcDone None) =>
      result b = r0 ∧
      output b = o0 +:+ newline +:+ "KeyError: 'job_mocking_event'" ∧
      job_ran d = false ∧ result_message b = "FAIL (Exception)"
  | DRun (PcDone (Some _)) => True
  | _ => False
  end.

(** A run whose mocking event [e] nobody has set. *)
Definition waiting_inv (e : nat) f : Prop :=
  let d := d_self f in
  let b := base d in
  setup_kwargs b !! "job_mocking_event" = Some (PyEvent e) ∧
  Event_is_set (d_events f) e = false ∧
  match d_pc f with
  | DRun (PcEntry | PcGate | PcSetRunning) => True
  | DRun (PcStartCallback | PcJob) | DJobEntry | DJobResetRan =>
      running b = true
  | DJobWait => running b = true ∧ job_ran d = false
  | DRun (PcDone (Some _)) => True
  | _ => False
  end.
End DummyInvariants.

(** The labels of the statements of [run] before the call of [job()]. *)
Definition is_before_job (l : Label) : bool :=
  match l with
  | LRunning _ | LGatePassed _ | LOnStart _ _ => true
  | _ => false
  end.

(** The runner of the repository's tests after [setUp],
    [set_args(job_mocking_event=...)] and [set_result(r)]; its stop event is
    event 0 and the mocking event is event 1. *)
Definition test_runner (r : Z) : DummyRunner unit :=
  let d := (DummyRunner_init "base runner" ∅).1 in
  set_result r
    (with_base (set_args {[ "job_mocking_event" := PyEvent 1 ]} (base d)) d).

Definition test_events (mock : bool) : gmap nat bool :=
  {[ 0 := false; 1 := mock ]}.

(** ** The calls a run makes *)

Section Calls.
Context {E : Type}.
Implicit Types (self s : BaseJobRunner E) (h : gmap nat bool) (env : E).

(** The start callback of a runner with attributes [s], called with the
    events as in [h] and the state [env], returns and leaves [env'] (with
    no callback, nothing is called). *)
Definition start_call_returns s h env (env' : E) : Prop :=
  match start_callback s with
  | None => env' = env
  | Some cb => cb (name s) (view_of s h) env = Returned env'
  end.

(** The same for the stop callback, called with the name, the outcome text
    and the output of [s]. *)
Definition stop_call_returns s h env (env' : E) : Prop :=
  match stop_callback s with
  | None => env' = env
  | Some cb =>
      cb (name s) (result_message s) (output s) (view_of s h) env = Returned env'
  end.

(** The attributes after lines 96-105, when [job()] ended with [o]. *)
Definition after_body self (o : JobOutcome) : BaseJobRunner E :=
  match o with
  | JobReturn r out =>
      with_result_message (result_message_of r)
        (with_output out (with_result r (with_running true self)))
  | JobRaise e =>
      if exc_is_Exception e
      then with_output (output self +:+ exc_text e)
             (with_result_message "FAIL (Exception)" (with_running true self))
      else with_running true self
  end.

(** The labels of lines 96-105. *)
Definition body_labels self (o : JobOutcome) : list Label :=
  match o with
  | JobReturn r out =>
      [LJob o; LAssignResult r out; LAssignMessage (result_message_of r)]
  | JobRaise e =>
      if exc_is_Exception e
      then [LJob o; LAssignMessage "FAIL (Exception)";
            LAssignOutput (output self +:+ exc_text e)]
      else [LJob o]
  end.

(** The exception [run] raises when the [finally] block is over. *)
Definition pending_of (o : JobOutcome) : option PyExc :=
  match o with
  | JobReturn _ _ => None
  | JobRaise e => if exc_is_Exception e then None else Some e
  end.
End Calls.

(** [sys.exit(1)] called in a job. *)
Definition SystemExit (code : string) : PyExc :=
  {| exc_type_name := "SystemExit"; exc_message := code;
     exc_is_Exception := false |}.

(** A [Cli] object as [__init__] leaves it. *)
Definition Cli_new : Cli :=
  {| result_info_list := []; start_callback_sema := 1;
     stop_callback_sema := 1; stdout := [] |}.

Section Waiting.
Context {E : Type}.

(** Where line 96 leaves [run] when [job()] ended with [o]. *)
Definition pc_after_job (o : JobOutcome) : Pc :=
  match o with
  | JobReturn r out => PcUnpack r out
  | JobRaise e =>
      if exc_is_Exception e then PcExcMessage e else PcFinally (Some e)
  end.

(** The state of the callbacks' owner when only the other threads touched
    it: what the last of their updates left. *)
Definition env_after (ms : list (Move E)) (env : E) : E :=
  foldl (λ e m, match m with EnvUpdate e' => e' | _ => e end) env ms.
End Waiting.

(** ** The order of the stop callbacks under [Cli.run] *)

(** The runner whose stop callback (line 110) is called by the step of
    [tid] in [p], if that step is such a call. *)
Definition stop_call_of (tid : Tid) (p : Proc) : list nat :=
  match tid with
  | Main => []
  | Worker t =>
      match w_threads (p_world p) !! t, tick t (p_world p) with
      | Some th, Some (l, _) => if is_on_stop l then [t_runner th] else []
      | _, _ => []
      end
  end.

(** The runners whose stop callback is called while the schedule [sch] is
    played from [p], in the order of the calls. *)
Fixpoint stop_calls (sch : list Tid) (p : Proc) : list nat :=
  match sch with
  | [] => []
  | tid :: sch' => stop_call_of tid p ++ stop_calls sch' (proc_step tid p)
  end.

(** The runners of the threads whose stop callback has returned, in the
    order of the threads. *)
Fixpoint reported_threads (ts : list Thread) : list nat :=
  match ts with
  | [] => []
  | th :: ts' =>
      (if reported (t_pc th) then [t_runner th] else []) ++ reported_threads ts'
  end.

(** The euro sign, U+20AC: one character, three bytes in UTF-8. *)
Definition euro_sign : string :=
  String "226"%char (String "130"%char (String "172"%char "")).

(** * Properties *)

(** ** Interleavings *)

Section InterleaveFacts.
Context {E : Type}.
Implicit Types (f : Frame E) (ms : list (Move E)).

Lemma interleave_app ms1 ms2 f :
  interleave (ms1 ++ ms2) f =
  let '(l1, f1) := interleave ms1 f in
  let '(l2, f2) := interleave ms2 f1 in
  (l1 ++ l2, f2).
Proof.
  revert f. induction ms1 as [|m ms1 IH]; intros f; simpl.
  - by destruct (interleave ms2 f).
  - destruct (move m f) as [l1 f1]. rewrite IH.
    destruct (interleave ms1 f1) as [l2 f2].
    destruct (interleave ms2 f2) as [l3 f3].
    by rewrite app_assoc.
Qed.

Lemma interleave_snoc ms m f tr f1 :
  interleave ms f = (tr, f1) →
  interleave (ms ++ [m]) f = (tr ++ (move m f1).1, (move m f1).2).
Proof.
  intros H. rewrite interleave_app, H. simpl.
  destruct (move m f1) as [l f2]. simpl. by rewrite app_nil_r.
Qed.

(** A property of trace and frame that holds at the start and that every
    allowed move keeps holds along every allowed interleaving. *)
Lemma interleave_invariant (ok : Move E → Prop) (P : list Label → Frame E → Prop) f0 :
  P [] f0 →
  (∀ tr f m, ok m → P tr f → P (tr ++ (move m f).1) (move m f).2) →
  ∀ ms tr f, Forall ok ms → interleave ms f0 = (tr, f) → P tr f.
Proof.
  intros H0 Hstep ms. induction ms as [|m ms IH] using rev_ind; intros tr f Hok Hrun.
  - simpl in Hrun. by simplify_eq.
  - apply Forall_app in Hok as [Hok Hm]. rewrite Forall_singleton in Hm.
    destruct (interleave ms f0) as [tr1 f1] eqn:H1.
    rewrite (interleave_snoc _ _ _ _ _ H1) in Hrun. simplify_eq.
    apply Hstep; [done|]. by apply IH.
Qed.

(** The moves of the other threads do not touch the runner or the program
    point. *)
Lemma move_env_self m f :
  m ≠ Own → (move m f).1 = [] ∧ f_pc (move m f).2 = f_pc f ∧ f_self (move m f).2 = f_self f.
Proof. by destruct m. Qed.

Lemma run_from_interleave n f :
  run_from n f = interleave (replicate n Own) f.
Proof.
  revert f. induction n as [|n IH]; intros f; [done|].
  simpl. destruct (run_step f) as [[l f']|] eqn:Hs.
  - rewrite IH. by destruct (interleave (replicate n Own) f').
  - clear IH. induction n as [|n IHn]; [done|]. simpl. rewrite Hs.
    by rewrite <- IHn.
Qed.
End InterleaveFacts.

(** ** The history of a run *)

Section HistoryFacts.
Context {E : Type}.
Implicit Types (s : BaseJobRunner E) (f : Frame E).

Lemma has_start_callback_Some (self0 : BaseJobRunner E) cb :
  start_callback self0 = Some cb → has_start_callback self0 = true.
Proof. intros H. unfold has_start_callback. rewrite H. by apply bool_decide_eq_true. Qed.

Lemma has_start_callback_None (self0 : BaseJobRunner E) :
  start_callback self0 = None → has_start_callback self0 = false.
Proof.
  intros H. unfold has_start_callback. rewrite H.
  apply bool_decide_eq_false. by intros [? ?].
Qed.

Lemma has_stop_callback_Some (self0 : BaseJobRunner E) cb :
  stop_callback self0 = Some cb → has_stop_callback self0 = true.
Proof. intros H. unfold has_stop_callback. rewrite H. by apply bool_decide_eq_true. Qed.

Lemma has_stop_callback_None (self0 : BaseJobRunner E) :
  stop_callback self0 = None → has_stop_callback self0 = false.
Proof.
  intros H. unfold has_stop_callback. rewrite H.
  apply bool_decide_eq_false. by intros [? ?].
Qed.

(** The [try] statement assigns [result], [output] and [result_message]
    only. *)
Lemma body_done_static self0 b s p :
  body_done self0 b s p →
  name s = name self0 ∧ stop_callback s = stop_callback self0 ∧
  stop_event s = stop_event self0 ∧ start_callback s = start_callback self0 ∧
  start_gating_event s = start_gating_event self0 ∧ job s = job self0 ∧
  setup_kwargs s = setup_kwargs self0 ∧ thread s = thread self0.
Proof. by destruct 1. Qed.

Lemma history_cast (self0 : BaseJobRunner E) tr tr' pc pc' s s' :
  history self0 tr pc s → tr = tr' → pc = pc' → s = s' →
  history self0 tr' pc' s'.
Proof. by intros H -> -> ->. Qed.

Lemma history_step (self0 : BaseJobRunner E) tr pc s h env l f' :
  history self0 tr pc s →
  run_step (Build_Frame pc s h env) = Some (l, f') →
  history self0 (tr ++ [l]) (f_pc f') (f_self f').
Proof.
  intros Hh Hs.
  destruct Hh as [| | | |e Hc| |r out Hj|r out Hj|e Hj He|e Hj He
                  |b s p Hb|b s p Hb|b s p v e Hb Hv Hc|b s p v Hb Hv
                  |b s p v Hb Hv]; cbn in Hs.
  - simplify_eq. constructor.
  - destruct (start_gating_event self0) as [g|] eqn:Hg.
    + destruct (Event_is_set h g); simplify_eq. cbn. rewrite <- Hg. constructor.
    + simplify_eq. cbn. rewrite <- Hg. constructor.
  - simplify_eq. constructor.
  - destruct (start_callback self0) as [cb|] eqn:Hcb.
    + pose proof (has_start_callback_Some _ _ Hcb) as Hc.
      destruct (cb _ _ _) eqn:Hcall; simplify_eq.
      * eapply history_cast; [apply h_job| |done..]. by rewrite Hc.
      * eapply history_cast; [apply (h_start_raised _ e)|done..].
        by eexists _, _, _, _.
    + pose proof (has_start_callback_None _ Hcb) as Hc. simplify_eq.
      eapply history_cast; [apply h_job| |done..]. by rewrite Hc.
  - done.
  - destruct (job self0 _ _) as [r out|e] eqn:Hj.
    + simplify_eq. apply h_unpack. by eexists.
    + destruct (exc_is_Exception e) eqn:He; simplify_eq.
      * apply h_exc_message; [by eexists|done].
      * apply h_finally. apply body_uncaught; [by eexists|done].
  - simplify_eq.
    eapply history_cast; [by apply (h_message _ r out)| |done..].
    by rewrite <- app_assoc.
  - simplify_eq.
    eapply history_cast; [apply h_finally; by apply (body_returned _ r out)| |done..].
    by rewrite <- app_assoc.
  - simplify_eq.
    eapply history_cast; [by apply (h_exc_output _ e)| |done..].
    by rewrite <- app_assoc.
  - simplify_eq.
    eapply history_cast; [apply h_finally; by apply (body_caught _ e)| |done..].
    by rewrite <- app_assoc.
  - simplify_eq.
    eapply history_cast; [by apply (h_stop_callback _ b s p)| |done..].
    by rewrite <- !app_assoc.
  - pose proof (body_done_static _ _ _ _ Hb) as (Hn & Hsc & _).
    rewrite Hsc, Hn in Hs.
    destruct (stop_callback self0) as [cb|] eqn:Hcb.
    + pose proof (has_stop_callback_Some _ _ Hcb) as Hc.
      destruct (cb _ _ _ _ _) eqn:Hcall; simplify_eq.
      * eapply history_cast;
          [apply (h_set_stop_event _ b s p _ Hb (ex_intro _ h eq_refl))| |done..].
        rewrite Hc. by rewrite <- !app_assoc.
      * eapply history_cast;
          [apply (h_stop_raised _ b s p _ e Hb (ex_intro _ h eq_refl))| |done..].
        { by eexists _, _, _. }
        by rewrite <- !app_assoc.
    + pose proof (has_stop_callback_None _ Hcb) as Hc. simplify_eq.
      eapply history_cast;
        [apply (h_set_stop_event _ b s p _ Hb (ex_intro _ h eq_refl))| |done..].
      rewrite Hc. by rewrite <- !app_assoc.
  - done.
  - pose proof (body_done_static _ _ _ _ Hb) as (_ & _ & Hse & _).
    rewrite Hse in Hs. simplify_eq.
    eapply history_cast; [by apply (h_done _ b s p v)| |done..].
    by rewrite <- !app_assoc.
  - done.
Qed.

(** Along every interleaving, a run that began at line 87 is described by
    its history. *)
Lemma history_interleave (self0 : BaseJobRunner E) h env ms tr f :
  interleave ms (Build_Frame PcEntry self0 h env) = (tr, f) →
  history self0 tr (f_pc f) (f_self f).
Proof.
  intros Hrun.
  refine (interleave_invariant (λ _, True)
            (λ tr f, history self0 tr (f_pc f) (f_self f)) _ _ _ ms tr f _ Hrun).
  - constructor.
  - clear. intros tr f m _ Hh. destruct m; cbn; rewrite ?app_nil_r; try done.
    destruct f as [pc s h env]. destruct (run_step _) as [[l f']|] eqn:Hs; cbn.
    + by eapply history_step.
    + by rewrite app_nil_r.
  - by apply Forall_true.
Qed.
End HistoryFacts.

(** ** Events along a run *)

Lemma Event_is_set_set h e : Event_is_set (Event_set h e) e = true.
Proof. unfold Event_is_set, Event_set. by rewrite lookup_insert_eq. Qed.

Lemma Event_is_set_set_ne h e e' :
  e' ≠ e → Event_is_set (Event_set h e') e = Event_is_set h e.
Proof. intros. unfold Event_is_set, Event_set. by rewrite lookup_insert_ne. Qed.

Lemma Event_is_set_clear h e : Event_is_set (Event_clear h e) e = false.
Proof. unfold Event_is_set, Event_clear. by rewrite lookup_insert_eq. Qed.

Lemma Event_is_set_clear_ne h e e' :
  e' ≠ e → Event_is_set (Event_clear h e') e = Event_is_set h e.
Proof. intros. unfold Event_is_set, Event_clear. by rewrite lookup_insert_ne. Qed.

(** Setting an event never unsets another one. *)
Lemma Event_set_mono h e e' :
  Event_is_set h e = true → Event_is_set (Event_set h e') e = true.
Proof.
  intros H. destruct (decide (e' = e)) as [->|Hne].
  - apply Event_is_set_set.
  - by rewrite Event_is_set_set_ne.
Qed.

Section EventFacts.
Context {E : Type}.
Implicit Types (f : Frame E) (ms : list (Move E)).

(** A statement of [run] changes the event store at line 111 only, and
    there it sets the runner's own stop event and ends the run. *)
Lemma run_step_events f l f' :
  run_step f = Some (l, f') →
  (f_events f' = f_events f ∧ ∀ e, l ≠ LStopEventSet e) ∨
  (∃ p, f_pc f = PcSetStopEvent p ∧ f_pc f' = PcDone p ∧
        l = LStopEventSet (stop_event (f_self f)) ∧
        f_events f' = Event_set (f_events f) (stop_event (f_self f))).
Proof.
  destruct f as [pc s h env]. intros Hs.
  destruct pc; cbn in Hs;
    repeat (case_match; simplify_eq); simplify_eq; cbn; eauto 10.
Qed.

(** No statement of [run] assigns [stop_event]. *)
Lemma run_step_stop_event f l f' :
  run_step f = Some (l, f') → stop_event (f_self f') = stop_event (f_self f).
Proof.
  destruct f as [pc s h env]. intros Hs.
  destruct pc; cbn in Hs; repeat (case_match; simplify_eq); by simplify_eq.
Qed.

(** What the stop callback is shown is the runner as it is at line 110. *)
Lemma run_step_on_stop f c n m o v f' :
  run_step f = Some (LOnStop c n m o v, f') →
  v = view_of (f_self f) (f_events f) ∧ n = name (f_self f) ∧
  m = result_message (f_self f) ∧ o = output (f_self f).
Proof.
  destruct f as [pc s h env]. intros Hs.
  destruct pc; cbn in Hs; repeat (case_match; simplify_eq); by simplify_eq.
Qed.

Lemma stop_event_inv_move ev tr f m :
  leaves_event ev m → stop_event_inv ev tr f →
  stop_event_inv ev (tr ++ (move m f).1) (move m f).2.
Proof.
  intros Hm (Hev & Hview & Hset).
  destruct m as [|e|e|env']; unfold stop_event_inv;
    cbn [move leaves_event fst snd f_pc f_self f_events f_env] in *;
    rewrite ?app_nil_r.
  - destruct (run_step f) as [[l f']|] eqn:Hs;
      cbn [fst snd]; rewrite ?app_nil_r; [|done].
    pose proof (run_step_stop_event _ _ _ Hs) as Hse.
    destruct Hset as [(Hin & His & p & Hpc)|[Hnin Hno]].
    { destruct f as [pc s h env]. cbn in Hpc. subst pc. done. }
    split; [congruence|]. split.
    { intros c n m o v [Hin|Hin]%elem_of_app; [by eapply Hview|].
      apply list_elem_of_singleton in Hin. subst l.
      apply run_step_on_stop in Hs as (-> & _). cbn. by rewrite Hev. }
    destruct (run_step_events _ _ _ Hs) as [[Heq Hl]|(p & Hpc & Hpc' & -> & Heq)].
    + right. split; [|by rewrite Heq].
      intros [Hin|Hin]%elem_of_app; [done|].
      apply list_elem_of_singleton in Hin. by eapply Hl.
    + left. rewrite Heq, Hev. split; [|split].
      * apply elem_of_app. right. by apply list_elem_of_singleton.
      * apply Event_is_set_set.
      * eauto.
  - split; [done|]. split; [done|].
    by rewrite Event_is_set_set_ne.
  - split; [done|]. split; [done|].
    by rewrite Event_is_set_clear_ne.
  - done.
Qed.

Lemma stop_event_inv_interleave (self0 : BaseJobRunner E) h env ms tr f :
  Event_is_set h (stop_event self0) = false →
  Forall (leaves_event (stop_event self0)) ms →
  interleave ms (Build_Frame PcEntry self0 h env) = (tr, f) →
  stop_event_inv (stop_event self0) tr f.
Proof.
  intros Hunset Hok Hrun.
  refine (interleave_invariant _ (stop_event_inv (stop_event self0)) _ _ _
            ms tr f Hok Hrun).
  - split; [done|]. split; [by intros ????? ?%elem_of_nil|].
    right. split; [by intros ?%elem_of_nil|done].
  - intros. by apply stop_event_inv_move.
Qed.
End EventFacts.

(** ** [run] called directly *)

Section Progress.
Context {E : Type}.

Lemma run_from_S n (f : Frame E) l f' :
  run_step f = Some (l, f') →
  run_from (S n) f = (l :: (run_from n f').1, (run_from n f').2).
Proof. intros H. cbn [run_from]. rewrite H. by destruct (run_from n f'). Qed.

Lemma run_from_done n (s : BaseJobRunner E) h env p :
  run_from n (Build_Frame (PcDone p) s h env) = ([], Build_Frame (PcDone p) s h env).
Proof. by destruct n. Qed.

(** Lines 108-111, when the stop callback returns. *)
Lemma run_from_finally n (s : BaseJobRunner E) h env pend :
  stop_callback_returns s →
  ∃ l1 l2 l3 f3,
    run_from (S (S (S n))) (Build_Frame (PcFinally pend) s h env) =
      ([l1; l2; l3], f3) ∧ f_pc f3 = PcDone pend.
Proof.
  intros Hstop.
  erewrite run_from_S by reflexivity.
  assert (∃ l2 env',
            run_step (Build_Frame (PcStopCallback pend) (with_running false s) h env)
            = Some (l2, Build_Frame (PcSetStopEvent pend) (with_running false s) h env'))
    as (l2 & env' & Hs).
  { cbn. destruct (stop_callback s) as [cb|] eqn:Hcb; [|by eexists _, _].
    match goal with
    | |- context [cb ?a ?b ?c ?d ?e] =>
        destruct (Hstop cb a b c d e Hcb) as [env' ->]
    end.
    by eexists _, _. }
  rewrite (run_from_S _ _ _ _ Hs).
  erewrite run_from_S by reflexivity.
  rewrite run_from_done. cbn. by eexists _, _, _, _.
Qed.

(** [run] called directly comes to its end when it need not wait at the
    gate and the callbacks return: ten statements suffice, [job()] has been
    called, and [run] raises only an exception of [job()] that is not an
    [Exception]. *)
Lemma run_completes (self : BaseJobRunner E) h env :
  gate_open self h →
  start_callback_returns self →
  stop_callback_returns self →
  ∃ o p,
    LJob o ∈ (run self h env).1 ∧ f_pc (run self h env).2 = PcDone p ∧
    (p = None ∨ ∃ e, o = JobRaise e ∧ exc_is_Exception e = false ∧ p = Some e).
Proof.
  intros Hgate Hstart Hstop. unfold run, run_fuel.
  erewrite run_from_S by reflexivity.
  assert (run_step (Build_Frame PcGate (with_running false self) h env) =
          Some (LGatePassed (start_gating_event self),
                Build_Frame PcSetRunning (with_running false self) h env)) as Hg.
  { unfold gate_open in Hgate. cbn.
    destruct (start_gating_event self) as [g|]; [by rewrite Hgate|done]. }
  rewrite (run_from_S _ _ _ _ Hg).
  erewrite run_from_S by reflexivity.
  set (s1 := with_running true (with_running false self)).
  assert (∃ l env1,
            run_step (Build_Frame PcStartCallback s1 h env) =
            Some (l, Build_Frame PcJob s1 h env1)) as (l4 & env1 & Hcb).
  { cbn. destruct (start_callback self) as [cb|] eqn:Hcb; [|by eexists _, _].
    match goal with
    | |- context [cb ?a ?b ?c] =>
        destruct (Hstart cb a b c Hcb) as [env' ->]
    end.
    by eexists _, _. }
  rewrite (run_from_S _ _ _ _ Hcb).
  destruct (job self (view_of s1 h) (setup_kwargs self)) as [r out|e] eqn:Hjob.
  - assert (run_step (Build_Frame PcJob s1 h env1) =
            Some (LJob (JobReturn r out), Build_Frame (PcUnpack r out) s1 h env1))
      as Hj by (cbn; by rewrite Hjob).
    rewrite (run_from_S _ _ _ _ Hj).
    do 2 erewrite run_from_S by reflexivity.
    edestruct (run_from_finally 0) as (l1 & l2 & l3 & f3 & Hrun & Hpc);
      [|rewrite Hrun]; [done|].
    exists (JobReturn r out), None. cbn [fst snd].
    split; [apply (list_elem_of_lookup_2 _ 4); done|]. by split; [|left].
  - destruct (exc_is_Exception e) eqn:He.
    + assert (run_step (Build_Frame PcJob s1 h env1) =
              Some (LJob (JobRaise e), Build_Frame (PcExcMessage e) s1 h env1))
        as Hj by (cbn; by rewrite Hjob, He).
      rewrite (run_from_S _ _ _ _ Hj).
      do 2 erewrite run_from_S by reflexivity.
      edestruct (run_from_finally 0) as (l1 & l2 & l3 & f3 & Hrun & Hpc);
        [|rewrite Hrun]; [done|].
      exists (JobRaise e), None. cbn [fst snd].
      split; [apply (list_elem_of_lookup_2 _ 4); done|]. by split; [|left].
    + assert (run_step (Build_Frame PcJob s1 h env1) =
              Some (LJob (JobRaise e), Build_Frame (PcFinally (Some e)) s1 h env1))
        as Hj by (cbn; by rewrite Hjob, He).
      rewrite (run_from_S _ _ _ _ Hj).
      edestruct (run_from_finally 2) as (l1 & l2 & l3 & f3 & Hrun & Hpc);
        [|rewrite Hrun]; [done|].
      exists (JobRaise e), (Some e). cbn [fst snd].
      split; [apply (list_elem_of_lookup_2 _ 4); done|].
      split; [done|]. right. by exists e.
Qed.
End Progress.

(** ** The outcome of a run *)

(** Case analysis on membership in an explicit list. *)
Ltac split_mem :=
  repeat match goal with
    | H : _ ∈ _ ++ _ |- _ => apply elem_of_app in H as [H|H]
    | H : _ ∈ _ :: _ |- _ => apply elem_of_cons in H as [H|H]
    | H : _ ∈ [] |- _ => by apply elem_of_nil in H
    end.

Section Outcome.
Context {E : Type}.
Implicit Types (f : Frame E) (ms : list (Move E)).

(** A finished run whose trace shows a call of [job()] went through the
    [try] statement and the [finally] block. *)
Lemma history_done_job (self0 : BaseJobRunner E) tr p s o :
  history self0 tr (PcDone p) s →
  LJob o ∈ tr →
  ∃ b sb pend v,
    body_done self0 b sb pend ∧ LJob o ∈ b ∧ s = with_running false sb ∧
    stop_view sb v ∧
    ((p = pend ∧
      tr = prelude self0 (has_start_callback self0) ++ b ++
             [LRunning false;
              LOnStop (has_stop_callback self0) (name self0)
                (result_message sb) (output sb) v;
              LStopEventSet (stop_event self0)]) ∨
     (∃ e, p = Some e ∧ stop_raises self0 sb v e ∧
           tr = prelude self0 (has_start_callback self0) ++ b ++
                  [LRunning false;
                   LOnStop true (name self0) (result_message sb) (output sb) v])).
Proof.
  intros Hh Hin. inversion Hh; subst; unfold prelude in Hin.
  - split_mem; simplify_eq.
  - exists b, s0, p0, v. split_mem; simplify_eq.
    repeat split; try done. right. by exists e.
  - exists b, s0, p, v. split_mem; simplify_eq.
    repeat split; try done. by left.
Qed.

Lemma body_done_return (self0 : BaseJobRunner E) b sb pend r out :
  body_done self0 b sb pend →
  LJob (JobReturn r out) ∈ b →
  pend = None ∧
  b = [LJob (JobReturn r out); LAssignResult r out;
       LAssignMessage (result_message_of r)] ∧
  sb = with_result_message (result_message_of r)
         (with_output out (with_result r (with_running true self0))).
Proof. destruct 1; intros Hin; split_mem; by simplify_eq. Qed.

Lemma body_done_raise (self0 : BaseJobRunner E) b sb pend e :
  body_done self0 b sb pend →
  LJob (JobRaise e) ∈ b →
  (exc_is_Exception e = true ∧ pend = None ∧
   sb = with_output (output self0 +:+ exc_text e)
          (with_result_message "FAIL (Exception)" (with_running true self0))) ∨
  (exc_is_Exception e = false ∧ pend = Some e ∧ sb = with_running true self0).
Proof. destruct 1; intros Hin; split_mem; simplify_eq; auto. Qed.

Lemma result_message_of_0 : result_message_of 0 = "Success".
Proof. done. Qed.

Lemma result_message_of_nonzero r :
  r ≠ 0%Z → result_message_of r = "FAIL (" +:+ str r +:+ ")".
Proof. intros Hr. unfold result_message_of. by rewrite bool_decide_eq_false_2. Qed.

(** A direct call of [run] is the interleaving in which only the thread
    itself moves. *)
Lemma run_is_interleave (self : BaseJobRunner E) h env :
  interleave (replicate run_fuel Own) (Build_Frame PcEntry self h env) =
  ((run self h env).1, (run self h env).2).
Proof.
  unfold run. rewrite run_from_interleave. by destruct (interleave _ _).
Qed.

(** C1.  In every run in which [job()] returns [(r, out)] — whatever the
    other threads do meanwhile — the run ends with [result = r],
    [output = out], and [result_message] exactly ["Success"] when [r] is
    zero and exactly ["FAIL (" + str(r) + ")"] otherwise.  A direct call of
    [run] on such a runner, with the gate open and callbacks that return,
    does come to this end. *)
Theorem run_records_returned_result (self : BaseJobRunner E) r out :
  (∀ h env ms tr f p,
     interleave ms (Build_Frame PcEntry self h env) = (tr, f) →
     LJob (JobReturn r out) ∈ tr →
     f_pc f = PcDone p →
     result (f_self f) = r ∧ output (f_self f) = out ∧
     (r = 0%Z → result_message (f_self f) = "Success") ∧
     (r ≠ 0%Z → result_message (f_self f) = "FAIL (" +:+ str r +:+ ")")) ∧
  (∀ h env,
     (∀ v, job self v (setup_kwargs self) = JobReturn r out) →
     gate_open self h → start_callback_returns self →
     stop_callback_returns self →
     let f := (run self h env).2 in
     f_pc f = PcDone None ∧
     result (f_self f) = r ∧ output (f_self f) = out ∧
     (r = 0%Z → result_message (f_self f) = "Success") ∧
     (r ≠ 0%Z → result_message (f_self f) = "FAIL (" +:+ str r +:+ ")")).
Proof.
  assert (∀ h env ms tr f p,
            interleave ms (Build_Frame PcEntry self h env) = (tr, f) →
            LJob (JobReturn r out) ∈ tr →
            f_pc f = PcDone p →
            result (f_self f) = r ∧ output (f_self f) = out ∧
            (r = 0%Z → result_message (f_self f) = "Success") ∧
            (r ≠ 0%Z → result_message (f_self f) = "FAIL (" +:+ str r +:+ ")"))
    as Hsafe.
  { intros h env ms tr f p Hrun Hin Hpc. apply history_interleave in Hrun.
    rewrite Hpc in Hrun.
    destruct (history_done_job _ _ _ _ _ Hrun Hin)
      as (b & sb & pend & v & Hb & Hinb & -> & _).
    destruct (body_done_return _ _ _ _ _ _ Hb Hinb) as (_ & _ & ->). cbn.
    repeat split; [by intros ->|apply result_message_of_nonzero]. }
  split; [exact Hsafe|].
  intros h env Hjob Hgate Hstart Hstop f.
  destruct (run_completes self h env Hgate Hstart Hstop)
    as (o & p & Hin & Hpc & Hp).
  pose proof (run_is_interleave self h env) as Hrun.
  pose proof (history_interleave _ _ _ _ _ _ Hrun) as Hh. cbn [fst snd] in Hh.
  rewrite Hpc in Hh.
  destruct (history_done_job _ _ _ _ _ Hh Hin)
    as (b & sb & pend & v & Hb & Hinb & _).
  assert (o = JobReturn r out) as ->.
  { destruct Hb as [r' out' [h' Hj]|e [h' Hj] ?|e [h' Hj] ?];
      rewrite Hjob in Hj; split_mem; by simplify_eq. }
  destruct Hp as [->|(e & ? & _)]; [|done].
  split; [exact Hpc|]. by apply (Hsafe h env _ _ _ None Hrun).
Qed.
End Outcome.

Lemma run_records_returned_result_witness :
  let self : BaseJobRunner unit := (BaseJobRunner_init (job_returning 3 "done") "w" ∅).1 in
  let f := (run self ∅ ()).2 in
  f_pc f = PcDone None ∧
  result (f_self f) = 3%Z ∧ output (f_self f) = "done" ∧
  (3%Z = 0%Z → result_message (f_self f) = "Success") ∧
  (3%Z ≠ 0%Z → result_message (f_self f) = "FAIL (" +:+ str 3 +:+ ")").
Proof.
  intros self f.
  destruct (run_records_returned_result self 3%Z "done") as [_ Hdirect].
  apply (Hdirect ∅ ()).
  - reflexivity.
  - exact I.
  - intros cb nm v env Hcb. cbn in Hcb. injection Hcb as <-. by eexists.
  - intros cb nm m o v env Hcb. cbn in Hcb. injection Hcb as <-. by eexists.
Defined.

Section Faults.
Context {E : Type}.
Implicit Types (f : Frame E) (ms : list (Move E)).

(** While no [job()] call has returned, no statement of [run] has assigned
    [result]. *)
Lemma history_raise_result (self0 : BaseJobRunner E) tr pc s e :
  history self0 tr pc s →
  LJob (JobRaise e) ∈ tr →
  result s = result self0.
Proof.
  intros Hh Hin.
  destruct Hh as [| | | |? ?| |? ? ?|? ? ?|? ? ?|? ? ?
                  |b s p Hb|b s p Hb|b s p v ? Hb ? ?|b s p v Hb ?
                  |b s p v Hb ?]; unfold prelude in Hin;
    try (split_mem; by simplify_eq);
    destruct Hb; split_mem; by simplify_eq.
Qed.

(** C10.  In every run made by [start()] in which [job()] raises, [result]
    is never assigned: it holds the [-1] that [start()] wrote, at every
    moment of the run and when the run is over. *)
Theorem result_keeps_sentinel_on_exception (self : BaseJobRunner E) h env ms tr f e :
  interleave ms (start_frame self h env) = (tr, f) →
  LJob (JobRaise e) ∈ tr →
  result (f_self f) = (-1)%Z.
Proof.
  intros Hrun Hin. apply history_interleave in Hrun.
  by rewrite (history_raise_result _ _ _ _ _ Hrun Hin).
Qed.

(** C9.  The [job] of the base class returns [(1, "Override this method")],
    so a run of a runner that does not override it, once over, has
    [result_message] exactly ["FAIL (1)"]; and a direct call of [run] on
    such a runner, with the gate open and callbacks that return, comes to
    its end. *)
Theorem base_job_run_fails (self : BaseJobRunner E) :
  job self = BaseJobRunner_job →
  (∀ v kw, job self v kw = JobReturn 1 "Override this method") ∧
  (∀ h env ms tr f p o,
     interleave ms (Build_Frame PcEntry self h env) = (tr, f) →
     LJob o ∈ tr →
     f_pc f = PcDone p →
     o = JobReturn 1 "Override this method" ∧
     result (f_self f) = 1%Z ∧
     output (f_self f) = "Override this method" ∧
     result_message (f_self f) = "FAIL (1)") ∧
  (∀ h env,
     gate_open self h → start_callback_returns self →
     stop_callback_returns self →
     let f := (run self h env).2 in
     f_pc f = PcDone None ∧ result_message (f_self f) = "FAIL (1)").
Proof.
  intros Hjob.
  assert (∀ h env ms tr f p o,
            interleave ms (Build_Frame PcEntry self h env) = (tr, f) →
            LJob o ∈ tr →
            f_pc f = PcDone p →
            o = JobReturn 1 "Override this method" ∧
            result (f_self f) = 1%Z ∧
            output (f_self f) = "Override this method" ∧
            result_message (f_self f) = "FAIL (1)") as Hsafe.
  { intros h env ms tr f p o Hrun Hin Hpc. apply history_interleave in Hrun.
    rewrite Hpc in Hrun.
    destruct (history_done_job _ _ _ _ _ Hrun Hin)
      as (b & sb & pend & v & Hb & Hinb & -> & _).
    destruct Hb as [r out [h' Hj]|e [h' Hj] ?|e [h' Hj] ?];
      rewrite Hjob in Hj; unfold BaseJobRunner_job in Hj; simplify_eq.
    split_mem; by simplify_eq. }
  split; [by rewrite Hjob|]. split; [exact Hsafe|].
  intros h env Hgate Hstart Hstop f.
  destruct (run_completes self h env Hgate Hstart Hstop)
    as (o & p & Hin & Hpc & Hp).
  pose proof (run_is_interleave self h env) as Hrun.
  destruct (Hsafe h env _ _ _ p o Hrun Hin Hpc) as (-> & _ & _ & Hm).
  destruct Hp as [->|(e & ? & _)]; [|done].
  by split.
Qed.
End Faults.

Lemma result_keeps_sentinel_on_exception_witness :
  let e := TypeError "must be str, not NoneType" in
  let self : BaseJobRunner unit :=
    with_result 7 (BaseJobRunner_init (job_raising e) "w" ∅).1 in
  result (f_self (interleave (replicate run_fuel Own) (start_frame self ∅ ())).2)
  = (-1)%Z.
Proof.
  intros e self.
  apply (result_keeps_sentinel_on_exception self ∅ () (replicate run_fuel Own)
           (interleave (replicate run_fuel Own) (start_frame self ∅ ())).1 _ e).
  - by destruct (interleave _ _).
  - apply (list_elem_of_lookup_2 _ 4). reflexivity.
Defined.

Lemma base_job_run_fails_witness :
  let self : BaseJobRunner unit := (BaseJobRunner_init BaseJobRunner_job "w" ∅).1 in
  let f := (run self ∅ ()).2 in
  f_pc f = PcDone None ∧ result_message (f_self f) = "FAIL (1)".
Proof.
  intros self f.
  destruct (base_job_run_fails self eq_refl) as (_ & _ & Hdirect).
  apply (Hdirect ∅ ()).
  - exact I.
  - intros cb nm v env Hcb. cbn in Hcb. injection Hcb as <-. by eexists.
  - intros cb nm m o v env Hcb. cbn in Hcb. injection Hcb as <-. by eexists.
Defined.

(** ** The end of a run *)

Section EndOfRun.
Context {E : Type}.
Implicit Types (f : Frame E) (ms : list (Move E)).

(** No path through [run] calls a callback, calls [job()] or sets the stop
    event twice. *)
Lemma history_counts (self0 : BaseJobRunner E) tr pc s :
  history self0 tr pc s →
  count_labels is_on_start tr ≤ 1 ∧ count_labels is_job tr ≤ 1 ∧
  count_labels is_on_stop tr ≤ 1 ∧ count_labels is_stop_event_set tr ≤ 1.
Proof.
  intros Hh.
  destruct Hh as [| | | |? ?| |? ? ?|? ? ?|? ? ?|? ? ?
                  |b s p Hb|b s p Hb|b s p v ? Hb ? ?|b s p v Hb ?
                  |b s p v Hb ?];
    try destruct Hb; cbn; lia.
Qed.

Lemma stop_view_running (s : BaseJobRunner E) v :
  stop_view s v →
  view_running v = false ∧ view_name v = name s ∧
  view_result_message v = result_message s ∧ view_output v = output s ∧
  view_result v = result s.
Proof. by intros [h ->]. Qed.

End EndOfRun.

Lemma start_clear_unset {E : Type} (self : BaseJobRunner E) h :
  Event_is_set (start_clear self h) (stop_event self) = false.
Proof.
  unfold start_clear. destruct (Event_is_set h (stop_event self)) eqn:His; [|done].
  apply Event_is_set_clear.
Qed.

(** ** The start gate *)

Section Gate.
Context {E : Type}.
Implicit Types (f : Frame E) (ms : list (Move E)).

(** While nobody signals the gate, the run does not get past line 90. *)
Lemma gate_holds (self : BaseJobRunner E) g h env ms tr f :
  start_gating_event self = Some g →
  Event_is_set h g = false →
  Forall (never_signals g) ms →
  interleave ms (Build_Frame PcEntry self h env) = (tr, f) →
  f_pc f = PcEntry ∨ f_pc f = PcGate.
Proof.
  intros Hg Hunset Hok Hrun.
  cut (Event_is_set (f_events f) g = false ∧
       start_gating_event (f_self f) = Some g ∧
       (f_pc f = PcEntry ∨ f_pc f = PcGate)); [tauto|].
  refine (interleave_invariant (never_signals g)
            (λ _ f, Event_is_set (f_events f) g = false ∧
                    start_gating_event (f_self f) = Some g ∧
                    (f_pc f = PcEntry ∨ f_pc f = PcGate))
            _ _ _ ms tr f Hok Hrun); [by auto|].
  clear. intros _ [pc s h env] m Hm (Hunset & Hg & Hpc).
  cbn [f_pc f_self f_events] in *.
  destruct m as [|e|e|env']; cbn [move never_signals fst snd f_pc f_self f_events] in *.
  - destruct Hpc as [-> | ->]; cbn.
    + auto.
    + rewrite Hg, Hunset. cbn. auto.
  - rewrite Event_is_set_set_ne by done. auto.
  - split; [|auto]. destruct (decide (e = g)) as [->|Hne].
    + apply Event_is_set_clear.
    + by rewrite Event_is_set_clear_ne.
  - auto.
Qed.

(** A run that has called [job()] did lines 87-94 first, in that order. *)
Lemma history_job_prefix (self0 : BaseJobRunner E) tr pc s o :
  history self0 tr pc s →
  LJob o ∈ tr →
  job_gave self0 o ∧
  ∃ rest, tr = prelude self0 (has_start_callback self0) ++ LJob o :: rest ∧
          count_labels is_on_start rest = 0 ∧ count_labels is_job rest = 0.
Proof.
  intros Hh Hin.
  destruct Hh as [| | | |? ?| |? ? ?|? ? ?|? ? ?|? ? ?
                  |b s p Hb|b s p Hb|b s p v ? Hb ? ?|b s p v Hb ?
                  |b s p v Hb ?]; unfold prelude in Hin;
    try (split_mem; by simplify_eq);
    try (split_mem; simplify_eq; split; [done|]; by eexists);
    destruct Hb; split_mem; simplify_eq; (split; [done|]); by eexists.
Qed.

End Gate.

(** ** [start] *)

Section Start.
Context {E : Type}.
Implicit Types (w : World E).

(** After [start()] the stop event of the runner is unset. *)
Lemma start_events_unset w i (self : BaseJobRunner E) :
  w_runners w !! i = Some self →
  Event_is_set (w_events (start i w)) (stop_event self) = false.
Proof.
  intros Hi. pose proof (lookup_lt_Some _ _ _ Hi) as Hlt.
  unfold start, start_attrs. rewrite Hi. unfold start_thread. cbn.
  rewrite list_lookup_insert_eq by done. cbn.
  apply (start_clear_unset (start_reset self)).
Qed.

(** C6.  Whatever the runner's attributes and stop event were,
    [start()] first puts [result], [output] and [result_message] to [-1],
    [""] and [""] and leaves the stop event unset (lines 76-80, no thread
    made yet), and only then makes and starts the thread, which begins
    [run] at line 87 with exactly these values. *)
Theorem start_resets_before_spawning w i (self : BaseJobRunner E) :
  w_runners w !! i = Some self →
  start i w = start_thread i (start_attrs i w) ∧
  w_threads (start_attrs i w) = w_threads w ∧
  (∃ s1, w_runners (start_attrs i w) !! i = Some s1 ∧
         result s1 = (-1)%Z ∧ output s1 = "" ∧ result_message s1 = "" ∧
         stop_event s1 = stop_event self ∧
         Event_is_set (w_events (start_attrs i w)) (stop_event self) = false) ∧
  (∃ s2, w_runners (start i w) !! i = Some s2 ∧
         s2 = with_thread (Some (length (w_threads w))) (start_reset self) ∧
         result s2 = (-1)%Z ∧ output s2 = "" ∧ result_message s2 = "" ∧
         Event_is_set (w_events (start i w)) (stop_event self) = false ∧
         w_threads (start i w) = w_threads w ++ [Build_Thread i PcEntry] ∧
         Build_Frame PcEntry (start_reset self) (w_events (start i w)) (w_env w)
           = start_frame self (w_events w) (w_env w)).
Proof.
  intros Hi. pose proof (lookup_lt_Some _ _ _ Hi) as Hlt.
  split; [done|].
  assert (start_attrs i w =
          Build_World (start_clear (start_reset self) (w_events w))
            (<[i := start_reset self]> (w_runners w)) (w_threads w) (w_env w))
    as Hattrs.
  { unfold start_attrs. by rewrite Hi. }
  split; [by rewrite Hattrs|]. split.
  - exists (start_reset self). rewrite Hattrs. cbn.
    rewrite list_lookup_insert_eq by done. repeat split.
    apply (start_clear_unset (start_reset self)).
  - unfold start. rewrite Hattrs. unfold start_thread. cbn.
    rewrite list_lookup_insert_eq by done. cbn.
    rewrite list_insert_insert_eq. rewrite list_lookup_insert_eq by done.
    eexists. split; [done|]. repeat split.
    apply (start_clear_unset (start_reset self)).
Qed.
End Start.

Lemma start_resets_before_spawning_witness :
  let r : BaseJobRunner unit :=
    with_result_message "FAIL (1)" (with_output "old" (with_result 1
      (BaseJobRunner_init (job_returning 1 "old") "w" ∅).1)) in
  let w := Build_World (Event_set ∅ (stop_event r)) [r] [Build_Thread 0 (PcDone None)] () in
  Event_is_set (w_events w) (stop_event r) = true ∧
  ∃ s2, w_runners (start 0 w) !! 0 = Some s2 ∧
        result s2 = (-1)%Z ∧ output s2 = "" ∧ result_message s2 = "" ∧
        Event_is_set (w_events (start 0 w)) (stop_event r) = false ∧
        w_threads (start 0 w) = [Build_Thread 0 (PcDone None); Build_Thread 0 PcEntry].
Proof.
  intros r w. split; [reflexivity|].
  destruct (start_resets_before_spawning w 0 r eq_refl)
    as (_ & _ & _ & s2 & H1 & _ & H2 & H3 & H4 & H5 & H6 & _).
  exists s2. repeat split; assumption.
Defined.

(** ** The stop event *)

Section StopEvent.
Context {E : Type}.
Implicit Types (w : World E) (f : Frame E).

(** The trace of a run shows the stop event set once, as its last label,
    or not at all. *)
Lemma history_stop_event_set (self0 : BaseJobRunner E) tr pc s :
  history self0 tr pc s →
  (count_labels is_stop_event_set tr = 1 ∧
   ∃ tr0 p, tr = tr0 ++ [LStopEventSet (stop_event self0)] ∧
            count_labels is_stop_event_set tr0 = 0 ∧ pc = PcDone p) ∨
  (count_labels is_stop_event_set tr = 0 ∧ ∀ e, LStopEventSet e ∉ tr).
Proof.
  intros Hh.
  destruct Hh as [| | | |? ?| |? ? ?|? ? ?|? ? ?|? ? ?
                  |b s p Hb|b s p Hb|b s p v ? Hb ? ?|b s p v Hb ?
                  |b s p v Hb ?]; unfold prelude;
    try (right; split; [done|]; intros ? Hin; split_mem; by simplify_eq);
    try (right; destruct Hb; (split; [done|]); intros ? Hin; split_mem;
         by simplify_eq).
  left. split; [by destruct Hb|].
  exists (prelude self0 (has_start_callback self0) ++ b ++
            [LRunning false;
             LOnStop (has_stop_callback self0) (name self0) (result_message s)
               (output s) v]), p.
  split; [|split; [by destruct Hb|done]].
  unfold prelude. by rewrite <- !app_assoc.
Qed.

Lemma tick_events_mono w t l w' e :
  tick t w = Some (l, w') →
  Event_is_set (w_events w) e = true → Event_is_set (w_events w') e = true.
Proof.
  unfold tick. intros Ht His.
  destruct (w_threads w !! t) as [th|]; [|done]. cbn in Ht.
  destruct (w_runners w !! t_runner th) as [self|]; [|done]. cbn in Ht.
  destruct (run_step _) as [[l' f']|] eqn:Hs; [|done]. cbn in Ht. simplify_eq.
  cbn. destruct (run_step_events _ _ _ Hs) as [[Heq _]|(p & _ & _ & _ & Heq)];
    rewrite Heq; cbn; [done|by apply Event_set_mono].
Qed.

Lemma update_runner_events w i g : w_events (update_runner i g w) = w_events w.
Proof. unfold update_runner. by destruct (w_runners w !! i). Qed.

End StopEvent.

(** ** The exit status *)

Lemma append_nil_l (s : string) : "" +:+ s = s.
Proof. done. Qed.

Lemma append_cons (a : ascii) (s t : string) :
  String a s +:+ t = String a (s +:+ t).
Proof. done. Qed.

Lemma prefix_spec (s1 s2 : string) :
  String.prefix s1 s2 = true ↔ ∃ post, s2 = s1 +:+ post.
Proof.
  revert s2. induction s1 as [|a s1 IH]; intros [|b s2]; cbn.
  - split; [by exists ""|done].
  - split; [by exists (String b s2)|done].
  - split; [done|]. by intros [post ?].
  - destruct (Ascii.ascii_dec a b) as [->|Hne].
    + rewrite IH. split; intros [post Heq]; exists post.
      * rewrite append_cons. by f_equal.
      * rewrite append_cons in Heq. by simplify_eq.
    + split; [done|]. intros [post Heq].
      rewrite append_cons in Heq. by simplify_eq.
Qed.

Lemma str_contains_spec (needle hay : string) :
  str_contains needle hay = true ↔ is_substring needle hay.
Proof.
  unfold is_substring. induction hay as [|a hay IH]; cbn [str_contains].
  - rewrite orb_false_r, prefix_spec. split.
    + intros [post ?]. by exists "", post.
    + intros ([|??] & post & Heq); [by exists post|].
      by rewrite append_cons in Heq.
  - rewrite orb_true_iff, prefix_spec, IH. split.
    + intros [[post ?]|(pre & post & ->)].
      * by exists "", post.
      * by exists (String a pre), post.
    + intros ([|b pre] & post & Heq).
      * left. by exists post.
      * right. exists pre, post. rewrite append_cons in Heq. by simplify_eq.
Qed.

Lemma result_info_list_print line c :
  result_info_list (print line c) = result_info_list c.
Proof. done. Qed.

Lemma foldl_preserves {A B C : Type} (g : B → C) (step : B → A → B) (l : list A) (b : B) :
  (∀ b a, g (step b a) = g b) → g (foldl step b l) = g b.
Proof.
  intros Hstep. revert b. induction l as [|a l IH]; intros b; [done|].
  cbn. by rewrite IH.
Qed.

(** The report prints and changes nothing else. *)
Lemma display_result_info_list c :
  result_info_list (display_result_info c) = result_info_list c.
Proof.
  unfold display_result_info. apply foldl_preserves.
  intros b [[nm rm] out]. by rewrite foldl_preserves.
Qed.

Lemma failing_jobs_nonempty (l : list (string * string * string)) (acc : list string) :
  0 < length
        (foldl (λ acc '(nm, rm, out),
                  if negb (str_contains "Success" rm) then acc ++ [nm] else acc)
           acc l) ↔
  0 < length acc ∨ Exists is_failure l.
Proof.
  revert acc. induction l as [|[[nm rm] out] l IH]; intros acc; cbn.
  - rewrite Exists_nil. tauto.
  - rewrite IH, Exists_cons.
    change (is_failure (nm, rm, out)) with (¬ is_substring "Success" rm).
    rewrite <- str_contains_spec.
    destruct (str_contains "Success" rm); cbn.
    + split; [intros [?|?]; auto|intros [?|[?|?]]; auto; done].
    + rewrite length_app. cbn. split; [intros [?|?]; auto|intros [?|[?|?]]; auto; lia].
Qed.

Lemma get_exit_return_code_spec c :
  ((get_exit_return_code c).2 = Some 1%Z ∧ Exists is_failure (result_info_list c)) ∨
  ((get_exit_return_code c).2 = None ∧ ¬ Exists is_failure (result_info_list c)).
Proof.
  unfold get_exit_return_code.
  pose proof (failing_jobs_nonempty (result_info_list c) []) as Hf.
  cbn [length] in Hf.
  destruct (bool_decide _) eqn:Hd.
  - left. split; [done|]. apply bool_decide_eq_true in Hd.
    apply Hf in Hd as [?|?]; [lia|done].
  - right. split; [done|]. apply bool_decide_eq_false in Hd.
    intros Hex. apply Hd, Hf. by right.
Qed.

(** C5.  When the main thread has seen every stop event set it computes
    the exit status from the recorded outcome texts: 1 exactly when some
    recorded text does not contain ["Success"], 0 exactly when every one
    does. *)
Theorem exit_status_reflects_failures (p : Proc) :
  p_main p = MReport →
  ∃ p' status,
    main_step p = Some p' ∧ p_main p' = MExit status ∧
    result_info_list (w_env (p_world p')) = result_info_list (w_env (p_world p)) ∧
    (status = 1%Z ↔
     ∃ nm rm out, (nm, rm, out) ∈ result_info_list (w_env (p_world p)) ∧
                  ¬ is_substring "Success" rm) ∧
    (status = 0%Z ↔
     ∀ nm rm out, (nm, rm, out) ∈ result_info_list (w_env (p_world p)) →
                  is_substring "Success" rm).
Proof.
  intros Hmain. unfold main_step. rewrite Hmain. unfold report_and_exit.
  set (c := w_env (p_world p)).
  pose proof (get_exit_return_code_spec (display_result_info c)) as Hspec.
  rewrite display_result_info_list in Hspec.
  assert (result_info_list (get_exit_return_code (display_result_info c)).1
          = result_info_list c) as Hlist.
  { unfold get_exit_return_code. rewrite <- (display_result_info_list c).
    destruct (bool_decide _); cbn; [|done].
    by rewrite foldl_preserves. }
  destruct (get_exit_return_code (display_result_info c)) as [c' code].
  cbn [fst snd] in *.
  assert (Exists is_failure (result_info_list c) ↔
          ∃ nm rm out, (nm, rm, out) ∈ result_info_list c ∧
                       ¬ is_substring "Success" rm) as Hex.
  { rewrite Exists_exists. split.
    - intros ([[nm rm] out] & Hin & Hfail). by exists nm, rm, out.
    - intros (nm & rm & out & Hin & Hfail). by exists (nm, rm, out). }
  destruct Hspec as [[-> Hsome]|[-> Hnone]]; eexists _, _;
    (split; [done|]); (split; [done|]); (split; [done|]); cbn.
  - split; [by rewrite <- Hex|]. split; [done|].
    intros Hall. apply Hex in Hsome as (nm & rm & out & Hin & Hfail).
    destruct Hfail. by eapply Hall.
  - split.
    + split; [done|]. intros Hsome. by apply Hex in Hsome.
    + split; [|done]. intros _ nm rm out Hin.
      destruct (str_contains "Success" rm) eqn:Hc; [by apply str_contains_spec|].
      destruct Hnone. apply Hex. exists nm, rm, out. split; [done|].
      rewrite <- str_contains_spec. by rewrite Hc.
Qed.

Lemma exit_status_reflects_failures_witness :
  let p := {| p_world :=
                Build_World ∅ [] []
                  {| result_info_list :=
                       [("a", "Success", "fine"); ("b", "FAIL (1)", "bad")];
                     start_callback_sema := 1; stop_callback_sema := 1;
                     stdout := [] |};
              p_main := MReport |} in
  ∃ p', main_step p = Some p' ∧ p_main p' = MExit 1.
Proof.
  intros p.
  destruct (exit_status_reflects_failures p eq_refl)
    as (p' & status & Hs & Hm & _ & H1 & _).
  exists p'. split; [exact Hs|]. rewrite Hm. f_equal. apply H1.
  exists "b", "FAIL (1)", "bad". split.
  - apply (list_elem_of_lookup_2 _ 1). reflexivity.
  - intros Hsub. apply str_contains_spec in Hsub. discriminate Hsub.
Defined.

(** ** [Cli.run] *)

(** With both semaphores free, the callbacks of [Cli] return. *)
Lemma call_when_runner_starts_returns nm v c :
  start_callback_sema c = 1 →
  ∃ c', call_when_runner_starts nm v c = Returned c' ∧
        result_info_list c' = result_info_list c ∧
        start_callback_sema c' = 1 ∧
        stop_callback_sema c' = stop_callback_sema c.
Proof.
  intros Hs. unfold call_when_runner_starts. rewrite Hs. cbn. by eexists.
Qed.

Lemma call_when_runner_stops_returns nm rm out v c :
  stop_callback_sema c = 1 →
  ∃ c', call_when_runner_stops nm rm out v c = Returned c' ∧
        result_info_list c' = result_info_list c ++ [(nm, rm, out)] ∧
        start_callback_sema c' = start_callback_sema c ∧
        stop_callback_sema c' = 1.
Proof.
  intros Hs. unfold call_when_runner_stops. rewrite Hs. cbn. by eexists.
Qed.

(** A statement of [run] by the thread of a runner keeps what holds of
    that runner, touches no other stop event, and appends the runner's
    record exactly when the stop callback returns. *)
Lemma thread_step_ok s pc r h c l f' :
  static_ok s r →
  thread_ok s pc r (Event_is_set h (sp_event s)) →
  start_callback_sema c = 1 → stop_callback_sema c = 1 →
  run_step (Build_Frame pc r h c) = Some (l, f') →
  static_ok s (f_self f') ∧
  thread_ok s (f_pc f') (f_self f') (Event_is_set (f_events f') (sp_event s)) ∧
  start_callback_sema (f_env f') = 1 ∧ stop_callback_sema (f_env f') = 1 ∧
  (∀ e, e ≠ sp_event s → Event_is_set (f_events f') e = Event_is_set h e) ∧
  result_info_list (f_env f') =
    result_info_list c ++
    (if reported (f_pc f') && negb (reported pc) then [expected_record s] else []).
Proof.
  intros (Hn & Hse & Hg & Hsc & Hpc & Hjob) Hok Hs1 Hs2 Hstep.
  destruct pc; cbn in Hstep, Hok.
  - simplify_eq. cbn. by rewrite app_nil_r.
  - rewrite Hg in Hstep. simplify_eq. cbn. by rewrite app_nil_r.
  - simplify_eq. cbn. by rewrite app_nil_r.
  - rewrite Hsc in Hstep.
    destruct (call_when_runner_starts_returns (name r) (view_of r h) c Hs1)
      as (c' & Hcall & Hl & Hs1' & Hs2').
    rewrite Hcall in Hstep. simplify_eq. cbn. rewrite Hl, app_nil_r.
    repeat split; try done. congruence.
  - rewrite Hjob in Hstep. simplify_eq. cbn. by rewrite app_nil_r.
  - destruct Hok as (-> & -> & Hun). simplify_eq. cbn. by rewrite app_nil_r.
  - destruct Hok as (Hr & Ho & Hun). simplify_eq. cbn. rewrite app_nil_r, Hr.
    done.
  - done.
  - done.
  - destruct Hok as (-> & Hm & Ho & Hun). simplify_eq. cbn. by rewrite app_nil_r.
  - destruct Hok as (-> & Hm & Ho & Hun). rewrite Hpc in Hstep.
    destruct (call_when_runner_stops_returns (name r) (result_message r)
                (output r) (view_of r h) c Hs2)
      as (c' & Hcall & Hl & Hs1' & Hs2').
    rewrite Hcall in Hstep. simplify_eq. cbn. rewrite Hl.
    unfold expected_record. rewrite <- Hn, <- Hm, <- Ho.
    repeat split; try done. congruence.
  - destruct Hok as (-> & Hm & Ho & Hun). simplify_eq. cbn.
    rewrite app_nil_r, Hse. repeat split; try done.
    + apply Event_is_set_set.
    + intros e He. by rewrite Event_is_set_set_ne.
  - done.
Qed.

Lemma run_step_reported {E : Type} (f : Frame E) l f' :
  run_step f = Some (l, f') →
  reported (f_pc f) = true → reported (f_pc f') = true.
Proof.
  destruct f as [pc s h env]. intros Hs Hr.
  destruct pc; try done; cbn in Hs; by simplify_eq.
Qed.

Lemma reported_records_insert sp ts t s th th' :
  sp !! t = Some s → ts !! t = Some th →
  (reported (t_pc th) = true → reported (t_pc th') = true) →
  reported_records sp (<[t := th']> ts) ≡ₚ
  reported_records sp ts ++
    (if reported (t_pc th') && negb (reported (t_pc th))
     then [expected_record s] else []).
Proof.
  revert ts t. induction sp as [|s0 sp IH]; intros [|th0 ts] [|t] Hs Ht Hmono;
    simplify_eq/=.
  - destruct (reported (t_pc th)), (reported (t_pc th')); cbn;
      rewrite ?app_nil_r; try done.
    + by specialize (Hmono eq_refl).
    + apply Permutation_cons_append.
  - rewrite (IH _ _ Hs Ht Hmono). by rewrite app_assoc.
Qed.

Lemma reported_records_snoc sp ts th :
  reported (t_pc th) = false →
  reported_records sp (ts ++ [th]) = reported_records sp ts.
Proof.
  intros Hr. revert ts. induction sp as [|s0 sp IH]; intros [|th0 ts]; cbn;
    try done.
  - rewrite Hr. by destruct sp.
  - by rewrite IH.
Qed.

Lemma reported_records_all sp ts :
  length ts = length sp →
  (∀ t th, ts !! t = Some th → reported (t_pc th) = true) →
  reported_records sp ts = expected_record <$> sp.
Proof.
  revert ts. induction sp as [|s0 sp IH]; intros [|th0 ts] Hlen Hall;
    simplify_eq/=; [done|].
  rewrite (Hall 0 th0 eq_refl). cbn. f_equal. apply IH; [done|].
  intros t th Ht. by apply (Hall (S t)).
Qed.

(** Distinct runners have distinct stop events. *)
Lemma spec_events_distinct sp t1 t2 s1 s2 :
  NoDup (sp_event <$> sp) →
  sp !! t1 = Some s1 → sp !! t2 = Some s2 → t1 ≠ t2 →
  sp_event s1 ≠ sp_event s2.
Proof.
  intros Hnd H1 H2 Hne Heq. apply Hne.
  apply (NoDup_lookup _ t1 t2 (sp_event s1) Hnd).
  - by rewrite list_lookup_fmap, H1.
  - rewrite list_lookup_fmap, H2. cbn. by rewrite Heq.
Qed.

(** A statement of [run] by any thread keeps the invariant of the world. *)
Lemma tick_world_ok sp w t l w' :
  NoDup (sp_event <$> sp) →
  world_ok sp w →
  tick t w = Some (l, w') →
  world_ok sp w'.
Proof.
  intros Hnd (Hstatic & Hlen & Hthreads & Hperm & Hs1 & Hs2) Htick.
  unfold tick in Htick.
  destruct (w_threads w !! t) as [th|] eqn:Hth; [|done]. cbn in Htick.
  destruct (Hthreads t th Hth) as (Hrun & s & r & Hsp & Hr & Hok).
  rewrite Hrun, Hr in Htick. cbn in Htick.
  destruct (run_step _) as [[l' f']|] eqn:Hstep; [|done]. cbn in Htick.
  injection Htick as <- <-.
  assert (Hstatic_r : static_ok s r) by (by eapply Forall2_lookup_lr).
  destruct (thread_step_ok _ _ _ _ _ _ _ Hstatic_r Hok Hs1 Hs2 Hstep)
    as (Hst' & Hok' & Hs1' & Hs2' & Hev & Hlist).
  pose proof (run_step_reported _ _ _ Hstep) as Hmono. cbn in Hmono.
  pose proof (lookup_lt_Some _ _ _ Hth) as Hlt_t.
  pose proof (lookup_lt_Some _ _ _ Hr) as Hlt_r.
  split; [|split; [|split; [|split]]]; cbn.
  - rewrite <- (list_insert_id sp _ _ Hsp). by apply Forall2_insert.
  - by rewrite length_insert.
  - intros t2 th2 Ht2. destruct (decide (t2 = t)) as [->|Hne].
    + rewrite list_lookup_insert_eq in Ht2 by done. simplify_eq. cbn.
      split; [done|]. exists s, (f_self f').
      by rewrite list_lookup_insert_eq by done.
    + rewrite list_lookup_insert_ne in Ht2 by done.
      destruct (Hthreads t2 th2 Ht2) as (Hrun2 & s2 & r2 & Hsp2 & Hr2 & Hok2).
      split; [done|]. exists s2, r2. rewrite list_lookup_insert_ne by done.
      repeat split; try done. rewrite Hev; [done|].
      by eapply spec_events_distinct.
  - rewrite Hlist, Hperm.
    by rewrite (reported_records_insert sp _ t s th
                  {| t_runner := t; t_pc := f_pc f' |} Hsp Hth Hmono).
  - done.
Qed.

Lemma start_clear_other {E : Type} (self : BaseJobRunner E) h e :
  e ≠ stop_event self →
  Event_is_set (start_clear self h) e = Event_is_set h e.
Proof.
  intros Hne. unfold start_clear. destruct (Event_is_set h (stop_event self)); [|done].
  by rewrite Event_is_set_clear_ne.
Qed.

(** [start()] on the next runner, by the main thread, keeps the invariant
    of the world and adds the runner's thread. *)
Lemma start_world_ok sp w k :
  NoDup (sp_event <$> sp) →
  world_ok sp w →
  length (w_threads w) = k →
  k < length sp →
  world_ok sp (start k w) ∧ length (w_threads (start k w)) = S k.
Proof.
  intros Hnd (Hstatic & Hlen & Hthreads & Hperm & Hs1 & Hs2) Hk Hlt.
  destruct (lookup_lt_is_Some_2 sp k Hlt) as [s Hsp].
  destruct (Forall2_lookup_l _ _ _ _ _ Hstatic Hsp) as (r & Hr & Hst).
  pose proof (lookup_lt_Some _ _ _ Hr) as Hlt_r.
  unfold start, start_attrs. rewrite Hr. unfold start_thread. cbn.
  rewrite list_lookup_insert_eq by done. cbn.
  rewrite list_insert_insert_eq.
  destruct Hst as (Hn & Hse & Hg & Hsc & Hpc & Hjob).
  split; [|by rewrite length_app, Hk; cbn; lia].
  split; [|split; [|split; [|split]]]; cbn.
  - rewrite <- (list_insert_id sp _ _ Hsp). by apply Forall2_insert.
  - rewrite length_app. cbn. lia.
  - intros t th Ht. apply lookup_app_Some in Ht as [Ht|[Hge Ht]].
    + pose proof (lookup_lt_Some _ _ _ Ht) as Hlt_t.
      destruct (Hthreads t th Ht) as (Hrun & s2 & r2 & Hsp2 & Hr2 & Hok2).
      split; [done|]. exists s2, r2. rewrite list_lookup_insert_ne by lia.
      repeat split; try done. rewrite start_clear_other; [done|].
      cbn. rewrite Hse. apply (spec_events_distinct sp t k); [done..|lia].
    + destruct (t - length (w_threads w)) as [|?] eqn:Hd; [|done].
      cbn in Ht. simplify_eq. assert (t = length (w_threads w)) as -> by lia.
      split; [done|]. exists s, (with_thread (Some (length (w_threads w))) (start_reset r)).
      rewrite list_lookup_insert_eq by done. repeat split; try done. cbn.
      rewrite <- Hse. apply (start_clear_unset (start_reset r)).
  - by rewrite reported_records_snoc.
  - done.
Qed.

Lemma print_world_ok sp w line :
  world_ok sp w → world_ok sp (with_env (print line (w_env w)) w).
Proof. done. Qed.

Lemma display_result_info_semas c :
  start_callback_sema (display_result_info c) = start_callback_sema c ∧
  stop_callback_sema (display_result_info c) = stop_callback_sema c.
Proof.
  unfold display_result_info.
  split; apply foldl_preserves; intros b [[nm rm] out];
    by rewrite foldl_preserves.
Qed.

Lemma get_exit_return_code_env c :
  result_info_list (get_exit_return_code c).1 = result_info_list c ∧
  start_callback_sema (get_exit_return_code c).1 = start_callback_sema c ∧
  stop_callback_sema (get_exit_return_code c).1 = stop_callback_sema c.
Proof.
  unfold get_exit_return_code. destruct (bool_decide _); cbn; [|done].
  by rewrite !foldl_preserves.
Qed.

Lemma report_and_exit_spec c :
  result_info_list (report_and_exit c).1 = result_info_list c ∧
  start_callback_sema (report_and_exit c).1 = start_callback_sema c ∧
  stop_callback_sema (report_and_exit c).1 = stop_callback_sema c ∧
  ((report_and_exit c).2 = 1%Z ↔ Exists is_failure (result_info_list c)) ∧
  ((report_and_exit c).2 = 0%Z ↔ ¬ Exists is_failure (result_info_list c)).
Proof.
  unfold report_and_exit.
  pose proof (get_exit_return_code_env (display_result_info c)) as (Hl & H1 & H2).
  pose proof (get_exit_return_code_spec (display_result_info c)) as Hspec.
  pose proof (display_result_info_semas c) as [Hd1 Hd2].
  rewrite display_result_info_list in Hspec, Hl.
  destruct (get_exit_return_code (display_result_info c)) as [c' code].
  cbn [fst snd] in *.
  destruct Hspec as [[-> Hex]|[-> Hnex]]; cbn;
    (split; [done|]); (split; [congruence|]); (split; [congruence|]);
    split; split; try done.
Qed.

(** A thread whose stop event is set has finished [run]. *)
Lemma all_set_all_reported sp w :
  world_ok sp w → all_set sp (w_events w) →
  ∀ t th, w_threads w !! t = Some th → t_pc th = PcDone None.
Proof.
  intros (_ & _ & Hthreads & _) Hall t th Ht.
  destruct (Hthreads t th Ht) as (_ & s & r & Hsp & _ & Hok).
  rewrite (Hall s) in Hok by (by eapply list_elem_of_lookup_2).
  destruct (t_pc th); cbn in Hok; try done;
    try (by destruct Hok as (? & ? & ?));
    try (by destruct Hok as (? & ? & ? & ?)).
  by destruct Hok as [-> _].
Qed.

Lemma all_set_results sp w :
  world_ok sp w → length (w_threads w) = length sp →
  all_set sp (w_events w) →
  result_info_list (w_env w) ≡ₚ expected_record <$> sp.
Proof.
  intros Hw Hlen Hall. pose proof Hw as (_ & _ & _ & Hperm & _).
  rewrite Hperm. rewrite reported_records_all; [done..|].
  intros t th Ht. by rewrite (all_set_all_reported sp w Hw Hall t th Ht).
Qed.

Lemma Exists_is_failure_perm (l1 l2 : list (string * string * string)) :
  l1 ≡ₚ l2 → Exists is_failure l1 ↔ Exists is_failure l2.
Proof. intros Hp. rewrite !Exists_exists. by setoid_rewrite Hp. Qed.

(** The main thread keeps the invariant. *)
Lemma main_step_ok sp p p' :
  proc_ok sp p → main_step p = Some p' → proc_ok sp p'.
Proof.
  intros (Hnd & Hw & Hm) Hstep. split; [done|].
  unfold main_step in Hstep. unfold main_ok in Hm.
  pose proof Hw as (Hstatic & Hlen & _).
  pose proof (Forall2_length _ _ _ Hstatic) as Hlen_r.
  destruct (p_main p) as [k|k| |status] eqn:Hmain.
  - destruct (w_runners (p_world p) !! k) as [r|] eqn:Hr; simplify_eq.
    + pose proof (lookup_lt_Some _ _ _ Hr) as Hlt.
      destruct (start_world_ok sp
                  (with_env (print (name r +:+ " is waiting to start...")
                               (w_env (p_world p))) (p_world p))
                  (length (w_threads (p_world p))) Hnd)
        as [Hw' Hlen']; [by apply print_world_ok|done|lia|].
      split; [done|]. unfold main_ok. by cbn.
    + apply lookup_ge_None in Hr. split; [done|]. unfold main_ok. cbn.
      split; [lia|]. intros j s Hj. lia.
  - destruct Hm as [Hlen_t Hset].
    destruct (w_runners (p_world p) !! k) as [r|] eqn:Hr.
    + destruct (Event_is_set _ _) eqn:His; simplify_eq.
      split; [done|]. unfold main_ok. cbn. split; [done|].
      intros j s Hj Hsp. destruct (decide (j = k)) as [->|Hne].
      * pose proof (Forall2_lookup_lr _ _ _ _ _ _ Hstatic Hsp Hr)
          as (_ & Hse & _).
        by rewrite <- Hse.
      * apply (Hset j); [lia|done].
    + simplify_eq. apply lookup_ge_None in Hr.
      split; [done|]. unfold main_ok. cbn. split; [done|].
      intros s Hin. apply list_elem_of_lookup in Hin as [j Hsp].
      pose proof (lookup_lt_Some _ _ _ Hsp). apply (Hset j); [lia|done].
  - destruct Hm as [Hlen_t Hall].
    pose proof (report_and_exit_spec (w_env (p_world p)))
      as (Hl & H1 & H2 & Hone & Hzero).
    pose proof (all_set_results sp _ Hw Hlen_t Hall) as Hres.
    destruct (report_and_exit (w_env (p_world p))) as [c status] eqn:Hrep.
    cbn [fst snd] in *. simplify_eq.
    destruct Hw as (? & ? & ? & Hperm & Hs1 & Hs2).
    split.
    + unfold world_ok. cbn. rewrite Hl, H1, H2. done.
    + unfold main_ok. cbn. split; [done|]. split; [done|].
      rewrite Hone, Hzero, (Exists_is_failure_perm _ _ Hres).
      split; [done|]. by rewrite <- Forall_Exists_neg.
  - done.
Qed.

(** A worker thread keeps the invariant. *)
Lemma tick_proc_ok sp p t l w' :
  proc_ok sp p → tick t (p_world p) = Some (l, w') →
  proc_ok sp {| p_world := w'; p_main := p_main p |}.
Proof.
  intros (Hnd & Hw & Hm) Htick. split; [done|].
  split; [by eapply tick_world_ok|].
  assert (length (w_threads w') = length (w_threads (p_world p))) as Hlen.
  { unfold tick in Htick.
    destruct (w_threads _ !! t) as [th|]; [|done]. cbn in Htick.
    destruct (w_runners _ !! _) as [r|]; [|done]. cbn in Htick.
    destruct (run_step _) as [[l' f']|]; [|done]. cbn in Htick.
    injection Htick as <- <-. cbn. by rewrite length_insert. }
  pose proof (λ e, tick_events_mono _ _ _ _ e Htick) as Hmono.
  unfold main_ok in *. cbn. rewrite Hlen.
  destruct (p_main p) as [k|k| |status]; [done|..].
  - destruct Hm as [? Hset]. split; [done|]. intros j s Hj Hsp.
    by eapply Hmono, Hset.
  - destruct Hm as [? Hall]. split; [done|]. intros s Hin. by eapply Hmono, Hall.
  - destruct Hm as (? & Hall & ?). split; [done|]. split; [|done].
    intros s Hin. by eapply Hmono, Hall.
Qed.

Lemma proc_step_ok sp tid p :
  proc_ok sp p → proc_ok sp (proc_step tid p).
Proof.
  intros Hok. destruct tid as [|t]; cbn.
  - destruct (main_step p) as [p'|] eqn:Hs; cbn; [by eapply main_step_ok|done].
  - destruct (tick t (p_world p)) as [[l w']|] eqn:Ht; [|done].
    by eapply tick_proc_ok.
Qed.

Lemma proc_exec_ok sp sch p :
  proc_ok sp p → proc_ok sp (proc_exec sch p).
Proof.
  unfold proc_exec. revert p. induction sch as [|tid sch IH]; intros p Hok; [done|].
  cbn. by apply IH, proc_step_ok.
Qed.

(** When [Cli.run] has exited, the result list holds one record per
    runner, in some order, and the status is 1 exactly when one of them
    is a failure. *)
Lemma proc_ok_exit sp p status :
  proc_ok sp p → p_main p = MExit status →
  result_info_list (w_env (p_world p)) ≡ₚ expected_record <$> sp ∧
  (status = 1%Z ↔ Exists is_failure (expected_record <$> sp)).
Proof.
  intros (Hnd & Hw & Hm) Hmain. unfold main_ok in Hm. rewrite Hmain in Hm.
  destruct Hm as (Hlen & Hall & Hone & _). split; [|done].
  by apply all_set_results.
Qed.

(** The runners made by [__init__] have stop events of their own, and are
    what the invariant expects once [Cli.__init__] has registered its
    callbacks. *)
Lemma make_runners_spec specs rets h :
  Forall2 job_returns specs rets →
  ∃ sp,
    Forall2 static_ok sp (register_callbacks <$> (make_runners specs h).1) ∧
    expected_record <$> sp = records_of specs rets ∧
    NoDup (sp_event <$> sp) ∧
    Forall (λ s, sp_event s ∉ dom h) sp.
Proof.
  intros Hret. revert h.
  induction Hret as [|[nm j] [c o] specs rets Hj _ IH]; intros h.
  - exists []. cbn. repeat split; constructor.
  - cbn [make_runners]. unfold BaseJobRunner_init, Event_new.
    set (e := fresh (dom h)). set (h1 := <[e := false]> h).
    destruct (IH h1) as (sp & Hst & Hrec & Hnd & Hfresh).
    destruct (make_runners specs h1) as [rs h2]. cbn [fst] in *.
    assert (He : e ∉ dom h) by apply is_fresh.
    assert (Hsub : ∀ s, s ∈ sp → (sp_event s ∉ dom h) ∧ sp_event s ≠ e).
    { intros s Hin. rewrite Forall_forall in Hfresh. specialize (Hfresh s Hin).
      unfold h1 in Hfresh. rewrite dom_insert_L in Hfresh. set_solver. }
    exists ({| sp_name := nm; sp_code := c; sp_output := o; sp_event := e |} :: sp).
    cbn. split; [|split; [|split]].
    + constructor; [|done]. by repeat split.
    + unfold records_of in *. cbn. by rewrite Hrec.
    + constructor; [|done]. intros Hin.
      apply list_elem_of_fmap in Hin as (s & Heq & Hin).
      by destruct (Hsub s Hin) as [_ Hne].
    + constructor; [done|]. apply Forall_forall. intros s Hin.
      by destruct (Hsub s Hin).
Qed.

Lemma reported_records_nil sp : reported_records sp [] = [].
Proof. by destruct sp. Qed.

(** The invariant holds when [Cli.run] is entered. *)
Lemma Cli_main_ok specs rets :
  Forall2 job_returns specs rets →
  ∃ sp, proc_ok sp (Cli_main specs) ∧
        expected_record <$> sp = records_of specs rets.
Proof.
  intros Hret. destruct (make_runners_spec specs rets ∅ Hret)
    as (sp & Hst & Hrec & Hnd & _).
  exists sp. split; [|done]. unfold Cli_main.
  destruct (make_runners specs ∅) as [rs h]. cbn [fst] in Hst.
  split; [done|]. split; [|done].
  split; [done|]. cbn. split; [lia|]. split; [done|].
  by rewrite reported_records_nil.
Qed.

(** For runners without gates whose jobs return, and every schedule: when
    [Cli.run] has exited, the result list is a permutation of the expected
    records, and the exit status is 1 exactly when one of them lacks
    ["Success"]. *)
Lemma Cli_run_results specs rets sch status :
  Forall2 job_returns specs rets →
  p_main (proc_exec sch (Cli_main specs)) = MExit status →
  result_info_list (w_env (p_world (proc_exec sch (Cli_main specs))))
    ≡ₚ records_of specs rets ∧
  (status = 1%Z ↔ Exists is_failure (records_of specs rets)).
Proof.
  intros Hret Hexit. destruct (Cli_main_ok specs rets Hret) as (sp & Hok & Hrec).
  rewrite <- Hrec. apply proc_ok_exit; [|done]. by apply proc_exec_ok.
Qed.

(** C8 as the specification states it fails: when the second runner
    finishes first, its record is the first of the list, and the middle
    record is the first runner's, with outcome text ["Success"]. *)
Lemma results_not_in_construction_order :
  let p := proc_exec schedule_second_first (Cli_main three_runners) in
  p_main p = MExit 1 ∧
  result_info_list (w_env (p_world p)) =
    [("b", "FAIL (1)", "out b"); ("a", "Success", "out a");
     ("c", "Success", "out c")] ∧
  result_info_list (w_env (p_world p)) ≠
    [("a", "Success", "out a"); ("b", "FAIL (1)", "out b");
     ("c", "Success", "out c")] ∧
  (∀ rec, result_info_list (w_env (p_world p)) !! 1 = Some rec →
          rec.1.2 ≠ "FAIL (1)").
Proof.
  intros p.
  assert (result_info_list (w_env (p_world p)) =
          [("b", "FAIL (1)", "out b"); ("a", "Success", "out a");
           ("c", "Success", "out c")]) as Hres by (vm_compute; reflexivity).
  split; [vm_compute; reflexivity|]. split; [exact Hres|].
  rewrite Hres. split; [discriminate|].
  intros rec Hrec. cbn in Hrec. injection Hrec as <-. discriminate.
Qed.

(** ** Threads of the world as interleavings *)

Section WorldMoves.
Context {E : Type}.
Implicit Types (w : World E) (f : Frame E).

(** A statement executed by thread [t] is a move of its own. *)
Lemma tick_own w t l w' f :
  frame_of w t = Some f →
  tick t w = Some (l, w') →
  frame_of w' t = Some (move Own f).2 ∧ (move Own f).1 = [l].
Proof.
  unfold frame_of, tick. intros Hf Ht.
  destruct (w_threads w !! t) as [th|] eqn:Hth; [|done]. cbn in Hf, Ht.
  destruct (w_runners w !! t_runner th) as [r|] eqn:Hr; [|done]. cbn in Hf, Ht.
  injection Hf as <-.
  destruct (run_step _) as [[l' f']|] eqn:Hs; [|done]. cbn in Ht.
  injection Ht as <- <-. cbn. rewrite Hs. cbn.
  rewrite list_lookup_insert_eq by (by eapply lookup_lt_Some). cbn.
  rewrite list_lookup_insert_eq by (by eapply lookup_lt_Some). cbn.
  by destruct f'.
Qed.

(** A statement executed by a thread of another runner is, for thread [t],
    a change of the callbacks' state followed at most by the setting of
    that other runner's stop event. *)
Lemma tick_other w t t' th th' r' l w' f :
  w_threads w !! t = Some th →
  w_threads w !! t' = Some th' →
  w_runners w !! t_runner th' = Some r' →
  t ≠ t' → t_runner th ≠ t_runner th' →
  frame_of w t = Some f →
  tick t' w = Some (l, w') →
  ∃ ms,
    (∀ e, e ≠ stop_event r' → Forall (leaves_event e) ms) ∧
    (Own ∉ ms) ∧
    interleave ms f = ([], default f (frame_of w' t)) ∧
    is_Some (frame_of w' t).
Proof.
  unfold frame_of, tick. intros Hth Hth' Hr' Hne Hrne Hf Ht.
  rewrite Hth in Hf. cbn in Hf.
  rewrite Hth' in Ht. cbn in Ht. rewrite Hr' in Ht. cbn in Ht.
  destruct (w_runners w !! t_runner th) as [r|] eqn:Hr; [|done]. cbn in Hf.
  injection Hf as <-.
  destruct (run_step _) as [[l' f']|] eqn:Hs; [|done]. cbn in Ht.
  injection Ht as <- <-. cbn.
  rewrite list_lookup_insert_ne by done. rewrite Hth. cbn.
  rewrite list_lookup_insert_ne by done. rewrite Hr. cbn.
  destruct (run_step_events _ _ _ Hs) as [[Heq _]|(p & _ & _ & _ & Heq)];
    cbn in Heq; rewrite Heq.
  - exists [EnvUpdate (f_env f')]. split; [|split; [|split]]; [| |done|by eexists].
    + intros e _. by repeat constructor.
    + intros Hin. apply list_elem_of_singleton in Hin. done.
  - exists [EnvUpdate (f_env f'); EnvSet (stop_event r')].
    split; [|split; [|split]]; [| |done|by eexists].
    + intros e He. repeat constructor. cbn. congruence.
    + intros Hin. apply elem_of_cons in Hin as [Hin|Hin]; [done|].
      apply list_elem_of_singleton in Hin. done.
Qed.

(** [start()] on another runner is, for thread [t], at most the clearing of
    that other runner's stop event. *)
Lemma start_other w t th j rj f :
  w_threads w !! t = Some th →
  w_runners w !! j = Some rj →
  t_runner th ≠ j →
  frame_of w t = Some f →
  ∃ ms,
    (∀ e, e ≠ stop_event rj → Forall (leaves_event e) ms) ∧
    (Own ∉ ms) ∧
    interleave ms f = ([], default f (frame_of (start j w) t)) ∧
    is_Some (frame_of (start j w) t).
Proof.
  unfold frame_of. intros Hth Hj Hne Hf. rewrite Hth in Hf. cbn in Hf.
  destruct (w_runners w !! t_runner th) as [r|] eqn:Hr; [|done]. cbn in Hf.
  injection Hf as <-.
  pose proof (lookup_lt_Some _ _ _ Hj) as Hlt.
  unfold start, start_attrs. rewrite Hj. unfold start_thread. cbn.
  rewrite list_lookup_insert_eq by done. cbn.
  rewrite lookup_app_l by (by eapply lookup_lt_Some). rewrite Hth. cbn.
  rewrite !list_lookup_insert_ne by done. rewrite Hr. cbn.
  unfold start_clear. cbn.
  destruct (Event_is_set (w_events w) (stop_event rj)).
  - exists [EnvClear (stop_event rj)]. split; [|split; [|split]]; [| |done|by eexists].
    + intros e He. repeat constructor. cbn. congruence.
    + intros Hin. apply list_elem_of_singleton in Hin. done.
  - exists []. split; [|split; [|split]]; [| |done|by eexists].
    + intros e _. constructor.
    + by intros Hin%elem_of_nil.
Qed.
End WorldMoves.

(** ** Outcome texts and result codes *)

Lemma has_char_cons c a s :
  has_char c (String a s) = Ascii.eqb a c || has_char c s.
Proof. done. Qed.

Lemma has_char_single c a : a ≠ c → has_char c (String a "") = false.
Proof.
  intros Hne. rewrite has_char_cons.
  apply orb_false_iff. split; [by apply Ascii.eqb_neq|done].
Qed.

Lemma has_char_app c s t :
  has_char c (s +:+ t) = has_char c s || has_char c t.
Proof.
  induction s as [|a s IH]; [done|].
  rewrite append_cons, !has_char_cons. by rewrite IH, orb_assoc.
Qed.

(** A string that contains [needle] contains the first character of
    [needle]. *)
Lemma is_substring_has_char c needle hay :
  is_substring (String c needle) hay → has_char c hay = true.
Proof.
  intros (pre & post & ->). rewrite has_char_app, append_cons, has_char_cons.
  rewrite Ascii.eqb_refl. cbn. by rewrite orb_true_r.
Qed.

(** [str(n)] is made of digits and a minus sign. *)
Lemma pretty_N_go_no_char c x s :
  (∀ d, pretty_N_char d ≠ c) →
  has_char c s = false → has_char c (pretty_N_go x s) = false.
Proof.
  intros Hc. revert s. induction (N.lt_wf_0 x) as [x _ IH]; intros s Hs.
  assert (x = 0 ∨ 0 < x)%N as [->|Hpos] by lia.
  - by rewrite pretty_N_go_0.
  - rewrite pretty_N_go_step by done. apply IH.
    + by apply N.div_lt.
    + rewrite has_char_cons, Hs, orb_false_r. apply Ascii.eqb_neq, Hc.
Qed.

Lemma str_no_char c n :
  (∀ d, pretty_N_char d ≠ c) → c ≠ "-"%char → c ≠ "0"%char →
  has_char c (str n) = false.
Proof.
  intros Hc Hdash Hzero.
  assert (∀ x : N, has_char c (pretty x) = false) as HN.
  { intros x. unfold pretty, pretty_N. case_decide.
    - apply has_char_single. congruence.
    - by apply pretty_N_go_no_char. }
  unfold str. destruct n as [|p|p].
  - change (pretty 0%Z) with "0". apply has_char_single. congruence.
  - change (pretty (Z.pos p)) with (pretty (N.pos p)). apply HN.
  - change (pretty (Z.neg p)) with ("-" +:+ pretty (N.pos p)).
    rewrite has_char_app, HN, orb_false_r.
    apply has_char_single. congruence.
Qed.

Lemma not_digit_S d : pretty_N_char d ≠ "S"%char.
Proof. unfold pretty_N_char. by repeat case_match. Qed.

(** Only the code 0 gives an outcome text with ["Success"] in it. *)
Lemma result_message_of_success (r : Z) :
  is_substring "Success" (result_message_of r) ↔ r = 0%Z.
Proof.
  unfold result_message_of. case_bool_decide as Hr.
  - subst r. split; [done|]. intros _. by exists "", "".
  - split; [|done]. intros Hsub. apply is_substring_has_char in Hsub.
    rewrite !has_char_app in Hsub.
    rewrite (str_no_char "S" r not_digit_S) in Hsub by done.
    discriminate Hsub.
Qed.

(** X1.  Every outcome text that [run] writes tells success from failure:
    the text made at line 98 from a result code contains ["Success"]
    exactly when the code is 0 and ["FAIL"] exactly when it is not, and the
    text written at line 103 for an exception contains ["FAIL"] and not
    ["Success"].  So the substring tests of [get_exit_return_code] and of
    [transition_to_done] decide on the result code. *)
Theorem outcome_text_tells_failure (r : Z) :
  (is_substring "Success" (result_message_of r) ↔ r = 0%Z) ∧
  (is_substring "FAIL" (result_message_of r) ↔ r ≠ 0%Z) ∧
  ¬ is_substring "Success" "FAIL (Exception)" ∧
  is_substring "FAIL" "FAIL (Exception)".
Proof.
  split; [apply result_message_of_success|]. split; [|split].
  - unfold result_message_of. case_bool_decide as Hr.
    + subst r. split; [|done].
      intros Hsub. apply str_contains_spec in Hsub. discriminate Hsub.
    + split; [done|]. intros _. by exists "", (" (" +:+ str r +:+ ")").
  - intros Hsub. apply str_contains_spec in Hsub. discriminate Hsub.
  - by exists "", " (Exception)".
Qed.

Lemma records_of_failure specs rets :
  Forall2 job_returns specs rets →
  Exists is_failure (records_of specs rets) ↔ Exists (λ ret, ret.1 ≠ 0%Z) rets.
Proof.
  unfold records_of.
  induction 1 as [|spec ret specs rets _ _ IH]; cbn.
  - by rewrite !Exists_nil.
  - rewrite !Exists_cons, IH. unfold is_failure at 1. cbn.
    by rewrite result_message_of_success.
Qed.

Lemma records_of_length specs rets :
  Forall2 job_returns specs rets → length (records_of specs rets) = length specs.
Proof.
  intros H. unfold records_of. rewrite length_zip_with.
  apply Forall2_length in H. lia.
Qed.

(** X2.  [Cli.run] on any number of runners without gates whose jobs
    return, under every schedule: when the main thread has exited, the
    result list holds exactly one record per runner (name, outcome text of
    its code, its output), in some order, and the exit status is 1 when
    some job returned a nonzero code and 0 when every job returned 0. *)
Theorem Cli_run_status_follows_codes specs rets sch status :
  Forall2 job_returns specs rets →
  p_main (proc_exec sch (Cli_main specs)) = MExit status →
  let results :=
    result_info_list (w_env (p_world (proc_exec sch (Cli_main specs)))) in
  results ≡ₚ records_of specs rets ∧
  length results = length specs ∧
  (Exists (λ ret, ret.1 ≠ 0%Z) rets → status = 1%Z) ∧
  (Forall (λ ret, ret.1 = 0%Z) rets → status = 0%Z).
Proof.
  intros Hret Hexit results.
  destruct (Cli_main_ok specs rets Hret) as (sp & Hok & Hrec).
  pose proof (proc_exec_ok sp sch _ Hok) as Hok'.
  destruct (proc_ok_exit sp _ status Hok' Hexit) as [Hperm Hone].
  destruct Hok' as (_ & _ & Hm). unfold main_ok in Hm. rewrite Hexit in Hm.
  destruct Hm as (_ & _ & _ & Hzero).
  rewrite Hrec in Hperm, Hone, Hzero. fold results in Hperm.
  split; [done|]. split; [by rewrite Hperm, records_of_length|]. split.
  - intros Hex. apply Hone. by apply records_of_failure.
  - intros Hall. apply Hzero. apply Forall_Exists_neg.
    rewrite records_of_failure by done. apply Forall_Exists_neg.
    eapply Forall_impl; [exact Hall|]. cbn. intros ret H0 Hne. done.
Qed.

Lemma Cli_run_status_follows_codes_witness :
  let results :=
    result_info_list
      (w_env (p_world (proc_exec schedule_second_first (Cli_main three_runners)))) in
  length results = 3 ∧
  p_main (proc_exec schedule_second_first (Cli_main three_runners)) = MExit 1.
Proof.
  intros results.
  destruct (Cli_run_status_follows_codes three_runners
              [(0%Z, "out a"); (1%Z, "out b"); (0%Z, "out c")]
              schedule_second_first 1) as (_ & Hlen & _ & _).
  - repeat constructor.
  - vm_compute. reflexivity.
  - split; [exact Hlen|]. vm_compute. reflexivity.
Defined.

(** ** [Cli.run] comes to its end *)

(** Every statement of [run] brings the thread closer to the end of
    [run]. *)
Lemma run_step_remaining {E : Type} (f : Frame E) l f' :
  run_step f = Some (l, f') →
  thread_remaining (f_pc f') < thread_remaining (f_pc f).
Proof.
  destruct f as [pc s h env]. intros Hs.
  destruct pc; cbn in Hs; repeat (case_match; simplify_eq); simplify_eq;
    cbn; lia.
Qed.

Lemma sum_list_insert (l : list nat) i x y :
  l !! i = Some x → sum_list (<[i := y]> l) + x = sum_list l + y.
Proof.
  revert i. induction l as [|a l IH]; intros [|i] Hi; simplify_eq/=; [lia|].
  specialize (IH i Hi). lia.
Qed.

(** A thread that has not finished [run] can move: the runner has no gate,
    its job returns, and the callbacks of [Cli] find their semaphores
    free. *)
Lemma thread_step_enabled s pc r h c :
  static_ok s r →
  thread_ok s pc r false →
  start_callback_sema c = 1 → stop_callback_sema c = 1 →
  is_Some (run_step (Build_Frame pc r h c)).
Proof.
  intros (Hn & Hse & Hg & Hsc & Hpc & Hjob) Hok Hs1 Hs2.
  destruct pc; cbn in Hok |- *; try done; try by eexists.
  - by rewrite Hg.
  - rewrite Hsc.
    destruct (call_when_runner_starts_returns (name r) (view_of r h) c Hs1)
      as (c' & -> & _). by eexists.
  - rewrite Hjob. by eexists.
  - rewrite Hpc.
    destruct (call_when_runner_stops_returns (name r) (result_message r)
                (output r) (view_of r h) c Hs2) as (c' & -> & _).
    by eexists.
  - by destruct Hok.
Qed.

(** In a state the invariant describes, the main thread has exited or
    some thread can move. *)
Lemma proc_ok_enabled sp p :
  proc_ok sp p →
  (∃ status, p_main p = MExit status) ∨ (∃ tid, enabled tid p).
Proof.
  intros (Hnd & Hw & Hm).
  pose proof Hw as (Hstatic & Hlen & Hthreads & _ & Hs1 & Hs2).
  pose proof (Forall2_length _ _ _ Hstatic) as Hlen_r.
  unfold main_ok in Hm.
  destruct (p_main p) as [k|k| |status] eqn:Hmain; [| | |by left; eexists].
  - right. exists Main. cbn. unfold main_step. rewrite Hmain.
    by destruct (w_runners (p_world p) !! k).
  - destruct Hm as [Hlen_t Hset]. right.
    destruct (w_runners (p_world p) !! k) as [r|] eqn:Hr.
    + destruct (Event_is_set (w_events (p_world p)) (stop_event r)) eqn:His.
      * exists Main. cbn. unfold main_step. by rewrite Hmain, Hr, His.
      * pose proof (lookup_lt_Some _ _ _ Hr) as Hlt.
        destruct (lookup_lt_is_Some_2 (w_threads (p_world p)) k) as [th Hth];
          [lia|].
        destruct (Hthreads k th Hth) as (Hrun & s & r' & Hsp & Hr' & Hok').
        rewrite Hr in Hr'. injection Hr' as <-.
        pose proof (Forall2_lookup_lr _ _ _ _ _ _ Hstatic Hsp Hr) as Hst.
        destruct Hst as (Hn & Hse & Hrest). rewrite <- Hse, His in Hok'.
        exists (Worker k). cbn. unfold tick. rewrite Hth. cbn.
        rewrite Hrun, Hr. cbn.
        destruct (thread_step_enabled s (t_pc th) r (w_events (p_world p))
                    (w_env (p_world p))) as [[l f'] ->]; done.
    + exists Main. cbn. unfold main_step. by rewrite Hmain, Hr.
  - right. exists Main. cbn. unfold main_step. rewrite Hmain.
    destruct (report_and_exit _). by eexists.
Qed.

(** X3.  [Cli.run] on runners without gates whose jobs return cannot get
    stuck: in every state a schedule can lead to, either the main thread
    has exited or some thread can move. *)
Theorem Cli_run_never_deadlocks specs rets sch :
  Forall2 job_returns specs rets →
  (∃ status, p_main (proc_exec sch (Cli_main specs)) = MExit status) ∨
  (∃ tid, enabled tid (proc_exec sch (Cli_main specs))).
Proof.
  intros Hret. destruct (Cli_main_ok specs rets Hret) as (sp & Hok & _).
  apply (proc_ok_enabled sp). by apply proc_exec_ok.
Qed.

(** The bound goes down with every step of a thread that can move. *)
Lemma proc_step_remaining sp tid p :
  proc_ok sp p → enabled tid p →
  remaining (proc_step tid p) < remaining p.
Proof.
  intros (Hnd & Hw & Hm) Hen.
  pose proof Hw as (Hstatic & Hlen & Hthreads & _).
  pose proof (Forall2_length _ _ _ Hstatic) as Hlen_r.
  unfold remaining. destruct tid as [|t]; cbn in Hen |- *.
  - destruct Hen as [p' Hstep]. rewrite Hstep. cbn.
    unfold main_step in Hstep. unfold main_ok in Hm.
    destruct (p_main p) as [k|k| |status] eqn:Hmain.
    + destruct (w_runners (p_world p) !! k) as [r|] eqn:Hr; simplify_eq; cbn.
      * pose proof (lookup_lt_Some _ _ _ Hr) as Hlt.
        unfold start, start_attrs. cbn. rewrite Hr. unfold start_thread. cbn.
        rewrite list_lookup_insert_eq by done. cbn.
        rewrite !length_insert, length_app, fmap_app, sum_list_with_app.
        cbn. lia.
      * apply lookup_ge_None in Hr. lia.
    + destruct Hm as [Hlen_t _].
      destruct (w_runners (p_world p) !! k) as [r|] eqn:Hr.
      * destruct (Event_is_set _ _); simplify_eq. cbn.
        pose proof (lookup_lt_Some _ _ _ Hr) as Hlt. lia.
      * simplify_eq. cbn. lia.
    + destruct (report_and_exit _) as [c status]. simplify_eq. cbn. lia.
    + done.
  - destruct Hen as [[l w'] Htick]. rewrite Htick. cbn.
    unfold tick in Htick.
    destruct (w_threads (p_world p) !! t) as [th|] eqn:Hth; [|done].
    cbn in Htick.
    destruct (w_runners (p_world p) !! t_runner th) as [r|] eqn:Hr; [|done].
    cbn in Htick.
    destruct (run_step _) as [[l' f']|] eqn:Hs; [|done]. cbn in Htick.
    injection Htick as <- <-. cbn.
    pose proof (run_step_remaining _ _ _ Hs) as Hdec. cbn in Hdec.
    rewrite !length_insert, list_fmap_insert. cbn.
    pose proof (sum_list_insert (thread_remaining ∘ t_pc <$> w_threads (p_world p))
                  t (thread_remaining (t_pc th)) (thread_remaining (f_pc f')))
      as Hsum.
    rewrite list_lookup_fmap, Hth in Hsum. specialize (Hsum eq_refl). lia.
Qed.

Lemma all_enabled_length sp sch p :
  proc_ok sp p → all_enabled sch p →
  length sch + remaining (proc_exec sch p) ≤ remaining p.
Proof.
  revert p. induction sch as [|tid sch IH]; intros p Hok Hen; cbn; [lia|].
  destruct Hen as [Hen Hrest].
  pose proof (proc_step_remaining sp tid p Hok Hen) as Hdec.
  specialize (IH (proc_step tid p) (proc_step_ok sp tid p Hok) Hrest).
  unfold proc_exec in *. cbn. lia.
Qed.

Lemma Cli_main_remaining specs :
  remaining (Cli_main specs) = 12 * length specs + 3.
Proof.
  unfold Cli_main.
  assert (∀ h, length (make_runners specs h).1 = length specs) as Hlen.
  { induction specs as [|[nm j] specs IH]; intros h; [done|].
    cbn. unfold BaseJobRunner_init, Event_new.
    specialize (IH (<[fresh (dom h) := false]> h)).
    destruct (make_runners specs _). cbn in *. by rewrite IH. }
  specialize (Hlen ∅). destruct (make_runners specs ∅) as [rs h].
  cbn in Hlen. unfold remaining. cbn. rewrite length_fmap, Hlen. lia.
Qed.

(** X4.  [Cli.run] on [n] runners without gates whose jobs return comes to
    its end: no schedule makes the threads move more than [12 n + 3] times
    (ten statements of [run] per thread, [2 n + 3] steps of the main
    thread), and a schedule whose threads have moved that often has made
    the main thread exit. *)
Theorem Cli_run_terminates specs rets sch :
  Forall2 job_returns specs rets →
  all_enabled sch (Cli_main specs) →
  length sch ≤ 12 * length specs + 3 ∧
  (length sch = 12 * length specs + 3 →
   ∃ status, p_main (proc_exec sch (Cli_main specs)) = MExit status).
Proof.
  intros Hret Hen. destruct (Cli_main_ok specs rets Hret) as (sp & Hok & _).
  pose proof (all_enabled_length sp sch _ Hok Hen) as Hbound.
  rewrite Cli_main_remaining in Hbound. split; [lia|].
  intros Hlen.
  destruct (proc_ok_enabled sp (proc_exec sch (Cli_main specs)))
    as [Hexit|[tid Htid]]; [by apply proc_exec_ok|done|].
  pose proof (proc_step_remaining sp tid _ (proc_exec_ok sp sch _ Hok) Htid).
  lia.
Qed.

Lemma Cli_run_terminates_witness :
  let specs := [("a", job_returning 0 "out a")] in
  let sch := replicate 2 Main ++ replicate 10 (Worker 0) ++ replicate 3 Main in
  length sch = 15 ∧ p_main (proc_exec sch (Cli_main specs)) = MExit 0.
Proof.
  intros specs sch.
  destruct (Cli_run_terminates specs [(0%Z, "out a")] sch) as [_ Hexit].
  - repeat constructor.
  - vm_compute. repeat split; by eexists.
  - split; [reflexivity|]. vm_compute. reflexivity.
Defined.

Lemma Cli_run_never_deadlocks_witness :
  let p := proc_exec [Main; Main; Worker 1] (Cli_main three_runners) in
  (∃ status, p_main p = MExit status) ∨ (∃ tid, enabled tid p).
Proof.
  intros p.
  apply (Cli_run_never_deadlocks three_runners
           [(0%Z, "out a"); (1%Z, "out b"); (0%Z, "out c")]).
  repeat constructor.
Defined.

(** ** A thread of the world is an interleaving *)

Section WorldSimulation.
Context {E : Type}.
Implicit Types (w : World E) (f : Frame E).

Lemma labels_of_app t tr1 tr2 :
  labels_of t (tr1 ++ tr2) = labels_of t tr1 ++ labels_of t tr2.
Proof. unfold labels_of. by rewrite filter_app, fmap_app. Qed.

Lemma labels_of_own t (l : Label) : labels_of t [(t, l)] = [l].
Proof. unfold labels_of. by rewrite filter_cons_True by done. Qed.

Lemma labels_of_other t t' (l : Label) : t' ≠ t → labels_of t [(t', l)] = [].
Proof. intros. unfold labels_of. by rewrite filter_cons_False by done. Qed.

Lemma start_missing j w : w_runners w !! j = None → start j w = w.
Proof.
  intros Hj. unfold start, start_attrs. rewrite Hj.
  unfold start_thread. by rewrite Hj.
Qed.

(** One operation of the world, seen from a thread that is alone on its
    runner. *)
Lemma world_step_sim w t i e f op :
  frame_of w t = Some f →
  (∃ th, w_threads w !! t = Some th ∧ t_runner th = i) →
  stop_event (f_self f) = e →
  (∀ t' th', t' ≠ t → w_threads w !! t' = Some th' → t_runner th' ≠ i) →
  (∀ j r', j ≠ i → w_runners w !! j = Some r' → stop_event r' ≠ e) →
  op ≠ WStart i →
  ∃ ms f1,
    Forall (leaves_event e) ms ∧
    interleave ms f = (labels_of t (world_step op w).1, f1) ∧
    frame_of (world_step op w).2 t = Some f1 ∧
    (∃ th, w_threads (world_step op w).2 !! t = Some th ∧ t_runner th = i) ∧
    stop_event (f_self f1) = e ∧
    (∀ t' th', t' ≠ t → w_threads (world_step op w).2 !! t' = Some th' →
               t_runner th' ≠ i) ∧
    (∀ j r', j ≠ i → w_runners (world_step op w).2 !! j = Some r' →
             stop_event r' ≠ e).
Proof.
  intros Hf (th & Hth & Hi) He Hothers Hevents Hop.
  pose proof Hf as Hf0. unfold frame_of in Hf0. rewrite Hth in Hf0.
  cbn in Hf0. rewrite Hi in Hf0.
  destruct (w_runners w !! i) as [r|] eqn:Hr; [|done]. cbn in Hf0.
  assert (f_self f = r) as Hself by (by injection Hf0 as <-).
  destruct op as [t'|j]; cbn [world_step].
  - destruct (tick t' w) as [[l w']|] eqn:Htick; cbn [fst snd].
    + destruct (decide (t' = t)) as [->|Hne].
      * destruct (tick_own w t l w' f Hf Htick) as [Hf' Hl].
        exists [Own], (move Own f).2.
        unfold tick in Htick. rewrite Hth in Htick. cbn in Htick.
        rewrite Hi, Hr in Htick. cbn in Htick.
        destruct (run_step _) as [[l' f']|] eqn:Hs; [|done]. cbn in Htick.
        injection Htick as <- <-. cbn [w_threads w_runners].
        assert (f = Build_Frame (t_pc th) r (w_events w) (w_env w)) as Hfeq
          by (by injection Hf0 as <-).
        pose proof (run_step_stop_event _ _ _ Hs) as Hse. cbn in Hse.
        split; [by repeat constructor|]. split; [|split; [done|split; [|split; [|split]]]].
        -- rewrite labels_of_own. cbn [interleave].
           destruct (move Own f) as [l1 f1] eqn:Hm.
           cbn in Hl. subst l1. done.
        -- eexists. split; [apply list_lookup_insert_eq; by eapply lookup_lt_Some|].
           by cbn.
        -- subst f. cbn [move]. rewrite Hs. cbn. rewrite Hse. by rewrite <- He.
        -- intros t'' th'' Hne Hl''. rewrite list_lookup_insert_ne in Hl'' by done.
           by eapply Hothers.
        -- intros j r' Hj Hl''. rewrite ?Hi in Hl''.
           rewrite list_lookup_insert_ne in Hl'' by done. by eapply Hevents.
      * pose proof Htick as Htick0.
        unfold tick in Htick.
        destruct (w_threads w !! t') as [th'|] eqn:Hth'; [|done]. cbn in Htick.
        destruct (w_runners w !! t_runner th') as [r'|] eqn:Hr'; [|done].
        cbn in Htick.
        destruct (run_step _) as [[l' f']|] eqn:Hs; [|done]. cbn in Htick.
        injection Htick as <- <-.
        pose proof (Hothers t' th' Hne Hth') as Hrne.
        destruct (tick_other w t t' th th' r' _ _ f Hth Hth' Hr'
                    ltac:(done) ltac:(congruence) Hf Htick0)
          as (ms & Hleave & _ & Hint & [f1 Hf1]).
        rewrite Hf1 in Hint. cbn in Hint.
        exists ms, f1. cbn [w_threads w_runners].
        pose proof (run_step_stop_event _ _ _ Hs) as Hse. cbn in Hse.
        split; [|split; [|split; [done|split; [|split; [|split]]]]].
        -- apply Hleave. intros Heq. symmetry in Heq.
           exact (Hevents _ r' Hrne Hr' Heq).
        -- by rewrite labels_of_other.
        -- exists th. by rewrite list_lookup_insert_ne.
        -- unfold frame_of in Hf1. cbn in Hf1.
           rewrite list_lookup_insert_ne in Hf1 by done.
           rewrite Hth in Hf1. cbn in Hf1. rewrite Hi in Hf1.
           rewrite list_lookup_insert_ne in Hf1 by done.
           rewrite Hr in Hf1. cbn in Hf1. injection Hf1 as <-. cbn.
           by rewrite <- He, Hself.
        -- intros t'' th'' Hne'' Hl''.
           destruct (decide (t'' = t')) as [->|Hne3].
           ++ rewrite list_lookup_insert_eq in Hl'' by (by eapply lookup_lt_Some).
              injection Hl'' as <-. by cbn.
           ++ rewrite list_lookup_insert_ne in Hl'' by done. by eapply Hothers.
        -- intros j r'' Hj Hl''.
           destruct (decide (j = t_runner th')) as [->|Hne3].
           ++ rewrite list_lookup_insert_eq in Hl'' by (by eapply lookup_lt_Some).
              injection Hl'' as <-. rewrite Hse. by eapply Hevents.
           ++ rewrite list_lookup_insert_ne in Hl'' by done. by eapply Hevents.
    + exists [], f. split; [constructor|]. split; [done|]. split; [done|].
      split; [by exists th|]. by split; [|split].
  - assert (j ≠ i) as Hji by congruence. cbn [fst snd].
    destruct (w_runners w !! j) as [rj|] eqn:Hj.
    + destruct (start_other w t th j rj f Hth Hj ltac:(congruence) Hf)
        as (ms & Hleave & _ & Hint & [f1 Hf1]).
      rewrite Hf1 in Hint. cbn in Hint. exists ms, f1.
      pose proof (lookup_lt_Some _ _ _ Hj) as Hlt.
      pose proof (lookup_lt_Some _ _ _ Hth) as Hlt_t.
      assert (w_threads (start j w) =
              w_threads w ++ [Build_Thread j PcEntry]) as Hthreads.
      { unfold start, start_attrs. rewrite Hj. unfold start_thread. cbn.
        by rewrite list_lookup_insert_eq by done. }
      assert (∀ k rk, w_runners (start j w) !! k = Some rk →
                ∃ rk0, w_runners w !! k = Some rk0 ∧
                       stop_event rk = stop_event rk0) as Hrunners.
      { unfold start, start_attrs. rewrite Hj. unfold start_thread. cbn.
        rewrite list_lookup_insert_eq by done. cbn.
        intros k rk Hk. destruct (decide (k = j)) as [->|Hkj].
        - rewrite list_lookup_insert_eq in Hk
            by (by rewrite length_insert).
          injection Hk as <-. by exists rj.
        - rewrite !list_lookup_insert_ne in Hk by done. by exists rk. }
      split; [|split; [|split; [done|split; [|split; [|split]]]]].
      * apply Hleave. intros Heq. symmetry in Heq.
        exact (Hevents _ rj Hji Hj Heq).
      * done.
      * exists th. by rewrite Hthreads, lookup_app_l.
      * unfold frame_of in Hf1. rewrite Hthreads, lookup_app_l, Hth in Hf1
          by done.
        cbn in Hf1. rewrite Hi in Hf1.
        destruct (w_runners (start j w) !! i) as [ri|] eqn:Hri; [|done].
        cbn in Hf1. injection Hf1 as <-. cbn.
        destruct (Hrunners i ri Hri) as (r0 & Hr0 & ->).
        rewrite Hr in Hr0. injection Hr0 as <-. by rewrite <- He, Hself.
      * intros t'' th'' Hne'' Hl''. rewrite Hthreads in Hl''.
        apply lookup_app_Some in Hl'' as [Hl''|[_ Hl'']];
          [by eapply Hothers|].
        apply list_lookup_singleton_Some in Hl'' as [_ <-]. by cbn.
      * intros k rk Hk Hl''. destruct (Hrunners k rk Hl'') as (r0 & Hr0 & ->).
        by eapply Hevents.
    + rewrite (start_missing j w Hj).
      exists [], f. split; [constructor|]. split; [done|]. split; [done|].
      split; [by exists th|]. by split; [|split].
Qed.

Lemma world_exec_sim t i e ops :
  WStart i ∉ ops →
  ∀ w f,
    frame_of w t = Some f →
    (∃ th, w_threads w !! t = Some th ∧ t_runner th = i) →
    stop_event (f_self f) = e →
    (∀ t' th', t' ≠ t → w_threads w !! t' = Some th' → t_runner th' ≠ i) →
    (∀ j r', j ≠ i → w_runners w !! j = Some r' → stop_event r' ≠ e) →
    ∃ ms f',
      Forall (leaves_event e) ms ∧
      interleave ms f = (labels_of t (world_exec ops w).1, f') ∧
      frame_of (world_exec ops w).2 t = Some f' ∧
      sole_thread t (world_exec ops w).2.
Proof.
  induction ops as [|op ops IH]; intros Hnot w f Hf Hth0 He Hothers Hevents.
  - exists [], f. cbn. split; [constructor|]. split; [done|]. split; [done|].
    destruct Hth0 as (th0 & Hth0 & Hi).
    unfold frame_of in Hf. rewrite Hth0 in Hf. cbn in Hf.
    destruct (w_runners w !! t_runner th0) as [r0|] eqn:Hr0; [|done].
    cbn in Hf. injection Hf as <-. cbn in He.
    subst i e. by exists th0, r0.
  - apply not_elem_of_cons in Hnot as [Hop Hnot].
    destruct (world_step_sim w t i e f op Hf Hth0 He Hothers Hevents
                ltac:(congruence))
      as (ms1 & f1 & Hl1 & Hint1 & Hf1 & Hth1 & He1 & Hothers1 & Hevents1).
    cbn [world_exec]. destruct (world_step op w) as [l1 w1]. cbn [fst snd] in *.
    destruct (IH Hnot w1 f1 Hf1 Hth1 He1 Hothers1 Hevents1)
      as (ms2 & f2 & Hl2 & Hint2 & Hf2 & Hsole).
    destruct (world_exec ops w1) as [l2 w2]. cbn [fst snd] in *.
    exists (ms1 ++ ms2), f2. split; [by apply Forall_app|]. split; [|done].
    rewrite interleave_app, Hint1, Hint2. by rewrite labels_of_app.
Qed.

(** X5.  Whatever a program does with the other runners and their threads
    ([start()] calls and statements of [run], in any order), a thread that
    is alone on its runner goes through [run] as an interleaving of its own
    statements with moves of an environment that leaves the stop event of
    its runner alone: what holds of every such interleaving holds of the
    thread in the world. *)
Theorem world_thread_is_interleaving w t f ops :
  sole_thread t w →
  frame_of w t = Some f →
  (∀ th, w_threads w !! t = Some th → WStart (t_runner th) ∉ ops) →
  ∃ ms f',
    Forall (leaves_event (stop_event (f_self f))) ms ∧
    interleave ms f = (labels_of t (world_exec ops w).1, f') ∧
    frame_of (world_exec ops w).2 t = Some f' ∧
    sole_thread t (world_exec ops w).2.
Proof.
  intros (th & r & Hth & Hr & Hothers & Hevents) Hf Hops.
  specialize (Hops th Hth).
  assert (stop_event (f_self f) = stop_event r) as He.
  { unfold frame_of in Hf. rewrite Hth in Hf. cbn in Hf. rewrite Hr in Hf.
    cbn in Hf. by injection Hf as <-. }
  rewrite He.
  apply (world_exec_sim t (t_runner th)); try done. by exists th.
Qed.

End WorldSimulation.

Lemma world_thread_is_interleaving_witness :
  let w := (world_exec [WStart 0; WStart 1] (p_world (Cli_main three_runners))).2 in
  ∃ f ms f',
    frame_of w 0 = Some f ∧
    interleave ms f =
      (labels_of 0 (world_exec [WTick 0; WTick 1; WTick 0] w).1, f') ∧
    frame_of (world_exec [WTick 0; WTick 1; WTick 0] w).2 0 = Some f'.
Proof.
  intros w.
  assert (is_Some (frame_of w 0)) as [f Hf] by (vm_compute; by eexists).
  destruct (world_thread_is_interleaving w 0 f [WTick 0; WTick 1; WTick 0])
    as (ms & f' & _ & Hint & Hf' & _).
  - eexists _, _. split; [reflexivity|]. split; [reflexivity|]. split.
    + intros t' th' Hne Hl. destruct t' as [|[|t']]; [done| |];
        vm_compute in Hl; [|done].
      injection Hl as <-. by vm_compute.
    + intros j r' Hne Hl. destruct j as [|[|[|j]]]; [done| | |];
        vm_compute in Hl; [| |done]; injection Hl as <-; by vm_compute.
  - exact Hf.
  - intros th Hth. vm_compute in Hth. injection Hth as <-. cbn.
    intros Hin. repeat (apply elem_of_cons in Hin as [Hin|Hin]; [done|]).
    by apply elem_of_nil in Hin.
  - by exists f, ms, f'.
Defined.

(** ** The report of [Cli] *)

Lemma string_app_nil_r (s : string) : s +:+ "" = s.
Proof. induction s as [|a s IH]; [done|]. by rewrite append_cons, IH. Qed.

Lemma string_app_assoc (s t u : string) : (s +:+ t) +:+ u = s +:+ (t +:+ u).
Proof. induction s as [|a s IH]; [done|]. by rewrite !append_cons, IH. Qed.

Lemma string_length_app (s t : string) :
  String.length (s +:+ t) = String.length s + String.length t.
Proof. induction s as [|a s IH]; [done|]. rewrite append_cons. cbn. by rewrite IH. Qed.

Lemma split_lines_from_cons cur s :
  ∃ x xs, split_lines_from cur s = x :: xs.
Proof.
  revert cur. induction s as [|c s IH]; intros cur; cbn [split_lines_from].
  - by eexists _, _.
  - destruct (Ascii.eqb c "010"); [by eexists _, _|apply IH].
Qed.

Lemma split_lines_from_join cur s :
  String.concat newline (split_lines_from cur s) = cur +:+ s.
Proof.
  revert cur. induction s as [|c s IH]; intros cur; cbn [split_lines_from].
  - by rewrite string_app_nil_r.
  - destruct (Ascii.eqb c "010") eqn:Hc.
    + apply Ascii.eqb_eq in Hc as ->.
      specialize (IH "").
      destruct (split_lines_from_cons "" s) as (x & xs & Hx).
      rewrite Hx in IH |- *.
      change (String.concat newline (cur :: x :: xs))
        with (cur +:+ newline +:+ String.concat newline (x :: xs)).
      rewrite IH. by rewrite append_nil_l.
    + rewrite IH, string_app_assoc. by rewrite append_cons, append_nil_l.
Qed.

Lemma split_lines_from_no_newline cur s :
  has_char "010" cur = false →
  Forall (λ line, has_char "010" line = false) (split_lines_from cur s).
Proof.
  revert cur. induction s as [|c s IH]; intros cur Hcur; cbn [split_lines_from].
  - by constructor.
  - destruct (Ascii.eqb c "010") eqn:Hc.
    + constructor; [done|]. by apply IH.
    + apply IH. rewrite has_char_app, Hcur, has_char_cons, Hc. done.
Qed.

Lemma split_lines_from_length cur s :
  length (split_lines_from cur s) = S (count_char "010" s).
Proof.
  revert cur. induction s as [|c s IH]; intros cur;
    cbn [split_lines_from count_char]; [done|].
  destruct (Ascii.eqb c "010"); cbn [length]; by rewrite IH.
Qed.

(** X7.  [output.split("\n")] in the report loses nothing: the lines
    printed for an output, joined by newlines, are the output; none of
    them contains a newline; and there is one more of them than there are
    newlines in the output. *)
Theorem report_lines_are_the_output (out : string) :
  String.concat newline (split_lines out) = out ∧
  Forall (λ line, has_char "010" line = false) (split_lines out) ∧
  length (split_lines out) = S (count_char "010" out).
Proof.
  unfold split_lines. split; [|split].
  - by rewrite split_lines_from_join, append_nil_l.
  - by apply split_lines_from_no_newline.
  - apply split_lines_from_length.
Qed.

Lemma hashes_spec n :
  foldl (λ s (_ : nat), s +:+ "#") "" (seq 0 n) = hashes n.
Proof.
  assert (∀ k s, foldl (λ s (_ : nat), s +:+ "#") s (seq k n) = s +:+ hashes n)
    as H.
  { induction n as [|n IH]; intros k s; cbn [seq foldl hashes].
    - by rewrite string_app_nil_r.
    - rewrite IH, string_app_assoc. by rewrite append_cons, append_nil_l. }
  by rewrite H, append_nil_l.
Qed.

Lemma hashes_length n : String.length (hashes n) = n.
Proof. induction n as [|n IH]; [done|]. cbn. by rewrite IH. Qed.

Lemma len_app (s t : string) : len (s +:+ t) = len s + len t.
Proof.
  induction s as [|a s IH]; [done|]. rewrite append_cons. cbn [len].
  rewrite IH. lia.
Qed.

Lemma len_hashes n : len (hashes n) = n.
Proof. induction n as [|n IH]; [done|]. cbn [hashes len]. by rewrite IH. Qed.

Lemma foldl_max_list (l : list nat) (m : nat) :
  foldl (λ m x, m `max` x) m l = m `max` max_list l.
Proof.
  revert m. induction l as [|x l IH]; intros m; cbn; [lia|].
  rewrite IH. lia.
Qed.

Lemma max_list_app_max (l k : list nat) :
  max_list (l ++ k) = max_list l `max` max_list k.
Proof. induction l as [|x l IH]; cbn; [done|]. rewrite IH. lia. Qed.

Lemma max_len_spec (l : list (string * string * string)) (m : nat) :
  foldl (λ m '(nm, rm, out),
           foldl (λ m line, m `max` len line)
             ((m `max` len nm) `max` len rm)
             (split_lines out))
    m l = m `max` longest l.
Proof.
  unfold longest. revert m.
  induction l as [|[[nm rm] out] l IH]; intros m; cbn [foldl flat_map]; [cbn; lia|].
  rewrite IH, max_list_app_max.
  assert (∀ (ls : list string) k,
            foldl (λ m line, m `max` len line) k ls =
            k `max` max_list (len <$> ls)) as ->.
  { induction ls as [|x ls IHls]; intros k; cbn; [lia|]. rewrite IHls. lia. }
  cbn. lia.
Qed.

Lemma print_block_spec sep nm rm out c :
  stdout
    (foldl (λ c line, print ("# " +:+ line) c)
       (print sep (print ("# Result: " +:+ rm) (print sep
          (print ("# " +:+ nm) (print sep (print newline2 c))))))
       (split_lines out)) =
  stdout c ++ report_block sep (nm, rm, out).
Proof.
  assert (∀ (ls : list string) c0,
            stdout (foldl (λ c line, print ("# " +:+ line) c) c0 ls) =
            stdout c0 ++ ((λ line, "# " +:+ line) <$> ls)) as ->.
  { induction ls as [|x ls IH]; intros c0; cbn [foldl fmap list_fmap].
    - by rewrite app_nil_r.
    - rewrite IH. cbn. by rewrite <- app_assoc. }
  cbn [print stdout report_block]. by rewrite <- !app_assoc.
Qed.

Lemma print_blocks_spec sep (l : list (string * string * string)) c :
  stdout
    (foldl (λ c '(nm, rm, out),
              let c := print newline2 c in
              let c := print sep c in
              let c := print ("# " +:+ nm) c in
              let c := print sep c in
              let c := print ("# Result: " +:+ rm) c in
              let c := print sep c in
              foldl (λ c line, print ("# " +:+ line) c) c (split_lines out))
       c l) =
  stdout c ++ flat_map (report_block sep) l.
Proof.
  revert c. induction l as [|[[nm rm] out] l IH]; intros c; cbn [foldl flat_map].
  - by rewrite app_nil_r.
  - rewrite IH, print_block_spec. by rewrite <- app_assoc.
Qed.

Lemma failing_jobs_spec (l : list (string * string * string)) (acc : list string) :
  foldl (λ acc '(nm, rm, out),
           if negb (str_contains "Success" rm) then acc ++ [nm] else acc)
    acc l = acc ++ failing_names l.
Proof.
  unfold failing_names. revert acc.
  induction l as [|[[nm rm] out] l IH]; intros acc; cbn [foldl].
  - by rewrite filter_nil, app_nil_r.
  - rewrite IH. destruct (str_contains "Success" rm) eqn:Hc; cbn [negb].
    + by rewrite filter_cons_False by (cbn; congruence).
    + rewrite filter_cons_True by done. cbn. by rewrite <- app_assoc.
Qed.

Lemma print_names_spec (names : list string) c :
  stdout (foldl (λ c j, print ("     " +:+ j) c) c names) =
  stdout c ++ ((λ j, "     " +:+ j) <$> names).
Proof.
  revert c. induction names as [|j names IH]; intros c; cbn [foldl fmap list_fmap].
  - by rewrite app_nil_r.
  - rewrite IH. cbn. by rewrite <- app_assoc.
Qed.

(** X8.  What [get_exit_return_code] prints and gives: the jobs it lists
    are the names of the records whose outcome text has no ["Success"] in
    it, once per record and in the order of the result list, each after
    five spaces, under ["Failing jobs:"] and followed by their number; with
    no such record it prints ["All tests passed"] and returns, otherwise it
    exits with 1. *)
Theorem get_exit_return_code_prints (c : Cli) :
  let names := failing_names (result_info_list c) in
  (∀ nm, nm ∈ names ↔
         ∃ rm out, (nm, rm, out) ∈ result_info_list c ∧
                   ¬ is_substring "Success" rm) ∧
  stdout (get_exit_return_code c).1 =
    stdout c ++ newline2 ::
      match names with
      | [] => ["All tests passed"]
      | _ => "Failing jobs:" :: ((λ j, "     " +:+ j) <$> names) ++
             [newline +:+ " " +:+ str (Z.of_nat (length names)) +:+ " job(s) failed."]
      end ∧
  (get_exit_return_code c).2 =
    match names with [] => None | _ => Some 1%Z end.
Proof.
  intros names. split.
  - intros nm. unfold names, failing_names. rewrite list_elem_of_fmap. split.
    + intros ([[nm' rm] out] & -> & Hin). apply list_elem_of_filter in Hin as [Hc Hin].
      exists rm, out. split; [done|]. cbn in Hc.
      rewrite <- str_contains_spec. by rewrite Hc.
    + intros (rm & out & Hin & Hno). exists (nm, rm, out). split; [done|].
      apply list_elem_of_filter. split; [|done]. cbn.
      rewrite <- str_contains_spec in Hno. by destruct (str_contains "Success" rm).
  - unfold get_exit_return_code. rewrite failing_jobs_spec, app_nil_l.
    fold names. destruct names as [|nm names'] eqn:Hn.
    + rewrite bool_decide_eq_false_2 by (cbn; lia).
      cbn [fst snd print stdout]. split; [|done]. by rewrite <- !app_assoc.
    + rewrite bool_decide_eq_true_2 by (cbn; lia).
      cbn [fst snd print stdout]. rewrite print_names_spec.
      cbn [print stdout]. split; [|done].
      by rewrite <- !app_assoc.
Qed.

(** ** [DummyRunner] *)

Section DummyFacts.
Context {E : Type}.
Implicit Types (f : DFrame E) (ms : list (DMove E)).

Lemma dummy_interleave_app ms1 ms2 f :
  dummy_interleave (ms1 ++ ms2) f =
  let '(l1, f1) := dummy_interleave ms1 f in
  let '(l2, f2) := dummy_interleave ms2 f1 in
  (l1 ++ l2, f2).
Proof.
  revert f. induction ms1 as [|m ms1 IH]; intros f; simpl.
  - by destruct (dummy_interleave ms2 f).
  - destruct (dummy_move m f) as [l1 f1]. rewrite IH.
    destruct (dummy_interleave ms1 f1) as [l2 f2].
    destruct (dummy_interleave ms2 f2) as [l3 f3].
    by rewrite app_assoc.
Qed.

Lemma dummy_interleave_snoc ms m f :
  (dummy_interleave (ms ++ [m]) f).2 =
  (dummy_move m (dummy_interleave ms f).2).2.
Proof.
  rewrite dummy_interleave_app. destruct (dummy_interleave ms f) as [l1 f1].
  simpl. by destruct (dummy_move m f1).
Qed.

(** A property of the moves made so far and of the frame that holds at the
    start and that every allowed move keeps holds along every allowed
    interleaving. *)
Lemma dummy_interleave_invariant (ok : DMove E → Prop)
    (P : list (DMove E) → DFrame E → Prop) f0 :
  P [] f0 →
  (∀ ms f m, ok m → P ms f → P (ms ++ [m]) (dummy_move m f).2) →
  ∀ ms, Forall ok ms → P ms (dummy_interleave ms f0).2.
Proof.
  intros H0 Hstep ms. induction ms as [|m ms IH] using rev_ind; intros Hok.
  - done.
  - apply Forall_app in Hok as [Hok Hm]. rewrite Forall_singleton in Hm.
    rewrite dummy_interleave_snoc. apply Hstep; [done|]. by apply IH.
Qed.

Lemma unterminated_inv_mono nm e (okr okr' : Z → Prop) f :
  (∀ r, okr r → okr' r) →
  unterminated_inv nm e okr f → unterminated_inv nm e okr' f.
Proof.
  intros Hsub (Hn & Hk & Hr & Hpc). split; [done|]. split; [done|].
  split; [by apply Hsub|].
  destruct (d_pc f) as [pc| | | | | | | |]; try done.
  destruct pc as [| | | | | | | | |[|]|[|]|[|]|[|]]; try done;
    destruct_and?; split_and?; auto.
Qed.

Lemma unterminated_inv_move nm e (okr : Z → Prop) m f :
  m ≠ DTerminateFlag →
  (∀ r, m = DSetResult r → okr r) →
  unterminated_inv nm e okr f →
  unterminated_inv nm e okr (dummy_move m f).2.
Proof.
  intros Hm Hset (Hn & Hk & Hr & Hpc). destruct f as [pc d h env].
  cbn [d_pc d_self d_events d_env] in *.
  destruct m as [| | |r|e'|e'|env']; try done.
  { unfold dummy_move, DummyRunner_run_step, job_ends.
    cbn [d_pc d_self d_events d_env].
    destruct pc as [pc| | | | | | | |];
      [destruct pc as [| | | | | | | | |[|]|[|]|[|]|[|]]| | | | | | | |];
      try done;
      cbn [run_step f_pc f_self f_events f_env]; rewrite ?Hk;
      repeat case_match; simplify_eq;
      unfold unterminated_inv; cbn;
      destruct_and?; split_and?; try done; auto; try congruence. }
  all: unfold dummy_move, terminate_set; cbn [d_pc d_self d_events d_env];
    rewrite ?Hk; unfold unterminated_inv; cbn; split_and?; auto.
Qed.
End DummyFacts.

Section DummyTheorems.
Context {E : Type}.
Implicit Types (f : DFrame E) (ms : list (DMove E)).

Lemma dummy_interleave_snoc_full ms m f :
  dummy_interleave (ms ++ [m]) f =
  ((dummy_interleave ms f).1 ++ (dummy_move m (dummy_interleave ms f).2).1,
   (dummy_move m (dummy_interleave ms f).2).2).
Proof.
  rewrite dummy_interleave_app. destruct (dummy_interleave ms f) as [l1 f1].
  simpl. destruct (dummy_move m f1). by rewrite app_nil_r.
Qed.

(** The same with the labels: a property of the labels so far and of the
    frame. *)
Lemma dummy_interleave_trace_invariant (ok : DMove E → Prop)
    (P : list Label → DFrame E → Prop) f0 :
  P [] f0 →
  (∀ tr f m, ok m → P tr f → P (tr ++ (dummy_move m f).1) (dummy_move m f).2) →
  ∀ ms, Forall ok ms →
        P (dummy_interleave ms f0).1 (dummy_interleave ms f0).2.
Proof.
  intros H0 Hstep ms. induction ms as [|m ms IH] using rev_ind; intros Hok.
  - done.
  - apply Forall_app in Hok as [Hok Hm]. rewrite Forall_singleton in Hm.
    rewrite dummy_interleave_snoc_full. cbn [fst snd].
    apply Hstep; [done|]. by apply IH.
Qed.

Lemma terminated_inv_move e m f :
  terminated_inv e f → terminated_inv e (dummy_move m f).2.
Proof.
  intros (Hk & Hpc). destruct f as [pc d h env].
  cbn [d_pc d_self d_events d_env] in *.
  destruct m as [| | |r|e'|e'|env'].
  { unfold dummy_move, DummyRunner_run_step, job_ends.
    cbn [d_pc d_self d_events d_env].
    destruct pc as [pc| | | | | | | |];
      [destruct pc as [| | | | | | | | |[|]|[|]|[|]|[|]]| | | | | | | |];
      try done;
      cbn [run_step f_pc f_self f_events f_env]; rewrite ?Hk;
      repeat case_match; simplify_eq;
      unfold terminated_inv; cbn;
      destruct_and?; split_and?; try done; auto; try congruence.
    all: match goal with H : result _ = 255%Z |- _ => rewrite H end;
      by vm_compute. }
  all: unfold dummy_move, terminate_set; cbn [d_pc d_self d_events d_env];
    rewrite ?Hk; unfold terminated_inv; cbn; split_and?; auto.
  all: destruct pc as [pc| | | | | | | |];
    [destruct pc as [| | | | | | | | |[|]|[|]|[|]|[|]]| | | | | | | |];
    try done.
Qed.

Lemma missing_event_inv_move r0 o0 m f :
  missing_event_inv r0 o0 f → missing_event_inv r0 o0 (dummy_move m f).2.
Proof.
  intros (Hk & Hpc). destruct f as [pc d h env].
  cbn [d_pc d_self d_events d_env] in *.
  destruct m as [| | |r|e'|e'|env'].
  { unfold dummy_move, DummyRunner_run_step, job_ends.
    cbn [d_pc d_self d_events d_env].
    destruct pc as [pc| | | | | | | |];
      [destruct pc as [| | | | | | | | |[|]|[|]|[|]|[|]]| | | | | | | |];
      try done;
      cbn [run_step f_pc f_self f_events f_env]; rewrite ?Hk;
      repeat case_match; simplify_eq;
      unfold missing_event_inv; cbn;
      destruct_and?; split_and?; try done; auto; try congruence.
    all: subst; reflexivity. }
  all: unfold dummy_move, terminate_set; cbn [d_pc d_self d_events d_env];
    rewrite ?Hk; unfold missing_event_inv; cbn; split_and?; auto.
Qed.
Lemma unterminated_interleave nm e jr f1 ms :
  before_job (d_pc f1) →
  name (base (d_self f1)) = nm →
  setup_kwargs (base (d_self f1)) !! "job_mocking_event" = Some (PyEvent e) →
  job_result (d_self f1) = jr →
  DTerminateFlag ∉ ms →
  unterminated_inv nm e (λ r, r = jr ∨ DSetResult r ∈ ms)
    (dummy_interleave ms f1).2.
Proof.
  intros Hpc Hn Hk Hjr Hnot.
  apply (dummy_interleave_invariant (λ m, m ≠ DTerminateFlag)
           (λ ms f, unterminated_inv nm e (λ r, r = jr ∨ DSetResult r ∈ ms) f)).
  - split; [done|]. split; [done|]. split; [by left|].
    destruct (d_pc f1) as [pc| | | | | | | |]; try done.
    by destruct pc.
  - intros ms0 f m Hm Hinv. apply unterminated_inv_move; [done| |].
    + intros r ->. right. apply elem_of_app. right. by apply list_elem_of_singleton.
    + eapply unterminated_inv_mono; [|exact Hinv].
      intros r [?|?]; [by left|]. right. apply elem_of_app. by left.
  - apply Forall_forall. by intros m Hin ->.
Qed.

(** X9.  A call of [DummyRunner.job] during which line 724 of
    [terminate()] is not executed gives the result set with [set_result]:
    whatever else happens meanwhile (calls of [set_result], line 723 of
    [terminate()], events set or cleared), when [run] has returned, [result]
    is a value [job_result] has had, [output] is ["Output from "] and the
    name, the outcome text is the one of that result, and [job_ran] is
    set.  A [terminate()] that was over before line 710 is forgotten:
    [terminated] may well be set at the start. *)
Theorem unterminated_job_gives_job_result e f1 ms :
  before_job (d_pc f1) →
  setup_kwargs (base (d_self f1)) !! "job_mocking_event" = Some (PyEvent e) →
  DTerminateFlag ∉ ms →
  d_pc (dummy_interleave ms f1).2 = DRun (PcDone None) →
  let d := d_self (dummy_interleave ms f1).2 in
  (result (base d) = job_result (d_self f1) ∨
   DSetResult (result (base d)) ∈ ms) ∧
  output (base d) = "Output from " +:+ name (base (d_self f1)) ∧
  result_message (base d) = result_message_of (result (base d)) ∧
  job_ran d = true.
Proof.
  intros Hpc Hk Hnot Hdone d.
  destruct (unterminated_interleave _ e _ f1 ms Hpc eq_refl Hk eq_refl Hnot)
    as (_ & _ & _ & Hinv).
  rewrite Hdone in Hinv. exact Hinv.
Qed.

Lemma terminated_interleave e f1 ms :
  terminated_inv e f1 → terminated_inv e (dummy_interleave ms f1).2.
Proof.
  intros H1.
  apply (dummy_interleave_invariant (λ _, True) (λ _ f, terminated_inv e f)).
  - done.
  - intros ms0 f m _ Hinv. by apply terminated_inv_move.
  - by apply Forall_forall.
Qed.

(** X10.  A call of [DummyRunner.job] in which [terminated] is set after
    line 710 and before the test of line 714 gives the result of a
    terminated job: whatever happens meanwhile, when [run] has returned,
    [result] is 255, [output] is ["Job was terminated by user"] and the
    outcome text is ["FAIL (255)"], whatever was set with [set_result]. *)
Theorem terminated_job_gives_255 e f1 ms :
  in_job_before_check (d_pc f1) →
  terminated (d_self f1) = true →
  setup_kwargs (base (d_self f1)) !! "job_mocking_event" = Some (PyEvent e) →
  d_pc (dummy_interleave ms f1).2 = DRun (PcDone None) →
  let b := base (d_self (dummy_interleave ms f1).2) in
  result b = 255%Z ∧ output b = "Job was terminated by user" ∧
  result_message b = "FAIL (255)".
Proof.
  intros Hpc Ht Hk Hdone b.
  destruct (terminated_interleave e f1 ms) as (_ & Hinv).
  { split; [done|]. destruct (d_pc f1) as [pc| | | | | | | |]; done. }
  rewrite Hdone in Hinv. exact Hinv.
Qed.

Lemma missing_event_interleave r0 o0 f0 ms :
  missing_event_inv r0 o0 f0 →
  missing_event_inv r0 o0 (dummy_interleave ms f0).2.
Proof.
  intros H0.
  apply (dummy_interleave_invariant (λ _, True)
           (λ _ f, missing_event_inv r0 o0 f)).
  - done.
  - intros ms0 f m _ Hinv. by apply missing_event_inv_move.
  - by apply Forall_forall.
Qed.

(** X11.  [run] on a [DummyRunner] for which [set_args] has not given a
    ['job_mocking_event']: line 712 raises [KeyError], which [run]
    contains.  Whatever happens meanwhile, when [run] has returned the
    outcome text is ["FAIL (Exception)"], [output] is what it was followed
    by a newline and ["KeyError: 'job_mocking_event'"], [result] is what it
    was and [job_ran] is not set; and line 723 of [terminate()] raises. *)
Theorem missing_event_gives_exception f0 ms :
  d_pc f0 = DRun PcEntry →
  setup_kwargs (base (d_self f0)) !! "job_mocking_event" = None →
  d_pc (dummy_interleave ms f0).2 = DRun (PcDone None) →
  let d := d_self (dummy_interleave ms f0).2 in
  result (base d) = result (base (d_self f0)) ∧
  output (base d) =
    output (base (d_self f0)) +:+ newline +:+ "KeyError: 'job_mocking_event'" ∧
  result_message (base d) = "FAIL (Exception)" ∧
  job_ran d = false ∧
  terminate_set d (d_events (dummy_interleave ms f0).2) = None.
Proof.
  intros Hpc Hk Hdone d.
  destruct (missing_event_interleave (result (base (d_self f0)))
              (output (base (d_self f0))) f0 ms) as (Hk' & Hinv).
  { split; [done|]. by rewrite Hpc. }
  rewrite Hdone in Hinv. destruct Hinv as (Hr & Ho & Hj & Hm).
  split_and?; try done. unfold terminate_set. fold d in Hk'. by rewrite Hk'.
Qed.

Lemma waiting_inv_move e m tr f :
  m ≠ DEnvSet e → m ≠ DTerminateSet →
  waiting_inv e f ∧ Forall (λ l, is_before_job l = true) tr →
  waiting_inv e (dummy_move m f).2 ∧
  Forall (λ l, is_before_job l = true) (tr ++ (dummy_move m f).1).
Proof.
  intros Hm1 Hm2 [(Hk & He & Hpc) Htr]. destruct f as [pc d h env].
  cbn [d_pc d_self d_events d_env] in *.
  destruct m as [| | |r|e'|e'|env']; try done.
  { unfold dummy_move, DummyRunner_run_step, job_ends.
    cbn [d_pc d_self d_events d_env].
    destruct pc as [pc| | | | | | | |];
      [destruct pc as [| | | | | | | | |[|]|[|]|[|]|[|]]| | | | | | | |];
      try done;
      cbn [run_step f_pc f_self f_events f_env]; rewrite ?Hk, ?He;
      repeat case_match; simplify_eq;
      unfold waiting_inv; cbn [fst snd d_pc d_self d_events d_env];
      rewrite ?app_nil_r, ?Forall_app, ?Forall_singleton;
      cbn [base with_base with_job_ran with_terminated job_ran terminated
           setup_kwargs running with_running is_before_job];
      destruct_and?; split_and?; try done; auto. }
  all: unfold dummy_move; cbn [fst snd d_pc d_self d_events d_env];
    rewrite ?app_nil_r; unfold waiting_inv;
    cbn [fst snd d_pc d_self d_events d_env base set_result terminate_flag
         with_job_result with_terminated setup_kwargs running job_ran];
    split_and?; try done.
  - rewrite Event_is_set_set_ne; [done|]. congruence.
  - destruct (decide (e' = e)) as [->|Hne].
    + apply Event_is_set_clear.
    + by rewrite Event_is_set_clear_ne.
Qed.

(** X12.  [DummyRunner.job] waits for its mocking event: as long as
    nobody sets the event (neither directly nor through [terminate()]),
    [run] does not get past line 712.  It has executed nothing but the
    statements before the call of [job()], so the stop callback has not
    been called and the stop event has not been set by it; it has not
    returned; and when it is at line 712, [running] is set and [job_ran]
    is not. *)
Theorem job_waits_for_mocking_event e f0 ms :
  d_pc f0 = DRun PcEntry →
  setup_kwargs (base (d_self f0)) !! "job_mocking_event" = Some (PyEvent e) →
  Event_is_set (d_events f0) e = false →
  Forall (λ m, m ≠ DEnvSet e ∧ m ≠ DTerminateSet) ms →
  let tr := (dummy_interleave ms f0).1 in
  let f := (dummy_interleave ms f0).2 in
  Forall (λ l, is_before_job l = true) tr ∧
  d_pc f ≠ DRun (PcDone None) ∧
  Event_is_set (d_events f) e = false ∧
  (d_pc f = DJobWait →
   running (base (d_self f)) = true ∧ job_ran (d_self f) = false).
Proof.
  intros Hpc Hk He Hok tr f.
  destruct (dummy_interleave_trace_invariant
              (λ m, m ≠ DEnvSet e ∧ m ≠ DTerminateSet)
              (λ tr f, waiting_inv e f ∧ Forall (λ l, is_before_job l = true) tr)
              f0) with (ms := ms) as [(_ & He' & Hinv) Htr]; [| |done|].
  - split; [|constructor]. split; [done|]. split; [done|]. by rewrite Hpc.
  - intros tr0 f1 m [Hm1 Hm2] Hinv. by apply waiting_inv_move.
  - fold f in He', Hinv. fold tr in Htr. split; [done|]. split; [|split; [done|]].
    + intros Hdone. by rewrite Hdone in Hinv.
    + intros Hwait. by rewrite Hwait in Hinv.
Qed.
End DummyTheorems.

(** *** [run] on a [DummyRunner], statement by statement *)

Section DummySteps.
Context {E : Type}.
Implicit Types (f : DFrame E) (ms : list (DMove E)) (d : DummyRunner E).

Lemma dummy_own_step f l f' ms :
  DummyRunner_run_step f = Some (l, f') →
  (dummy_interleave (DOwn :: ms) f).2 = (dummy_interleave ms f').2.
Proof.
  intros H. cbn [dummy_interleave dummy_move]. rewrite H.
  by destruct (dummy_interleave ms f').
Qed.

Lemma dummy_env_step m f ms :
  m ≠ DOwn →
  (dummy_interleave (m :: ms) f).2 = (dummy_interleave ms (dummy_move m f).2).2.
Proof.
  intros _. cbn [dummy_interleave]. destruct (dummy_move m f) as [l1 f1].
  cbn [snd]. by destruct (dummy_interleave ms f1).
Qed.

(** Lines 87-94, when the gate is open and the start callback returns. *)
Lemma dummy_prelude d h env ms :
  gate_open (base d) h →
  start_callback_returns (base d) →
  ∃ env',
    (dummy_interleave (replicate 4 DOwn ++ ms) (Build_DFrame (DRun PcEntry) d h env)).2 =
    (dummy_interleave ms
       (Build_DFrame (DRun PcJob)
          (with_base (with_running true (with_running false (base d))) d)
          h env')).2.
Proof.
  intros Hgate Hstart. cbn [replicate app].
  erewrite dummy_own_step by reflexivity.
  assert (DummyRunner_run_step
            (Build_DFrame (DRun PcGate) (with_base (with_running false (base d)) d) h env) =
          Some ([LGatePassed (start_gating_event (base d))],
                Build_DFrame (DRun PcSetRunning)
                  (with_base (with_running false (base d)) d) h env)) as Hg.
  { unfold gate_open in Hgate. unfold DummyRunner_run_step. cbn.
    destruct (start_gating_event (base d)) as [g|]; [by rewrite Hgate|done]. }
  rewrite (dummy_own_step _ _ _ _ Hg).
  erewrite dummy_own_step by reflexivity.
  set (b1 := with_running true (with_running false (base d))).
  assert (∃ l env1,
            DummyRunner_run_step
              (Build_DFrame (DRun PcStartCallback)
                 (with_base b1 (with_base (with_running false (base d)) d)) h env) =
            Some (l, Build_DFrame (DRun PcJob) (with_base b1 d) h env1))
    as (l & env1 & Hcb).
  { unfold DummyRunner_run_step. cbn.
    destruct (start_callback (base d)) as [cb|] eqn:Hcb; [|by eexists _, _].
    match goal with
    | |- context [cb ?a ?b ?c] =>
        destruct (Hstart cb a b c Hcb) as [env' ->]
    end.
    by eexists _, _. }
  exists env1. by rewrite (dummy_own_step _ _ _ _ Hcb).
Qed.

(** Lines 710-717, when the mocking event is set and [terminated] stays
    as line 710 leaves it. *)
Lemma dummy_job_returns d h env e ms :
  setup_kwargs (base d) !! "job_mocking_event" = Some (PyEvent e) →
  Event_is_set h e = true →
  (dummy_interleave (replicate 7 DOwn ++ ms) (Build_DFrame (DRun PcJob) d h env)).2 =
  (dummy_interleave ms
     (Build_DFrame
        (DRun (PcUnpack (job_result d) ("Output from " +:+ name (base d))))
        (with_job_ran true (with_job_ran false (with_terminated false d)))
        h env)).2.
Proof.
  intros Hk He. cbn [replicate app].
  do 3 erewrite dummy_own_step by reflexivity.
  assert (DummyRunner_run_step
            (Build_DFrame DJobWait (with_job_ran false (with_terminated false d)) h env) =
          Some ([], Build_DFrame DJobSetRan
                      (with_job_ran false (with_terminated false d)) h env)) as Hw.
  { unfold DummyRunner_run_step. cbn. by rewrite Hk, He. }
  rewrite (dummy_own_step _ _ _ _ Hw).
  by do 3 erewrite dummy_own_step by reflexivity.
Qed.

(** Lines 108-111, when the stop callback returns. *)
Lemma dummy_finally d h env ms :
  stop_callback_returns (base d) →
  ∃ env',
    (dummy_interleave (replicate 3 DOwn ++ ms)
       (Build_DFrame (DRun (PcFinally None)) d h env)).2 =
    (dummy_interleave ms
       (Build_DFrame (DRun (PcDone None))
          (with_base (with_running false (base d)) d)
          (Event_set h (stop_event (base d))) env')).2.
Proof.
  intros Hstop. cbn [replicate app].
  erewrite dummy_own_step by reflexivity.
  set (b1 := with_running false (base d)).
  assert (∃ l env1,
            DummyRunner_run_step
              (Build_DFrame (DRun (PcStopCallback None)) (with_base b1 d) h env) =
            Some (l, Build_DFrame (DRun (PcSetStopEvent None)) (with_base b1 d) h env1))
    as (l & env1 & Hcb).
  { unfold DummyRunner_run_step. cbn.
    destruct (stop_callback (base d)) as [cb|] eqn:Hcb; [|by eexists _, _].
    match goal with
    | |- context [cb ?a ?b ?c ?x ?y] =>
        destruct (Hstop cb a b c x y Hcb) as [env' ->]
    end.
    by eexists _, _. }
  change (dummy_interleave (DOwn :: DOwn :: ms) ?f).2 with
    (dummy_interleave (DOwn :: DOwn :: ms)
       (Build_DFrame (DRun (PcStopCallback None)) (with_base b1 d) h env)).2.
  rewrite (dummy_own_step _ _ _ _ Hcb).
  exists env1. by erewrite dummy_own_step by reflexivity.
Qed.

(** Lines 97-111 after the call of [job()] has returned, when the stop
    callback returns. *)
Lemma dummy_finish d h env r out ms :
  stop_callback_returns (base d) →
  ∃ env',
    (dummy_interleave (replicate 5 DOwn ++ ms)
       (Build_DFrame (DRun (PcUnpack r out)) d h env)).2 =
    (dummy_interleave ms
       (Build_DFrame (DRun (PcDone None))
          (with_base
             (with_running false
                (with_result_message (result_message_of r)
                   (with_output out (with_result r (base d))))) d)
          (Event_set h (stop_event (base d))) env')).2.
Proof.
  intros Hstop.
  change (replicate 5 DOwn ++ ms) with (DOwn :: DOwn :: replicate 3 DOwn ++ ms).
  assert (DummyRunner_run_step (Build_DFrame (DRun (PcUnpack r out)) d h env) =
          Some ([LAssignResult r out],
                Build_DFrame (DRun PcMessage)
                  (with_base (with_output out (with_result r (base d))) d) h env))
    as H1 by reflexivity.
  rewrite (dummy_own_step _ _ _ _ H1).
  set (d2 := with_base
               (with_result_message (result_message_of r)
                  (with_output out (with_result r (base d)))) d).
  assert (DummyRunner_run_step
            (Build_DFrame (DRun PcMessage)
               (with_base (with_output out (with_result r (base d))) d) h env) =
          Some ([LAssignMessage (result_message_of r)],
                Build_DFrame (DRun (PcFinally None)) d2 h env))
    as H2 by reflexivity.
  rewrite (dummy_own_step _ _ _ _ H2).
  destruct (dummy_finally d2 h env ms Hstop) as [env' Hfin].
  exists env'. exact Hfin.
Qed.
End DummySteps.

Section DummyRuns.
Context {E : Type}.
Implicit Types (d : DummyRunner E).

(** X13.  [run] called directly on a [DummyRunner] whose mocking event is
    set, whose gate is open and whose callbacks return comes to its end in
    sixteen statements: it returns, [result], [output] and the outcome text
    are those of [job_result], [running] is reset, [job_ran] is set,
    [terminated] is not, and the stop event is set. *)
Theorem DummyRunner_run_completes d h env e :
  gate_open (base d) h →
  start_callback_returns (base d) →
  stop_callback_returns (base d) →
  setup_kwargs (base d) !! "job_mocking_event" = Some (PyEvent e) →
  Event_is_set h e = true →
  let f := (dummy_interleave (replicate 16 DOwn)
              (Build_DFrame (DRun PcEntry) d h env)).2 in
  d_pc f = DRun (PcDone None) ∧
  result (base (d_self f)) = job_result d ∧
  output (base (d_self f)) = "Output from " +:+ name (base d) ∧
  result_message (base (d_self f)) = result_message_of (job_result d) ∧
  running (base (d_self f)) = false ∧
  job_ran (d_self f) = true ∧
  terminated (d_self f) = false ∧
  Event_is_set (d_events f) (stop_event (base d)) = true.
Proof.
  intros Hgate Hstart Hstop Hk He f. subst f.
  change (replicate 16 DOwn)
    with (replicate 4 DOwn ++ replicate 7 (@DOwn E) ++ replicate 5 DOwn ++ []).
  destruct (dummy_prelude d h env (replicate 7 DOwn ++ replicate 5 DOwn ++ [])
              Hgate Hstart) as [env1 ->].
  match goal with
  | |- context [dummy_interleave _ (Build_DFrame (DRun PcJob) ?d1 h env1)] =>
      rewrite (dummy_job_returns d1 h env1 e (replicate 5 DOwn ++ []) Hk He)
  end.
  match goal with
  | |- context [dummy_interleave _ (Build_DFrame (DRun (PcUnpack ?r ?out)) ?d2 h env1)] =>
      destruct (dummy_finish d2 h env1 r out [] Hstop) as [env2 ->]
  end.
  cbn [dummy_interleave snd d_pc d_self d_events].
  split_and?; try reflexivity. apply Event_is_set_set.
Qed.

(** X14.  [terminate()] can miss the job it is meant to end.  Its two
    statements are not one step: when the thread of [run], waiting at line
    712, goes on to the test of line 714 after line 723 has set the mocking
    event and before line 724 has set [terminated], the job returns
    [job_result] as if nobody had terminated it, and [terminated] is left
    set when [run] has returned. *)
Theorem terminate_can_miss_the_job d h env e :
  terminated d = false →
  setup_kwargs (base d) !! "job_mocking_event" = Some (PyEvent e) →
  stop_callback_returns (base d) →
  let f := (dummy_interleave
              ([DTerminateSet; DOwn; DOwn; DOwn; DTerminateFlag; DOwn]
               ++ replicate 5 DOwn)
              (Build_DFrame DJobWait d h env)).2 in
  d_pc f = DRun (PcDone None) ∧
  result (base (d_self f)) = job_result d ∧
  output (base (d_self f)) = "Output from " +:+ name (base d) ∧
  result_message (base (d_self f)) = result_message_of (job_result d) ∧
  terminated (d_self f) = true.
Proof.
  intros Ht Hk Hstop f. subst f.
  cbn [app]. rewrite dummy_env_step by done.
  assert ((dummy_move DTerminateSet (Build_DFrame DJobWait d h env)).2 =
          Build_DFrame DJobWait d (Event_set h e) env) as ->.
  { unfold dummy_move, terminate_set. cbn. by rewrite Hk. }
  assert (DummyRunner_run_step (Build_DFrame DJobWait d (Event_set h e) env) =
          Some ([], Build_DFrame DJobSetRan d (Event_set h e) env)) as Hw.
  { unfold DummyRunner_run_step. cbn. by rewrite Hk, Event_is_set_set. }
  rewrite (dummy_own_step _ _ _ _ Hw).
  erewrite dummy_own_step by reflexivity.
  assert (DummyRunner_run_step
            (Build_DFrame DJobCheck (with_job_ran true d) (Event_set h e) env) =
          Some ([], Build_DFrame DJobReturn (with_job_ran true d)
                      (Event_set h e) env)) as Hc.
  { unfold DummyRunner_run_step. cbn. by rewrite Ht. }
  rewrite (dummy_own_step _ _ _ _ Hc).
  rewrite dummy_env_step by done.
  set (d2 := terminate_flag (with_job_ran true d)).
  change (dummy_move DTerminateFlag ?f0).2
    with (Build_DFrame DJobReturn d2 (Event_set h e) env).
  assert (DummyRunner_run_step (Build_DFrame DJobReturn d2 (Event_set h e) env) =
          Some ([LJob (JobReturn (job_result d) ("Output from " +:+ name (base d)))],
                Build_DFrame
                  (DRun (PcUnpack (job_result d) ("Output from " +:+ name (base d))))
                  d2 (Event_set h e) env)) as Hret by reflexivity.
  rewrite (dummy_own_step _ _ _ _ Hret).
  destruct (dummy_finish d2 (Event_set h e) env (job_result d)
              ("Output from " +:+ name (base d)) [] Hstop) as [env2 Hfin].
  rewrite app_nil_r in Hfin. rewrite Hfin.
  cbn [dummy_interleave snd d_pc d_self d_events].
  by split_and?.
Qed.
End DummyRuns.

Lemma unterminated_job_gives_job_result_witness :
  let f1 := Build_DFrame (DRun PcEntry) (test_runner 0) (test_events true) () in
  let d := d_self (dummy_interleave (replicate 16 DOwn) f1).2 in
  output (base d) = "Output from base runner" ∧
  result_message (base d) = result_message_of (result (base d)) ∧
  job_ran d = true.
Proof.
  intros f1 d.
  destruct (unterminated_job_gives_job_result 1 f1 (replicate 16 DOwn))
    as (_ & Hout & Hmsg & Hran).
  - done.
  - by vm_compute.
  - by intros [? _]%elem_of_replicate.
  - by vm_compute.
  - by split_and?.
Defined.

Lemma terminated_job_gives_255_witness :
  let f1 := Build_DFrame DJobWait (terminate_flag (test_runner 0))
              (test_events true) () in
  let b := base (d_self (dummy_interleave (replicate 10 DOwn) f1).2) in
  result b = 255%Z ∧ output b = "Job was terminated by user" ∧
  result_message b = "FAIL (255)".
Proof.
  intros f1 b.
  apply (terminated_job_gives_255 1 f1 (replicate 10 DOwn)).
  - done.
  - done.
  - by vm_compute.
  - by vm_compute.
Defined.

Lemma missing_event_gives_exception_witness :
  let f0 := Build_DFrame (DRun PcEntry) (DummyRunner_init "base runner" ∅).1
              (test_events false) () in
  let d := d_self (dummy_interleave (replicate 13 DOwn) f0).2 in
  result (base d) = (-1)%Z ∧
  output (base d) = newline +:+ "KeyError: 'job_mocking_event'" ∧
  result_message (base d) = "FAIL (Exception)".
Proof.
  intros f0 d.
  destruct (missing_event_gives_exception f0 (replicate 13 DOwn))
    as (Hr & Ho & Hm & _).
  - done.
  - by vm_compute.
  - by vm_compute.
  - by split_and?.
Defined.

Lemma job_waits_for_mocking_event_witness :
  let f0 := Build_DFrame (DRun PcEntry) (test_runner 0) (test_events false) () in
  let f := (dummy_interleave (replicate 8 DOwn ++ [DSetResult 1; DOwn]) f0).2 in
  d_pc f ≠ DRun (PcDone None) ∧ Event_is_set (d_events f) 1 = false.
Proof.
  intros f0 f.
  destruct (job_waits_for_mocking_event 1 f0
              (replicate 8 DOwn ++ [DSetResult 1; DOwn]))
    as (_ & Hpc & He & _).
  - done.
  - by vm_compute.
  - by vm_compute.
  - cbn [replicate app]. by repeat constructor.
  - by split.
Defined.

Lemma DummyRunner_run_completes_witness :
  let f := (dummy_interleave (replicate 16 DOwn)
              (Build_DFrame (DRun PcEntry) (test_runner 1) (test_events true) ())).2 in
  d_pc f = DRun (PcDone None) ∧
  result_message (base (d_self f)) = "FAIL (1)" ∧
  output (base (d_self f)) = "Output from base runner".
Proof.
  intros f.
  destruct (DummyRunner_run_completes (test_runner 1) (test_events true) () 1)
    as (Hpc & _ & Ho & Hm & _).
  - done.
  - intros cb nm v env Hcb. vm_compute in Hcb. injection Hcb as <-. by eexists.
  - intros cb nm m o v env Hcb. vm_compute in Hcb. injection Hcb as <-.
    by eexists.
  - by vm_compute.
  - by vm_compute.
  - by split_and?.
Defined.

Lemma terminate_can_miss_the_job_witness :
  let f := (dummy_interleave
              ([DTerminateSet; DOwn; DOwn; DOwn; DTerminateFlag; DOwn]
               ++ replicate 5 DOwn)
              (Build_DFrame DJobWait (test_runner 0) (test_events false) ())).2 in
  result_message (base (d_self f)) = "Success" ∧ terminated (d_self f) = true.
Proof.
  intros f.
  destruct (terminate_can_miss_the_job (test_runner 0) (test_events false) () 1)
    as (_ & _ & _ & Hm & Ht).
  - done.
  - by vm_compute.
  - intros cb nm m o v env Hcb. vm_compute in Hcb. injection Hcb as <-.
    by eexists.
  - by split.
Defined.

(** ** Statements and labels *)

(** Case analysis on the tests of the statement in [Hs]. *)
Ltac destruct_step Hs :=
  repeat match type of Hs with
         | context [match ?x with _ => _ end] => destruct x eqn:?
         end.

Section StepsAndLabels.
Context {E : Type}.
Implicit Types (f : Frame E) (ms : list (Move E)).

(** Every label of an interleaving comes from a statement the thread
    executed at that point. *)
Lemma interleave_label_step ms : ∀ f0 tr1 l tr2 f,
  interleave ms f0 = (tr1 ++ l :: tr2, f) →
  ∃ ms1 ms2 f1 f2,
    ms = ms1 ++ Own :: ms2 ∧
    interleave ms1 f0 = (tr1, f1) ∧
    run_step f1 = Some (l, f2) ∧
    interleave ms2 f2 = (tr2, f).
Proof.
  induction ms as [|m ms IH]; intros f0 tr1 l tr2 f Hrun.
  - cbn in Hrun. injection Hrun as Htr _. by destruct tr1.
  - cbn [interleave] in Hrun.
    destruct (move m f0) as [l1 fm] eqn:Hm.
    destruct (interleave ms fm) as [l2 f'] eqn:Hi.
    injection Hrun as Htr <-.
    assert (l1 = [] → ∃ ms1 ms2 f1 f2,
              m :: ms = ms1 ++ Own :: ms2 ∧
              interleave ms1 f0 = (tr1, f1) ∧
              run_step f1 = Some (l, f2) ∧
              interleave ms2 f2 = (tr2, f')) as Hskip.
    { intros ->. cbn in Htr. subst l2.
      destruct (IH _ _ _ _ _ Hi) as (ms1 & ms2 & f1 & f2 & -> & H1 & Hs & H2).
      exists (m :: ms1), ms2, f1, f2. split; [done|]. split; [|done].
      cbn [interleave]. by rewrite Hm, H1. }
    destruct m as [|e|e|env']; cbn [move] in Hm;
      try (injection Hm as <- <-; by apply Hskip).
    destruct (run_step f0) as [[l' f'']|] eqn:Hs;
      [|injection Hm as <- <-; by apply Hskip].
    injection Hm as <- <-. clear Hskip.
    destruct tr1 as [|t tr1]; cbn in Htr; injection Htr as -> ->.
    + exists [], ms, f0, f''. by repeat split.
    + destruct (IH _ _ _ _ _ Hi) as (ms1 & ms2 & f1 & f2 & -> & H1 & Hs' & H2).
      exists (Own :: ms1), ms2, f1, f2. split; [done|]. split; [|done].
      cbn [interleave move]. by rewrite Hs, H1.
Qed.

(** What the statement that calls the start callback does. *)
Lemma run_step_on_start f c nm f' :
  run_step f = Some (LOnStart c nm, f') →
  f_pc f = PcStartCallback ∧ nm = name (f_self f) ∧
  f_self f' = f_self f ∧ f_events f' = f_events f ∧
  match start_callback (f_self f) with
  | None => c = false ∧ f_env f' = f_env f ∧ f_pc f' = PcJob
  | Some cb =>
      c = true ∧
      ((cb nm (view_of (f_self f) (f_events f)) (f_env f) = Returned (f_env f') ∧
        f_pc f' = PcJob) ∨
       (∃ e, cb nm (view_of (f_self f) (f_events f)) (f_env f)
               = Raised e (f_env f') ∧
             f_pc f' = PcDone (Some e)))
  end.
Proof.
  destruct f as [pc s h env]. intros Hs.
  destruct pc; cbn in Hs; destruct_step Hs; simplify_eq; cbn;
    repeat match goal with H : start_callback _ = _ |- _ => rewrite H end;
    split_and?; try done; eauto.
Qed.

(** What the statement that calls the stop callback does. *)
Lemma run_step_on_stop_call f c nm m o v f' :
  run_step f = Some (LOnStop c nm m o v, f') →
  (∃ p, f_pc f = PcStopCallback p ∧
        match stop_callback (f_self f) with
        | None => c = false ∧ f_env f' = f_env f ∧ f_pc f' = PcSetStopEvent p
        | Some cb =>
            c = true ∧
            ((cb nm m o v (f_env f) = Returned (f_env f') ∧
              f_pc f' = PcSetStopEvent p) ∨
             (∃ e, cb nm m o v (f_env f) = Raised e (f_env f') ∧
                   f_pc f' = PcDone (Some e)))
        end) ∧
  nm = name (f_self f) ∧ m = result_message (f_self f) ∧
  o = output (f_self f) ∧ v = view_of (f_self f) (f_events f) ∧
  f_self f' = f_self f ∧ f_events f' = f_events f.
Proof.
  destruct f as [pc s h env]. intros Hs.
  destruct pc; cbn in Hs; destruct_step Hs; simplify_eq; cbn;
    (split; [eexists; split; [done|]|done]);
    repeat match goal with H : stop_callback _ = _ |- _ => rewrite H end;
    split_and?; try done; eauto.
Qed.

(** What the statement that calls [job()] does. *)
Lemma run_step_job f o f' :
  run_step f = Some (LJob o, f') →
  f_pc f = PcJob ∧
  o = job (f_self f) (view_of (f_self f) (f_events f)) (setup_kwargs (f_self f)) ∧
  f_self f' = f_self f ∧ f_events f' = f_events f ∧ f_env f' = f_env f.
Proof.
  destruct f as [pc s h env]. intros Hs.
  destruct pc; cbn in Hs; destruct_step Hs; simplify_eq; cbn;
    split_and?; congruence.
Qed.
End StepsAndLabels.

(** ** [run] called directly, in full *)

Section BigStep.
Context {E : Type}.
Implicit Types (self : BaseJobRunner E) (h : gmap nat bool) (env : E).

(** Lines 87-94, when the gate is open and the start callback returns. *)
Lemma run_from_prelude n self h env env1 :
  gate_open self h →
  start_call_returns (with_running true self) h env env1 →
  run_from (4 + n) (Build_Frame PcEntry self h env) =
  (prelude self (has_start_callback self) ++
     (run_from n (Build_Frame PcJob (with_running true self) h env1)).1,
   (run_from n (Build_Frame PcJob (with_running true self) h env1)).2).
Proof.
  intros Hgate Hstart. change (4 + n) with (S (S (S (S n)))).
  erewrite run_from_S by reflexivity.
  assert (run_step (Build_Frame PcGate (with_running false self) h env) =
          Some (LGatePassed (start_gating_event self),
                Build_Frame PcSetRunning (with_running false self) h env)) as Hg.
  { unfold gate_open in Hgate. cbn.
    destruct (start_gating_event self) as [g|]; [by rewrite Hgate|done]. }
  rewrite (run_from_S _ _ _ _ Hg).
  erewrite run_from_S by reflexivity.
  assert (run_step (Build_Frame PcStartCallback (with_running true self) h env) =
          Some (LOnStart (has_start_callback self) (name self),
                Build_Frame PcJob (with_running true self) h env1)) as Hcb.
  { unfold start_call_returns in Hstart. unfold run_step.
    cbn [f_pc f_self f_events f_env].
    destruct (start_callback (with_running true self)) as [cb|] eqn:Hc.
    - rewrite Hstart. by rewrite (has_start_callback_Some self cb Hc).
    - subst env1. by rewrite (has_start_callback_None self Hc). }
  match goal with
  | |- context [run_from ?k (Build_Frame ?pc ?s0 ?h0 ?e0)] =>
      change (run_from k (Build_Frame pc s0 h0 e0))
        with (run_from k (Build_Frame PcStartCallback (with_running true self) h env))
  end.
  rewrite (run_from_S _ _ _ _ Hcb). done.
Qed.

(** Lines 108-111, when the stop callback returns. *)
Lemma run_from_end n (s : BaseJobRunner E) h env env2 pend :
  stop_call_returns (with_running false s) h env env2 →
  run_from (3 + n) (Build_Frame (PcFinally pend) s h env) =
  ([LRunning false;
    LOnStop (has_stop_callback s) (name s) (result_message s) (output s)
      (view_of (with_running false s) h);
    LStopEventSet (stop_event s)],
   Build_Frame (PcDone pend) (with_running false s)
     (Event_set h (stop_event s)) env2).
Proof.
  intros Hstop. change (3 + n) with (S (S (S n))).
  erewrite run_from_S by reflexivity.
  assert (run_step (Build_Frame (PcStopCallback pend) (with_running false s) h env) =
          Some (LOnStop (has_stop_callback s) (name s) (result_message s)
                  (output s) (view_of (with_running false s) h),
                Build_Frame (PcSetStopEvent pend) (with_running false s) h env2))
    as Hcb.
  { unfold stop_call_returns in Hstop. unfold run_step.
    cbn [f_pc f_self f_events f_env].
    destruct (stop_callback (with_running false s)) as [cb|] eqn:Hc.
    - rewrite Hstop. by rewrite (has_stop_callback_Some s cb Hc).
    - subst env2. by rewrite (has_stop_callback_None s Hc). }
  match goal with
  | |- context [run_from ?k (Build_Frame ?pc ?s0 ?h0 ?e0)] =>
      change (run_from k (Build_Frame pc s0 h0 e0))
        with (run_from k (Build_Frame (PcStopCallback pend) (with_running false s) h env))
  end.
  rewrite (run_from_S _ _ _ _ Hcb).
  erewrite run_from_S by reflexivity.
  by rewrite run_from_done.
Qed.

(** Lines 96-105. *)
Lemma run_from_body n self h env :
  let o := job self (view_of (with_running true self) h) (setup_kwargs self) in
  run_from (3 + n) (Build_Frame PcJob (with_running true self) h env) =
  (body_labels self o ++
     (run_from (match pending_of o with Some _ => 2 + n | None => n end)
        (Build_Frame (PcFinally (pending_of o)) (after_body self o) h env)).1,
   (run_from (match pending_of o with Some _ => 2 + n | None => n end)
      (Build_Frame (PcFinally (pending_of o)) (after_body self o) h env)).2).
Proof.
  intros o. change (3 + n) with (S (S (S n))).
  assert (run_step (Build_Frame PcJob (with_running true self) h env) =
          Some (LJob o,
                Build_Frame
                  match o with
                  | JobReturn r out => PcUnpack r out
                  | JobRaise e =>
                      if exc_is_Exception e then PcExcMessage e
                      else PcFinally (Some e)
                  end (with_running true self) h env)) as Hj.
  { cbn. fold o. destruct o as [r out|e]; [done|].
    by destruct (exc_is_Exception e). }
  rewrite (run_from_S _ _ _ _ Hj). clear Hj.
  unfold body_labels, after_body, pending_of.
  destruct o as [r out|e].
  - by do 2 erewrite run_from_S by reflexivity.
  - destruct (exc_is_Exception e).
    + by do 2 erewrite run_from_S by reflexivity.
    + done.
Qed.

(** A direct call of [run] whose gate is open and whose two callback calls
    return: every label and the whole state it ends in. *)
Lemma run_big_step self h env env1 env2 :
  gate_open self h →
  start_call_returns (with_running true self) h env env1 →
  let o := job self (view_of (with_running true self) h) (setup_kwargs self) in
  let s := with_running false (after_body self o) in
  stop_call_returns s h env1 env2 →
  run self h env =
  (prelude self (has_start_callback self) ++ body_labels self o ++
     [LRunning false;
      LOnStop (has_stop_callback self) (name self) (result_message s)
        (output s) (view_of s h);
      LStopEventSet (stop_event self)],
   Build_Frame (PcDone (pending_of o)) s (Event_set h (stop_event self)) env2).
Proof.
  intros Hgate Hstart o s Hstop. unfold run, run_fuel.
  pose proof (run_from_prelude 6 self h env env1 Hgate Hstart) as Hp.
  change (4 + 6) with 10 in Hp. rewrite Hp. clear Hp.
  pose proof (run_from_body 3 self h env1) as Hb.
  change (3 + 3) with 6 in Hb. cbv zeta in Hb. fold o in Hb. rewrite Hb.
  clear Hb.
  assert (has_stop_callback (after_body self o) = has_stop_callback self ∧
          name (after_body self o) = name self ∧
          stop_event (after_body self o) = stop_event self) as (Hc & Hn & He).
  { unfold after_body. destruct o as [r out|e]; [done|].
    by destruct (exc_is_Exception e). }
  assert (∀ k, run_from (S (S (S k)))
                 (Build_Frame (PcFinally (pending_of o)) (after_body self o) h env1) =
               ([LRunning false;
                 LOnStop (has_stop_callback self) (name self) (result_message s)
                   (output s) (view_of s h);
                 LStopEventSet (stop_event self)],
                Build_Frame (PcDone (pending_of o)) s
                  (Event_set h (stop_event self)) env2)) as Hend.
  { intros k. pose proof (run_from_end k _ h env1 env2 (pending_of o) Hstop) as H.
    change (3 + k) with (S (S (S k))) in H. rewrite H.
    by rewrite Hc, Hn, He. }
  destruct (pending_of o).
  - change (2 + 3) with (S (S (S 2))). by rewrite Hend.
  - by rewrite Hend.
Qed.
End BigStep.

(** ** An exception of [job()] *)

Section Contained.
Context {E : Type}.
Implicit Types (f : Frame E) (ms : list (Move E)).

(** The [try] statement of a run in which [job()] ended with [o]. *)
Lemma body_done_outcome (self0 : BaseJobRunner E) b sb pend o :
  body_done self0 b sb pend →
  LJob o ∈ b →
  job_gave self0 o ∧ b = body_labels self0 o ∧ sb = after_body self0 o ∧
  pend = pending_of o.
Proof.
  destruct 1 as [r out Hj|e Hj He|e Hj He]; intros Hin; split_mem;
    simplify_eq; unfold body_labels, after_body, pending_of; by rewrite ?He.
Qed.

(** C2, as the code has it.  A call of [job()] that raises [e] ends the
    [try] statement in one of two ways.  When [e] is an instance of
    [Exception] it is caught: [result_message] is exactly
    ["FAIL (Exception)"], [output] is the output there was, then a newline,
    the type name of [e], [": "] and its message, and [run] raises nothing
    unless its stop callback does.  When [e] is not an instance of
    [Exception] it is not caught: [result_message] and [output] stay as
    they were and, the [finally] block over, [run] raises [e] (or what its
    stop callback raised).  In both cases [running] is false at the end.
    A direct call of [run] on a runner whose [job()] raises [e], with the
    gate open and the two callback calls returning, does come to this
    end, with the stop callback applied and the stop event set. *)
Theorem job_exception_is_contained (self : BaseJobRunner E) e :
  (∀ h env ms tr f p,
     interleave ms (Build_Frame PcEntry self h env) = (tr, f) →
     LJob (JobRaise e) ∈ tr →
     f_pc f = PcDone p →
     job_gave self (JobRaise e) ∧ running (f_self f) = false ∧
     (exc_is_Exception e = true →
      result_message (f_self f) = "FAIL (Exception)" ∧
      output (f_self f) =
        output self +:+ newline +:+ exc_type_name e +:+ ": " +:+ exc_message e ∧
      (p = None ∨ ∃ e' sb v, p = Some e' ∧ stop_raises self sb v e')) ∧
     (exc_is_Exception e = false →
      result_message (f_self f) = result_message self ∧
      output (f_self f) = output self ∧
      (p = Some e ∨ ∃ e' sb v, p = Some e' ∧ stop_raises self sb v e'))) ∧
  (∀ h env env1 env2,
     gate_open self h →
     job self (view_of (with_running true self) h) (setup_kwargs self)
       = JobRaise e →
     start_call_returns (with_running true self) h env env1 →
     stop_call_returns (with_running false (after_body self (JobRaise e)))
       h env1 env2 →
     let f := (run self h env).2 in
     LJob (JobRaise e) ∈ (run self h env).1 ∧
     f_env f = env2 ∧ running (f_self f) = false ∧
     Event_is_set (f_events f) (stop_event self) = true ∧
     (exc_is_Exception e = true →
      f_pc f = PcDone None ∧
      result_message (f_self f) = "FAIL (Exception)" ∧
      output (f_self f) =
        output self +:+ newline +:+ exc_type_name e +:+ ": " +:+ exc_message e) ∧
     (exc_is_Exception e = false →
      f_pc f = PcDone (Some e) ∧
      result_message (f_self f) = result_message self ∧
      output (f_self f) = output self)).
Proof.
  split.
  - intros h env ms tr f p Hrun Hin Hpc. apply history_interleave in Hrun.
    rewrite Hpc in Hrun.
    destruct (history_done_job _ _ _ _ _ Hrun Hin)
      as (b & sb & pend & v & Hb & Hinb & -> & _ & Hend).
    destruct (body_done_outcome _ _ _ _ _ Hb Hinb) as (Hgave & _ & -> & ->).
    split; [done|]. split; [done|].
    assert (p = pending_of (JobRaise e) ∨
            ∃ e' sb v, p = Some e' ∧ stop_raises self sb v e') as Hp.
    { destruct Hend as [[-> _]|(e' & -> & Hraise & _)]; [by left|].
      right. by eexists _, _, _. }
    unfold after_body, pending_of in *.
    split; intros He; rewrite He in *; by split_and?.
  - intros h env env1 env2 Hgate Hjob Hstart Hstop f. subst f.
    pose proof (run_big_step self h env env1 env2 Hgate Hstart) as Hbig.
    cbv zeta in Hbig. rewrite Hjob in Hbig. rewrite (Hbig Hstop).
    cbn [fst snd f_pc f_self f_events f_env].
    split.
    { apply elem_of_app. right. apply elem_of_app. left.
      unfold body_labels. destruct (exc_is_Exception e); by left. }
    split; [done|]. split; [done|]. split; [apply Event_is_set_set|].
    unfold after_body, pending_of.
    split; intros He; rewrite He; by split_and?.
Qed.
End Contained.

(** C2 as the specification states it fails: a job that calls
    [sys.exit(1)] raises [SystemExit], which is no [Exception]; [run]
    raises it, and the outcome text is not ["FAIL (Exception)"] but what it
    was, here the empty text of [__init__]. *)
Lemma non_exception_escapes_run :
  let self : BaseJobRunner unit :=
    (BaseJobRunner_init (job_raising (SystemExit "1")) "w" ∅).1 in
  let tf := run self ∅ () in
  LJob (JobRaise (SystemExit "1")) ∈ tf.1 ∧
  f_pc tf.2 = PcDone (Some (SystemExit "1")) ∧
  result_message (f_self tf.2) = "" ∧
  result_message (f_self tf.2) ≠ "FAIL (Exception)" ∧
  output (f_self tf.2) = "".
Proof.
  intros self tf.
  split; [apply (list_elem_of_lookup_2 _ 4); reflexivity|].
  by split_and?.
Qed.

Lemma job_exception_is_contained_witness :
  let e := TypeError "must be str, not NoneType" in
  let self : BaseJobRunner Cli :=
    register_callbacks (BaseJobRunner_init (job_raising e) "w" ∅).1 in
  let f := (run self ∅ Cli_new).2 in
  f_pc f = PcDone None ∧
  result_message (f_self f) = "FAIL (Exception)" ∧
  output (f_self f) =
    "" +:+ newline +:+ "TypeError" +:+ ": " +:+ "must be str, not NoneType" ∧
  result_info_list (f_env f) =
    [("w", "FAIL (Exception)",
      newline +:+ "TypeError: must be str, not NoneType")].
Proof.
  intros e self f.
  destruct (job_exception_is_contained self e) as [_ Hdirect].
  destruct (call_when_runner_starts_returns "w"
              (view_of (with_running true self) ∅) Cli_new eq_refl)
    as (c1 & Hc1 & Hl1 & _ & Hs1).
  destruct (call_when_runner_stops_returns "w" "FAIL (Exception)"
              (newline +:+ "TypeError: must be str, not NoneType")
              (view_of (with_running false (after_body self (JobRaise e))) ∅)
              c1 Hs1)
    as (c2 & Hc2 & Hl2 & _).
  destruct (Hdirect ∅ Cli_new c1 c2) as (_ & Henv & _ & _ & Hcaught & _).
  - exact I.
  - reflexivity.
  - exact Hc1.
  - exact Hc2.
  - destruct (Hcaught eq_refl) as (Hpc & Hm & Ho).
    split; [exact Hpc|]. split; [exact Hm|]. split; [exact Ho|].
    fold f in Henv. rewrite Henv, Hl2, Hl1. reflexivity.
Defined.

(** ** The end of a run *)

Section EndSequence.
Context {E : Type}.
Implicit Types (f : Frame E) (ms : list (Move E)).

(** A run that stands at the call of the stop callback. *)
Lemma history_at_stop_callback (self0 : BaseJobRunner E) tr p s :
  history self0 tr (PcStopCallback p) s →
  ∃ b sb, body_done self0 b sb p ∧ s = with_running false sb ∧
          tr = prelude self0 (has_start_callback self0) ++ b ++ [LRunning false].
Proof. intros Hh. inversion Hh; subst. by eexists _, _. Qed.

(** The three ways in which a run ends. *)
Lemma history_done (self0 : BaseJobRunner E) tr p s :
  history self0 tr (PcDone p) s →
  (∃ e, p = Some e ∧ start_raises self0 e ∧ tr = prelude self0 true ∧
        s = with_running true self0) ∨
  (∃ b sb pend v,
     body_done self0 b sb pend ∧ s = with_running false sb ∧ stop_view sb v ∧
     ((p = pend ∧
       tr = prelude self0 (has_start_callback self0) ++ b ++
              [LRunning false;
               LOnStop (has_stop_callback self0) (name self0)
                 (result_message sb) (output sb) v;
               LStopEventSet (stop_event self0)]) ∨
      (∃ e, p = Some e ∧ stop_raises self0 sb v e ∧
            tr = prelude self0 (has_start_callback self0) ++ b ++
                   [LRunning false;
                    LOnStop true (name self0) (result_message sb) (output sb) v]))).
Proof.
  intros Hh. inversion Hh; subst.
  - left. by eexists.
  - right. exists b, s0, p0, v. repeat split; try done. right. by exists e.
  - right. exists b, s0, p, v. repeat split; try done. by left.
Qed.

Lemma body_done_has_job (self0 : BaseJobRunner E) b sb pend :
  body_done self0 b sb pend → ∃ o, LJob o ∈ b.
Proof. destruct 1; eexists; by left. Qed.

End EndSequence.


(** ** The start gate, the start callback and [job()] *)

Section GateAndStart.
Context {E : Type}.
Implicit Types (f : Frame E) (ms : list (Move E)).

(** What the statement that passes the gate does. *)
Lemma run_step_gate_passed f g' f' :
  run_step f = Some (LGatePassed g', f') →
  f_pc f = PcGate ∧ g' = start_gating_event (f_self f) ∧
  gate_open (f_self f) (f_events f) ∧
  f_pc f' = PcSetRunning ∧ f_self f' = f_self f ∧
  f_events f' = f_events f ∧ f_env f' = f_env f.
Proof.
  destruct f as [pc s h env]. intros Hs. unfold gate_open.
  destruct pc; cbn in Hs; destruct_step Hs; simplify_eq; cbn;
    repeat match goal with H : start_gating_event _ = _ |- _ => rewrite H end;
    split_and?; done.
Qed.

Lemma run_step_job_pc f o f' :
  run_step f = Some (LJob o, f') → f_pc f' = pc_after_job o.
Proof.
  destruct f as [pc s h env]. intros Hs.
  destruct pc; cbn in Hs; destruct_step Hs; simplify_eq; cbn;
    repeat match goal with H : exc_is_Exception _ = _ |- _ => rewrite H end;
    done.
Qed.

(** While nobody signals the gate: where the run stands, what it has done
    and what it has left alone. *)
Lemma gate_waits (self : BaseJobRunner E) g h env ms tr f :
  start_gating_event self = Some g →
  Event_is_set h g = false →
  Forall (never_signals g) ms →
  interleave ms (Build_Frame PcEntry self h env) = (tr, f) →
  Event_is_set (f_events f) g = false ∧ f_env f = env_after ms env ∧
  ((f_pc f = PcEntry ∧ f_self f = self ∧ tr = []) ∨
   (f_pc f = PcGate ∧ f_self f = with_running false self ∧
    tr = [LRunning false])).
Proof.
  intros Hg Hunset. revert tr f.
  induction ms as [|m ms IH] using rev_ind; intros tr f Hok Hrun.
  - cbn in Hrun. simplify_eq. cbn. split; [done|]. split; [done|]. by left.
  - apply Forall_app in Hok as [Hok Hm]. rewrite Forall_singleton in Hm.
    destruct (interleave ms (Build_Frame PcEntry self h env)) as [tr1 f1] eqn:H1.
    rewrite (interleave_snoc _ _ _ _ _ H1) in Hrun. simplify_eq.
    destruct (IH tr1 f1 Hok eq_refl) as (Hun1 & Henv & Hpc).
    unfold env_after in *. rewrite foldl_app. cbn [foldl].
    destruct f1 as [pc s h1 env1]. cbn [f_pc f_self f_events f_env] in *.
    destruct m as [|e|e|env'];
      cbn [move never_signals fst snd f_pc f_self f_events f_env] in *.
    + destruct Hpc as [(-> & -> & ->)|(-> & -> & ->)]; cbn.
      * split; [done|]. split; [done|]. right. by split_and?.
      * rewrite Hg, Hun1. cbn. split; [done|]. split; [done|]. right.
        by split_and?.
    + rewrite Event_is_set_set_ne by done. rewrite app_nil_r.
      split; [done|]. split; [done|]. exact Hpc.
    + rewrite app_nil_r. split; [|split; [done|exact Hpc]].
      destruct (decide (e = g)) as [->|Hne].
      * apply Event_is_set_clear.
      * by rewrite Event_is_set_clear_ne.
    + rewrite app_nil_r. split; [done|]. split; [done|]. exact Hpc.
Qed.

Lemma history_at_gate (self0 : BaseJobRunner E) tr s :
  history self0 tr PcGate s → tr = [LRunning false] ∧ s = with_running false self0.
Proof. intros Hh. by inversion Hh. Qed.

Lemma history_at_start_callback (self0 : BaseJobRunner E) tr s :
  history self0 tr PcStartCallback s →
  tr = [LRunning false; LGatePassed (start_gating_event self0); LRunning true] ∧
  s = with_running true self0.
Proof. intros Hh. by inversion Hh. Qed.

Lemma history_at_job (self0 : BaseJobRunner E) tr s :
  history self0 tr PcJob s →
  tr = prelude self0 (has_start_callback self0) ∧ s = with_running true self0.
Proof. intros Hh. by inversion Hh. Qed.

(** Lines 90-96 from the gate, once it is open. *)
Lemma run_from_gate (self : BaseJobRunner E) h env env1 :
  gate_open self h →
  start_call_returns (with_running true self) h env env1 →
  let o := job self (view_of (with_running true self) h) (setup_kwargs self) in
  run_from 4 (Build_Frame PcGate (with_running false self) h env) =
    ([LGatePassed (start_gating_event self); LRunning true;
      LOnStart (has_start_callback self) (name self); LJob o],
     Build_Frame (pc_after_job o) (with_running true self) h env1).
Proof.
  intros Hgate Hstart o.
  assert (run_step (Build_Frame PcGate (with_running false self) h env) =
          Some (LGatePassed (start_gating_event self),
                Build_Frame PcSetRunning (with_running false self) h env)) as Hg.
  { unfold gate_open in Hgate. cbn.
    destruct (start_gating_event self) as [g|]; [by rewrite Hgate|done]. }
  rewrite (run_from_S _ _ _ _ Hg).
  erewrite run_from_S by reflexivity.
  assert (run_step (Build_Frame PcStartCallback (with_running true self) h env) =
          Some (LOnStart (has_start_callback self) (name self),
                Build_Frame PcJob (with_running true self) h env1)) as Hcb.
  { unfold start_call_returns in Hstart. unfold run_step.
    cbn [f_pc f_self f_events f_env].
    destruct (start_callback (with_running true self)) as [cb|] eqn:Hc.
    - rewrite Hstart. by rewrite (has_start_callback_Some self cb Hc).
    - subst env1. by rewrite (has_start_callback_None self Hc). }
  match goal with
  | |- context [run_from ?k (Build_Frame ?pc ?s0 ?h0 ?e0)] =>
      change (run_from k (Build_Frame pc s0 h0 e0))
        with (run_from k (Build_Frame PcStartCallback (with_running true self) h env))
  end.
  rewrite (run_from_S _ _ _ _ Hcb).
  assert (run_step (Build_Frame PcJob (with_running true self) h env1) =
          Some (LJob o, Build_Frame (pc_after_job o) (with_running true self) h env1))
    as Hj.
  { cbn. fold o. destruct o as [r out|e]; [done|]. cbn.
    by destruct (exc_is_Exception e). }
  by rewrite (run_from_S _ _ _ _ Hj).
Qed.

(** C4.  With a start gate [g]: while nobody signals [g], the run gets to
    the wait of line 90 and no further — [running] is false from line 87
    on, the trace has no call of the start callback and none of [job()],
    and the state of the callbacks' owner is as the other threads left
    it.  Once [g] is set, the four statements after the wait are: the wait
    ends, [running] becomes true, the start callback is applied to the
    runner's name, and [job()] is called with [running] true, on the state
    that the start callback returned.  In every run, the start callback
    and [job()] are each called at most once; a call of the start callback
    comes after the gate was found open and [running] was set, and a call
    of [job()] comes after the call of the start callback has returned.
    Without a gate, the first five statements of [run] lead into
    [job()], whatever the events are. *)
Theorem start_gate_controls_run (self : BaseJobRunner E) :
  (∀ g, start_gating_event self = Some g →
     (∀ h env ms tr f,
        Event_is_set h g = false →
        Forall (never_signals g) ms →
        interleave ms (Build_Frame PcEntry self h env) = (tr, f) →
        ((f_pc f = PcEntry ∧ f_self f = self ∧ tr = []) ∨
         (f_pc f = PcGate ∧ f_self f = with_running false self ∧
          running (f_self f) = false ∧
          tr = [LRunning false] ∧ run_step f = None)) ∧
        f_env f = env_after ms env ∧
        count_labels is_on_start tr = 0 ∧ count_labels is_job tr = 0) ∧
     (∀ h env env1,
        Event_is_set h g = true →
        start_call_returns (with_running true self) h env env1 →
        let o := job self (view_of (with_running true self) h)
                   (setup_kwargs self) in
        run_from 4 (Build_Frame PcGate (with_running false self) h env) =
          ([LGatePassed (Some g); LRunning true;
            LOnStart (has_start_callback self) (name self); LJob o],
           Build_Frame (pc_after_job o) (with_running true self) h env1) ∧
        view_running (view_of (with_running true self) h) = true)) ∧
  (∀ h env ms tr f,
     interleave ms (Build_Frame PcEntry self h env) = (tr, f) →
     count_labels is_on_start tr ≤ 1 ∧ count_labels is_job tr ≤ 1 ∧
     (∀ tr1 g' tr2,
        tr = tr1 ++ LGatePassed g' :: tr2 →
        ∃ ms1 ms2 f1 f2,
          ms = ms1 ++ Own :: ms2 ∧
          interleave ms1 (Build_Frame PcEntry self h env) = (tr1, f1) ∧
          interleave ms2 f2 = (tr2, f) ∧
          tr1 = [LRunning false] ∧ g' = start_gating_event self ∧
          running (f_self f1) = false ∧ gate_open self (f_events f1)) ∧
     (∀ tr1 c nm tr2,
        tr = tr1 ++ LOnStart c nm :: tr2 →
        ∃ ms1 ms2 f1 f2,
          ms = ms1 ++ Own :: ms2 ∧
          interleave ms1 (Build_Frame PcEntry self h env) = (tr1, f1) ∧
          interleave ms2 f2 = (tr2, f) ∧
          tr1 = [LRunning false; LGatePassed (start_gating_event self);
                 LRunning true] ∧
          nm = name self ∧ running (f_self f1) = true ∧
          f_self f1 = with_running true self ∧
          f_self f2 = f_self f1 ∧ f_events f2 = f_events f1 ∧
          match start_callback self with
          | None => c = false ∧ f_env f2 = f_env f1 ∧ f_pc f2 = PcJob
          | Some cb =>
              c = true ∧
              ((cb nm (view_of (with_running true self) (f_events f1))
                  (f_env f1) = Returned (f_env f2) ∧ f_pc f2 = PcJob) ∨
               (∃ e, cb nm (view_of (with_running true self) (f_events f1))
                       (f_env f1) = Raised e (f_env f2) ∧
                     f_pc f2 = PcDone (Some e)))
          end) ∧
     (∀ tr1 o tr2,
        tr = tr1 ++ LJob o :: tr2 →
        ∃ ms1 ms2 f1 f2,
          ms = ms1 ++ Own :: ms2 ∧
          interleave ms1 (Build_Frame PcEntry self h env) = (tr1, f1) ∧
          interleave ms2 f2 = (tr2, f) ∧
          tr1 = [LRunning false; LGatePassed (start_gating_event self);
                 LRunning true;
                 LOnStart (has_start_callback self) (name self)] ∧
          f_self f1 = with_running true self ∧
          o = job self (view_of (with_running true self) (f_events f1))
                (setup_kwargs self) ∧
          view_running (view_of (with_running true self) (f_events f1)) = true ∧
          f_pc f2 = pc_after_job o ∧ f_self f2 = f_self f1 ∧
          f_env f2 = f_env f1 ∧
          count_labels is_on_start tr = 1)) ∧
  (start_gating_event self = None →
   ∀ h env env1,
     start_call_returns (with_running true self) h env env1 →
     let o := job self (view_of (with_running true self) h)
                (setup_kwargs self) in
     run_from 5 (Build_Frame PcEntry self h env) =
       ([LRunning false; LGatePassed None; LRunning true;
         LOnStart (has_start_callback self) (name self); LJob o],
        Build_Frame (pc_after_job o) (with_running true self) h env1)).
Proof.
  split; [|split].
  - intros g Hg. split.
    + intros h env ms tr f Hunset Hok Hrun.
      destruct (gate_waits _ _ _ _ _ _ _ Hg Hunset Hok Hrun)
        as (Hun & Henv & [(Hpc & Hs & ->)|(Hpc & Hs & ->)]).
      * split; [by left|]. done.
      * split; [right|done]. split_and?; try done.
        -- by rewrite Hs.
        -- destruct f as [pc s h1 env1]. cbn in *. subst pc s. cbn.
           by rewrite Hg, Hun.
    + intros h env env1 His Hstart o.
      assert (gate_open self h) as Hgate by (unfold gate_open; by rewrite Hg).
      pose proof (run_from_gate self h env env1 Hgate Hstart) as Hr.
      rewrite Hg in Hr. split; [exact Hr|done].
  - intros h env ms tr f Hrun.
    pose proof (history_interleave _ _ _ _ _ _ Hrun) as Hh.
    destruct (history_counts _ _ _ _ Hh) as (Hc1 & Hc2 & _).
    split; [done|]. split; [done|]. split; [|split].
    + intros tr1 g' tr2 ->.
      destruct (interleave_label_step _ _ _ _ _ _ Hrun)
        as (ms1 & ms2 & f1 & f2 & -> & H1 & Hs & H2).
      pose proof (history_interleave _ _ _ _ _ _ H1) as Hh1.
      destruct (run_step_gate_passed _ _ _ Hs) as (Hpc & -> & Hopen & _).
      rewrite Hpc in Hh1. destruct (history_at_gate _ _ _ Hh1) as (-> & Hs1).
      exists ms1, ms2, f1, f2. rewrite Hs1 in *. by split_and?.
    + intros tr1 c nm tr2 ->.
      destruct (interleave_label_step _ _ _ _ _ _ Hrun)
        as (ms1 & ms2 & f1 & f2 & -> & H1 & Hs & H2).
      pose proof (history_interleave _ _ _ _ _ _ H1) as Hh1.
      destruct (run_step_on_start _ _ _ _ Hs) as (Hpc & -> & Hs2 & He2 & Hcall).
      rewrite Hpc in Hh1.
      destruct (history_at_start_callback _ _ _ Hh1) as (-> & Hs1).
      exists ms1, ms2, f1, f2. rewrite Hs1 in *. by split_and?.
    + intros tr1 o tr2 ->.
      destruct (interleave_label_step _ _ _ _ _ _ Hrun)
        as (ms1 & ms2 & f1 & f2 & -> & H1 & Hs & H2).
      pose proof (history_interleave _ _ _ _ _ _ H1) as Hh1.
      pose proof (run_step_job_pc _ _ _ Hs) as Hpc2.
      destruct (run_step_job _ _ _ Hs) as (Hpc & -> & Hs2 & He2 & Hv2).
      rewrite Hpc in Hh1.
      destruct (history_at_job _ _ _ Hh1) as (-> & Hs1).
      exists ms1, ms2, f1, f2. rewrite Hs1 in *. split_and?; try done.
      assert (LJob (job self (view_of (with_running true self) (f_events f1))
                      (setup_kwargs self))
              ∈ prelude self (has_start_callback self) ++
                LJob (job self (view_of (with_running true self) (f_events f1))
                        (setup_kwargs self)) :: tr2) as Hin.
      { apply elem_of_app. right. by left. }
      destruct (history_job_prefix _ _ _ _ _ Hh Hin)
        as (_ & rest & Heq & Hr1 & _).
      rewrite Heq. unfold count_labels in *. cbn. by rewrite Hr1.
  - intros Hg h env env1 Hstart o.
    assert (gate_open self h) as Hgate by (unfold gate_open; by rewrite Hg).
    pose proof (run_from_gate self h env env1 Hgate Hstart) as Hr.
    rewrite Hg in Hr. change 5 with (S 4).
    erewrite run_from_S by reflexivity.
    match goal with
    | |- context [run_from ?k (Build_Frame ?pc ?s0 ?h0 ?e0)] =>
        change (run_from k (Build_Frame pc s0 h0 e0))
          with (run_from k (Build_Frame PcGate (with_running false self) h env))
    end.
    by rewrite Hr.
Qed.
End GateAndStart.

Lemma start_gate_controls_run_witness :
  let self : BaseJobRunner Cli :=
    set_start_gating_event (Some 7)
      (register_callbacks (BaseJobRunner_init (job_returning 0 "ok") "w" ∅).1) in
  let waiting :=
    interleave [Own; Own; EnvClear 7; Own; Own]
      (Build_Frame PcEntry self ∅ Cli_new) in
  let going :=
    run_from 4 (Build_Frame PcGate (with_running false self) {[7 := true]}
                  Cli_new) in
  (f_pc waiting.2 = PcGate ∧ running (f_self waiting.2) = false ∧
   waiting.1 = [LRunning false] ∧ run_step waiting.2 = None ∧
   f_env waiting.2 = Cli_new) ∧
  going.1 = [LGatePassed (Some 7); LRunning true; LOnStart true "w";
             LJob (JobReturn 0 "ok")] ∧
  f_pc going.2 = PcUnpack 0 "ok" ∧ running (f_self going.2) = true ∧
  f_env going.2 = print "w starting..." Cli_new.
Proof.
  intros self waiting going.
  destruct (start_gate_controls_run self) as (Hgate & _ & _).
  destruct (Hgate 7 eq_refl) as [Hwait Hgo].
  assert (Event_is_set (∅ : gmap nat bool) 7 = false) as Hunset
    by (unfold Event_is_set; by rewrite lookup_empty).
  destruct (Hwait ∅ Cli_new [Own; Own; EnvClear 7; Own; Own] waiting.1 waiting.2
              Hunset)
    as ([(Hpc & _)|(Hpc & Hs & Hr & Htr & Hblocked)] & Henv & _).
  - repeat constructor; cbn; lia.
  - apply surjective_pairing.
  - discriminate Hpc.
  - split; [by split_and?|].
    assert (Event_is_set ({[7 := true]} : gmap nat bool) 7 = true) as Hset
      by (unfold Event_is_set; by rewrite lookup_singleton_eq).
    pose (c1 := print "w starting..." Cli_new).
    assert (start_call_returns (with_running true self) {[7 := true]} Cli_new c1)
      as Hc1 by reflexivity.
    destruct (Hgo {[7 := true]} Cli_new c1 Hset Hc1) as [Hrun _].
    unfold going. rewrite Hrun. cbn [fst snd f_pc f_self f_env].
    split; [reflexivity|]. split; [reflexivity|]. split; reflexivity.
Defined.

(** ** The stop event along a run *)

Section StopEventOnce.
Context {E : Type}.
Implicit Types (f : Frame E) (ms : list (Move E)).

(** The trace of a whole run has one label of line 111, at its end. *)
Lemma count_stop_event_set_full (self : BaseJobRunner E) c o l :
  count_labels is_stop_event_set
    (prelude self c ++ body_labels self o ++
       [LRunning false; l; LStopEventSet (stop_event self)]) =
  count_labels is_stop_event_set [l] + 1 ∧
  count_labels is_stop_event_set
    (prelude self c ++ body_labels self o ++ [LRunning false; l]) =
  count_labels is_stop_event_set [l].
Proof.
  unfold count_labels, prelude, body_labels.
  destruct o as [r out|e]; [|destruct (exc_is_Exception e)]; cbn;
    destruct (is_stop_event_set l); cbn; split; lia.
Qed.

End StopEventOnce.


(** ** The result list is in the order of the stop callbacks *)

(** Under [Cli], the statement of a thread is the call of the stop
    callback exactly when it takes the thread to the point where the
    callback has returned. *)
Lemma on_stop_reported s pc r h c l f' :
  static_ok s r →
  thread_ok s pc r (Event_is_set h (sp_event s)) →
  start_callback_sema c = 1 → stop_callback_sema c = 1 →
  run_step (Build_Frame pc r h c) = Some (l, f') →
  is_on_stop l = reported (f_pc f') && negb (reported pc).
Proof.
  intros (Hn & Hse & Hg & Hsc & Hpc & Hjob) Hok Hs1 Hs2 Hstep.
  destruct pc; cbn in Hstep, Hok; try done.
  - by simplify_eq.
  - rewrite Hg in Hstep. by simplify_eq.
  - by simplify_eq.
  - rewrite Hsc in Hstep.
    destruct (call_when_runner_starts_returns (name r) (view_of r h) c Hs1)
      as (c' & Hcall & _).
    rewrite Hcall in Hstep. by simplify_eq.
  - rewrite Hjob in Hstep. by simplify_eq.
  - by simplify_eq.
  - by simplify_eq.
  - by simplify_eq.
  - rewrite Hpc in Hstep.
    destruct (call_when_runner_stops_returns (name r) (result_message r)
                (output r) (view_of r h) c Hs2) as (c' & Hcall & _).
    rewrite Hcall in Hstep. by simplify_eq.
  - by simplify_eq.
Qed.

Lemma reported_threads_insert ts t th th' :
  ts !! t = Some th → t_runner th' = t_runner th →
  (reported (t_pc th) = true → reported (t_pc th') = true) →
  reported_threads (<[t := th']> ts) ≡ₚ
  reported_threads ts ++
    (if reported (t_pc th') && negb (reported (t_pc th))
     then [t_runner th] else []).
Proof.
  revert t. induction ts as [|th0 ts IH]; intros [|t] Ht Hr Hmono;
    simplify_eq/=.
  - rewrite Hr.
    destruct (reported (t_pc th)), (reported (t_pc th')); cbn;
      rewrite ?app_nil_r; try done.
    + by specialize (Hmono eq_refl).
    + apply Permutation_cons_append.
  - rewrite (IH _ Ht Hr Hmono). by rewrite app_assoc.
Qed.

Lemma reported_threads_snoc ts th :
  reported_threads (ts ++ [th]) =
  reported_threads ts ++ (if reported (t_pc th) then [t_runner th] else []).
Proof.
  induction ts as [|th0 ts IH]; cbn; [by rewrite app_nil_r|].
  by rewrite IH, app_assoc.
Qed.

Lemma reported_threads_all ts :
  (∀ t th, ts !! t = Some th → t_runner th = t ∧ reported (t_pc th) = true) →
  reported_threads ts = seq 0 (length ts).
Proof.
  induction ts as [|th ts IH] using rev_ind; intros Hall; [done|].
  rewrite reported_threads_snoc, length_app, seq_app. cbn.
  destruct (Hall (length ts) th) as [-> ->].
  { by rewrite lookup_app_r, Nat.sub_diag by lia. }
  rewrite IH; [done|]. intros t th' Ht. apply Hall.
  by rewrite lookup_app_l by (by eapply lookup_lt_Some).
Qed.

(** The main thread appends nothing to the result list, and leaves the
    threads there are where they are. *)
Lemma main_step_results p p' :
  main_step p = Some p' →
  result_info_list (w_env (p_world p')) = result_info_list (w_env (p_world p)) ∧
  reported_threads (w_threads (p_world p')) =
  reported_threads (w_threads (p_world p)).
Proof.
  unfold main_step. intros Hstep.
  destruct (p_main p) as [k|k| |status].
  - destruct (w_runners (p_world p) !! k) as [r|] eqn:Hr; simplify_eq; [|done].
    cbn. unfold start, start_attrs. cbn. rewrite Hr. unfold start_thread. cbn.
    pose proof (lookup_lt_Some _ _ _ Hr) as Hlt.
    rewrite list_lookup_insert_eq by done. cbn.
    split; [done|]. by rewrite reported_threads_snoc, app_nil_r.
  - destruct (w_runners (p_world p) !! k) as [r|]; [|by simplify_eq].
    destruct (Event_is_set _ _); by simplify_eq.
  - pose proof (report_and_exit_spec (w_env (p_world p))) as (Hl & _).
    destruct (report_and_exit (w_env (p_world p))) as [c status].
    simplify_eq. by cbn.
  - done.
Qed.

(** One step of a thread appends the record of a runner to the result
    list exactly when it is the call of that runner's stop callback. *)
Lemma proc_step_results sp tid p :
  proc_ok sp p →
  result_info_list (w_env (p_world (proc_step tid p))) =
    result_info_list (w_env (p_world p)) ++
    omap (λ i, expected_record <$> sp !! i) (stop_call_of tid p) ∧
  reported_threads (w_threads (p_world (proc_step tid p))) ≡ₚ
    reported_threads (w_threads (p_world p)) ++ stop_call_of tid p.
Proof.
  intros (Hnd & Hw & Hm). destruct tid as [|t]; cbn.
  - rewrite !app_nil_r.
    destruct (main_step p) as [p'|] eqn:Hs; cbn; [|done].
    by destruct (main_step_results _ _ Hs) as [-> ->].
  - destruct Hw as (Hstatic & Hlen & Hthreads & Hperm & Hs1 & Hs2).
    destruct (w_threads (p_world p) !! t) as [th|] eqn:Hth.
    + destruct (tick t (p_world p)) as [[l w']|] eqn:Htick;
        [|by rewrite !app_nil_r].
      cbn. unfold tick in Htick. rewrite Hth in Htick. cbn in Htick.
      destruct (Hthreads t th Hth) as (Hrun & s & r & Hsp & Hr & Hok).
      rewrite Hrun, Hr in Htick. cbn in Htick.
      destruct (run_step _) as [[l' f']|] eqn:Hstep; [|done]. cbn in Htick.
      injection Htick as <- <-. cbn.
      assert (Hstatic_r : static_ok s r) by (by eapply Forall2_lookup_lr).
      destruct (thread_step_ok _ _ _ _ _ _ _ Hstatic_r Hok Hs1 Hs2 Hstep)
        as (_ & _ & _ & _ & _ & Hlist).
      pose proof (on_stop_reported _ _ _ _ _ _ _ Hstatic_r Hok Hs1 Hs2 Hstep) as Hon.
      pose proof (run_step_reported _ _ _ Hstep) as Hmono. cbn in Hmono.
      rewrite Hlist.
      rewrite (reported_threads_insert _ t th
                 {| t_runner := t; t_pc := f_pc f' |} Hth (eq_sym Hrun) Hmono).
      cbn. rewrite Hon, Hrun.
      destruct (reported (f_pc f') && negb (reported (t_pc th))); cbn;
        [|done].
      by rewrite Hsp.
    + assert (tick t (p_world p) = None) as ->
        by (unfold tick; by rewrite Hth).
      by rewrite !app_nil_r.
Qed.

Lemma proc_exec_results sp sch p :
  proc_ok sp p →
  result_info_list (w_env (p_world (proc_exec sch p))) =
    result_info_list (w_env (p_world p)) ++
    omap (λ i, expected_record <$> sp !! i) (stop_calls sch p) ∧
  reported_threads (w_threads (p_world (proc_exec sch p))) ≡ₚ
    reported_threads (w_threads (p_world p)) ++ stop_calls sch p.
Proof.
  unfold proc_exec. revert p.
  induction sch as [|tid sch IH]; intros p Hok; cbn.
  - by rewrite !app_nil_r.
  - destruct (IH (proc_step tid p) (proc_step_ok _ _ _ Hok)) as [-> ->].
    destruct (proc_step_results sp tid p Hok) as [-> ->].
    by rewrite omap_app, !app_assoc.
Qed.

(** For runners without gates whose jobs return, and every schedule: when
    [Cli.run] has exited, the result list holds the records of the runners
    in the order in which their stop callbacks were called, and every
    runner's stop callback was called once. *)
Lemma Cli_run_order specs rets sch status :
  Forall2 job_returns specs rets →
  p_main (proc_exec sch (Cli_main specs)) = MExit status →
  result_info_list (w_env (p_world (proc_exec sch (Cli_main specs)))) =
    omap (λ i, records_of specs rets !! i) (stop_calls sch (Cli_main specs)) ∧
  stop_calls sch (Cli_main specs) ≡ₚ seq 0 (length specs).
Proof.
  intros Hret Hexit. destruct (Cli_main_ok specs rets Hret) as (sp & Hok & Hrec).
  destruct (proc_exec_results sp sch _ Hok) as [Hres Hthreads].
  pose proof (proc_exec_ok sp sch _ Hok) as (Hnd & Hw & Hm).
  unfold main_ok in Hm. rewrite Hexit in Hm. destruct Hm as (Hlen & Hall & _).
  assert (result_info_list (w_env (p_world (Cli_main specs))) = [] ∧
          w_threads (p_world (Cli_main specs)) = []) as [Hnil Hnot].
  { unfold Cli_main. by destruct (make_runners specs ∅). }
  rewrite Hnil in Hres. rewrite Hnot in Hthreads. cbn in Hres, Hthreads.
  split.
  - rewrite Hres. rewrite <- Hrec. apply list_omap_ext.
    apply Forall_Forall2_diag, Forall_forall.
    intros i _. by rewrite list_lookup_fmap.
  - rewrite <- Hthreads. rewrite reported_threads_all.
    + assert (length sp = length specs) as Hl.
      { rewrite <- (length_fmap expected_record sp), Hrec. unfold records_of.
        rewrite length_zip_with. pose proof (Forall2_length _ _ _ Hret). lia. }
      by rewrite Hlen, Hl.
    + intros t th Ht.
      pose proof Hw as (_ & _ & Hth & _).
      destruct (Hth t th Ht) as (Hrun & _).
      by rewrite (all_set_all_reported sp _ Hw Hall t th Ht).
Qed.

(** C8, as the code has it.  Three runners without gates whose jobs return
    the codes 0, 1 and 0, under every schedule: when [Cli.run] has exited,
    the exit status is 1 (failed); the stop callback of each of the three
    runners has been called once; the result list is the list of the
    runners' records in the order of these calls — the [k]-th record is
    that of the runner whose stop callback was called [k]-th — so it has
    exactly three records, those of the construction order up to a
    permutation; and the record of the second runner has the outcome text
    ["FAIL (1)"]. *)
Theorem three_runners_results (n0 n1 n2 o0 o1 o2 : string)
    (j0 j1 j2 : View → gmap string PyVal → JobOutcome) sch status :
  (∀ v kw, j0 v kw = JobReturn 0 o0) →
  (∀ v kw, j1 v kw = JobReturn 1 o1) →
  (∀ v kw, j2 v kw = JobReturn 0 o2) →
  p_main (proc_exec sch (Cli_main [(n0, j0); (n1, j1); (n2, j2)])) = MExit status →
  let results :=
    result_info_list
      (w_env (p_world (proc_exec sch (Cli_main [(n0, j0); (n1, j1); (n2, j2)])))) in
  let calls := stop_calls sch (Cli_main [(n0, j0); (n1, j1); (n2, j2)]) in
  let records :=
    [(n0, "Success", o0); (n1, "FAIL (1)", o1); (n2, "Success", o2)] in
  status = 1%Z ∧
  calls ≡ₚ [0; 1; 2] ∧
  results = omap (λ i, records !! i) calls ∧
  (∀ k, results !! k = (calls !! k) ≫= (λ i, records !! i)) ∧
  length results = 3 ∧
  results ≡ₚ records ∧
  (n1, "FAIL (1)", o1) ∈ results.
Proof.
  intros H0 H1 H2 Hexit results calls records.
  assert (Forall2 job_returns [(n0, j0); (n1, j1); (n2, j2)]
            [(0%Z, o0); (1%Z, o1); (0%Z, o2)]) as Hret
    by (by repeat constructor).
  destruct (Cli_run_results _ _ sch status Hret Hexit) as [Hperm Hstatus].
  destruct (Cli_run_order _ _ sch status Hret Hexit) as [Hres Hcalls].
  change (records_of _ _) with records in Hperm, Hstatus, Hres.
  fold results in Hperm, Hres. fold calls in Hres, Hcalls.
  change (seq 0 _) with [0; 1; 2] in Hcalls.
  assert (∀ i, i ∈ calls → is_Some (records !! i)) as Hsome.
  { intros i Hi. rewrite Hcalls in Hi. apply lookup_lt_is_Some. cbn.
    split_mem; simplify_eq; lia. }
  split; [|split; [|split; [|split; [|split; [|split]]]]].
  - apply Hstatus. apply Exists_cons_tl, Exists_cons_hd.
    intros Hsub. apply str_contains_spec in Hsub. discriminate Hsub.
  - done.
  - done.
  - rewrite Hres. clear Hres Hcalls. intros k. revert k.
    induction calls as [|i calls IH]; intros k; [done|].
    destruct (Hsome i) as [rec Hrec]; [by left|].
    cbn. rewrite Hrec. cbn. destruct k as [|k]; cbn.
    + by rewrite Hrec.
    + apply IH. intros i' Hi'. apply Hsome. by right.
  - by rewrite Hperm.
  - done.
  - rewrite Hperm. apply (list_elem_of_lookup_2 _ 1). done.
Qed.

Lemma three_runners_results_witness :
  let p := proc_exec schedule_second_first (Cli_main three_runners) in
  p_main p = MExit 1 ∧
  stop_calls schedule_second_first (Cli_main three_runners) = [1; 0; 2] ∧
  result_info_list (w_env (p_world p)) =
    [("b", "FAIL (1)", "out b"); ("a", "Success", "out a");
     ("c", "Success", "out c")].
Proof.
  intros p.
  assert (p_main p = MExit 1) as Hexit by (vm_compute; reflexivity).
  assert (stop_calls schedule_second_first (Cli_main three_runners) = [1; 0; 2])
    as Hcalls by (vm_compute; reflexivity).
  destruct (three_runners_results "a" "b" "c" "out a" "out b" "out c"
              (job_returning 0 "out a") (job_returning 1 "out b")
              (job_returning 0 "out c") schedule_second_first 1
              (λ _ _, eq_refl) (λ _ _, eq_refl) (λ _ _, eq_refl) Hexit)
    as (_ & _ & Hres & _).
  split; [exact Hexit|]. split; [exact Hcalls|].
  unfold p. change (Cli_main three_runners) with
    (Cli_main [("a", job_returning 0 "out a"); ("b", job_returning 1 "out b");
               ("c", job_returning 0 "out c")]).
  rewrite Hres.
  change (Cli_main [("a", job_returning 0 "out a"); ("b", job_returning 1 "out b");
               ("c", job_returning 0 "out c")]) with (Cli_main three_runners).
  rewrite Hcalls. reflexivity.
Defined.

(** ** The report, in characters *)

(** X6.  What [display_result_info] prints: for every record of the result
    list, in the order of the list, two newlines, the name and the outcome
    text between separators, and the lines of the output, each after
    ["# "]; nothing else, and the attributes of the object stay as they
    are.  The separator is made of [#] only; counted in characters, as
    [len()] counts, it is two longer than the longest name, outcome text
    or output line, but at most 202 long; so unless something is longer
    than 200 characters, no name line and no output line has more
    characters than the separator. *)
Theorem display_result_info_prints (c : Cli) :
  let l := result_info_list c in
  let sep := hashes (longest l `min` 200 + 2) in
  stdout (display_result_info c) = stdout c ++ flat_map (report_block sep) l ∧
  result_info_list (display_result_info c) = l ∧
  len sep = longest l `min` 200 + 2 ∧
  (∀ nm rm out, (nm, rm, out) ∈ l →
     len nm ≤ longest l ∧ len rm ≤ longest l ∧
     Forall (λ line, len line ≤ longest l) (split_lines out)) ∧
  (longest l ≤ 200 →
   ∀ nm rm out, (nm, rm, out) ∈ l →
     len ("# " +:+ nm) ≤ len sep ∧
     Forall (λ line, len ("# " +:+ line) ≤ len sep) (split_lines out)).
Proof.
  intros l sep.
  assert (∀ nm rm out, (nm, rm, out) ∈ l →
            ∀ x, x ∈ len nm :: len rm :: (len <$> split_lines out) →
                 x ≤ longest l) as Hlong.
  { intros nm rm out Hin x Hx. apply max_list_elem_of_le.
    apply list_elem_of_In, in_flat_map.
    exists (nm, rm, out). split; by apply list_elem_of_In. }
  split; [|split; [|split; [|split]]].
  - unfold display_result_info. fold l.
    rewrite max_len_spec, Nat.max_0_l, hashes_spec. fold sep.
    apply print_blocks_spec.
  - apply display_result_info_list.
  - apply len_hashes.
  - intros nm rm out Hin. split; [|split].
    + apply (Hlong nm rm out Hin). by left.
    + apply (Hlong nm rm out Hin). right. by left.
    + apply Forall_forall. intros line Hline.
      apply (Hlong nm rm out Hin). right. right.
      apply list_elem_of_fmap. by exists line.
  - intros Hle nm rm out Hin. unfold sep. rewrite len_hashes.
    split.
    + rewrite len_app. cbn.
      pose proof (Hlong nm rm out Hin (len nm) ltac:(left)). lia.
    + apply Forall_forall. intros line Hline. rewrite len_app. cbn.
      assert (len line ≤ longest l); [|lia].
      apply (Hlong nm rm out Hin). right. right.
      apply list_elem_of_fmap. by exists line.
Qed.

Lemma display_result_info_prints_witness :
  let nm := euro_sign +:+ euro_sign +:+ euro_sign +:+ euro_sign +:+ euro_sign
            +:+ euro_sign +:+ euro_sign +:+ euro_sign +:+ euro_sign
            +:+ euro_sign in
  let c := {| result_info_list := [(nm, "Success", "ok")];
              start_callback_sema := 1; stop_callback_sema := 1;
              stdout := [] |} in
  String.length nm = 30 ∧ len nm = 10 ∧
  stdout (display_result_info c) =
    [newline2; "############"; "# " +:+ nm; "############";
     "# Result: Success"; "############"; "# ok"] ∧
  len ("# " +:+ nm) ≤ 12.
Proof.
  intros nm c.
  destruct (display_result_info_prints c) as (Hout & _ & Hlen & _ & Hfit).
  destruct (Hfit ltac:(vm_compute; lia) nm "Success" "ok" ltac:(left))
    as [Hname _].
  split; [reflexivity|]. split; [reflexivity|].
  split; [by rewrite Hout|]. exact Hname.
Defined.
